(** * Row-count reconciliation monitor: a shallow embedding

    The development follows [app.py] (the mapping-aware monitor), with the
    [is_consistent] variant of [cdc_monitor.py] / [data_access/table_service.py]
    next to it.

    Conventions of the embedding:
    - a Python [int] is a [Z]; the sentinel [-1] is the error mark;
    - a Python [str] is a [list ascii] ([pystr]): a sequence of code points
      below 256.  On these, [\d] is [0-9] and [str.strip()] removes the
      white space listed in [is_space];
    - a [dict] is an association list in insertion order ([dict]);
    - a [datetime] is an abstract instant ([Z]);
    - the database and the stop event are an explicit environment ([Env]);
    - a polling pass is a function from the records of its batch to the
      returned flag and the records as the pass leaves them.  The blocks it
      runs under a lock hold no suspension point; they are the [apply_*]
      and [mark_*] functions on one record.  The interleaving of the target
      task and the source task of one schema is not modelled;
    - log lines and the drawing of the display are left out; what the
      display shows is modelled: the statistics, the filter, the order of
      the rows, the relative times and the history of totals.

    The second half of each part covers the code around the passes: the
    first counts of [start_monitoring], the repository and the table
    service of [data_access], the statistics of
    [services/monitor_service.py] and the MySQL passes of
    [cdc_monitor.py]. *)

From Stdlib Require Import Ascii String.
From Stdlib Require Import List Bool Arith ZArith NArith Lia.
From Stdlib Require Import Permutation Sorted.
Import ListNotations.

Set Implicit Arguments.

(** ** Strings *)

Definition pystr := list ascii.

Definition py (s : string) : pystr := list_ascii_of_string s.
Coercion py : string >-> pystr.

Definition pystr_eqb (a b : pystr) : bool :=
  if list_eq_dec ascii_dec a b then true else false.

(** ** TableInfo *)

Definition datetime := Z.

Record TableInfo := mkTableInfo {
  schema_name : pystr;
  target_table_name : pystr;
  target_rows : Z;
  source_rows : Z;
  previous_target_rows : Z;
  previous_source_rows : Z;
  source_tables : list pystr;
  last_updated : datetime;
  source_last_updated : datetime;
  target_last_updated : datetime;
  is_first_query : bool;
  source_updating : bool;
  target_updating : bool;
  target_is_estimated : bool;
  source_is_estimated : bool;
  pause_auto_refresh : bool
}.

Open Scope Z_scope.

(** [TableInfo.data_diff] *)
Definition data_diff (t : TableInfo) : Z :=
  if (target_rows t =? -1) || (source_rows t =? -1) then 0
  else target_rows t - source_rows t.

(** [TableInfo.is_consistent] of [app.py]: plain equality. *)
Definition is_consistent (t : TableInfo) : bool :=
  target_rows t =? source_rows t.

(** The two variants as functions of the two counts. *)
Definition is_consistent_plain (target source : Z) : bool :=
  target =? source.

(** [TableInfo.is_consistent] of [cdc_monitor.py] and [table_service.py]. *)
Definition is_consistent_zero_case (target source : Z) : bool :=
  if (target =? 0) && (source =? 0) then true
  else target =? source.


(** ** Python string operations used by [SyncProperties] *)

Close Scope Z_scope.
Open Scope nat_scope.

Definition newline : ascii := ascii_of_nat 10.
Definition underscore : ascii := "_"%char.
Definition hyphen : ascii := "-"%char.

Definition in_range (lo hi : nat) (c : ascii) : bool :=
  (lo <=? nat_of_ascii c) && (nat_of_ascii c <=? hi).

(** White space of [str.strip()] among the code points below 256. *)
Definition is_space (c : ascii) : bool :=
  in_range 9 13 c || in_range 28 32 c ||
  (nat_of_ascii c =? 133) || (nat_of_ascii c =? 160).

(** [\d] *)
Definition is_digit (c : ascii) : bool := in_range 48 57 c.

(** [[0-9a-fA-F]] *)
Definition is_hex (c : ascii) : bool :=
  in_range 48 57 c || in_range 97 102 c || in_range 65 70 c.

Fixpoint lstrip (s : pystr) : pystr :=
  match s with
  | [] => []
  | c :: r => if is_space c then lstrip r else s
  end.

(** [s.strip()] *)
Definition strip (s : pystr) : pystr := rev (lstrip (rev (lstrip s))).

(** [not s] for a string *)
Definition is_empty (s : pystr) : bool :=
  match s with [] => true | _ => false end.

(** [c in s] for a one-character [c] *)
Definition contains (c : ascii) (s : pystr) : bool := existsb (Ascii.eqb c) s.

(** [s.endswith(suf)] *)
Definition endswith (s suf : pystr) : bool :=
  (length suf <=? length s) && pystr_eqb (skipn (length s - length suf) s) suf.

(** Slices [s[:j]] and [s[i:]]; a negative bound counts from the end. *)
Definition slice_bound (n : nat) (i : Z) : nat :=
  if (i <? 0)%Z then Z.to_nat (Z.of_nat n + i) else Z.to_nat i.

Definition slice_to (s : pystr) (j : Z) : pystr :=
  firstn (slice_bound (length s) j) s.

Definition slice_from (s : pystr) (i : Z) : pystr :=
  skipn (slice_bound (length s) i) s.

(** [s.rfind(c)]: the highest index of [c], or -1. *)
Fixpoint rfind_from (c : ascii) (s : pystr) (i last : Z) : Z :=
  match s with
  | [] => last
  | x :: r => rfind_from c r (i + 1)%Z (if Ascii.eqb x c then i else last)
  end.

Definition rfind (c : ascii) (s : pystr) : Z := rfind_from c s 0%Z (-1)%Z.

(** [s.split(sep)] for a one-character separator *)
Fixpoint split (sep : ascii) (s : pystr) : list pystr :=
  match s with
  | [] => [[]]
  | c :: r =>
      if Ascii.eqb c sep then [] :: split sep r
      else match split sep r with
           | [] => [[c]]
           | h :: t => (c :: h) :: t
           end
  end.

(** [sep.join(parts)] *)
Fixpoint join (sep : pystr) (parts : list pystr) : pystr :=
  match parts with
  | [] => []
  | p :: rest =>
      match rest with
      | [] => p
      | _ => p ++ sep ++ join sep rest
      end
  end.

(** ** The regular expressions of [SyncProperties]

    Every pattern of the program is a fixed sequence of character classes,
    possibly after [.*] and always before [$].  Without [re.MULTILINE], [$]
    matches at the end of the string and just before a line feed that ends
    the string; [.] matches everything but a line feed. *)

Definition charclass := ascii -> bool.
Definition pattern := list charclass.

Definition lit (c : ascii) : charclass := Ascii.eqb c.

Fixpoint fullmatch (p : pattern) (s : pystr) : bool :=
  match p, s with
  | [], [] => true
  | c :: p', x :: s' => c x && fullmatch p' s'
  | _, _ => false
  end.

(** The places where [$] matches, leftmost first: each is the text before
    it and the text after it. *)
Definition dollar_splits (s : pystr) : list (pystr * pystr) :=
  match rev s with
  | c :: r => if Ascii.eqb c newline then [(rev r, [newline]); (s, [])]
              else [(s, [])]
  | [] => [(s, [])]
  end.

(** [s] ends with a match of [p]. *)
Definition ends_fullmatch (p : pattern) (s : pystr) : bool :=
  (length p <=? length s) && fullmatch p (skipn (length s - length p) s).

(** [re.search(p + '$', s)]: the text before and after the leftmost match. *)
Definition re_search_end (p : pattern) (s : pystr) : option (pystr * pystr) :=
  match find (fun ba => ends_fullmatch p (fst ba)) (dollar_splits s) with
  | Some (b, a) => Some (firstn (length b - length p) b, a)
  | None => None
  end.

(** Truth value of a match object. *)
Definition re_found (m : option (pystr * pystr)) : bool :=
  match m with Some _ => true | None => false end.

(** [re.sub(p + '$', '', s)].  A pattern of at least two characters has at
    most one match before [$], so the leftmost match is the only one
    replaced. *)
Definition re_sub_end (p : pattern) (s : pystr) : pystr :=
  match re_search_end p s with
  | Some (before, after) => before ++ after
  | None => s
  end.

(** [re.match('.*' + p + '$', s)] *)
Definition re_match_dotstar_end (p : pattern) (s : pystr) : bool :=
  existsb (fun ba =>
             ends_fullmatch p (fst ba) &&
             forallb (fun c => negb (Ascii.eqb c newline))
                     (firstn (length (fst ba) - length p) (fst ba)))
          (dollar_splits s).

(** [re.match('^' + p + '$', s)] *)
Definition re_match_whole (p : pattern) (s : pystr) : bool :=
  existsb (fun ba => fullmatch p (fst ba)) (dollar_splits s).

(** [re.sub(r'[-_]', '', s)] *)
Definition remove_separators (s : pystr) : pystr :=
  filter (fun c => negb (Ascii.eqb c hyphen || Ascii.eqb c underscore)) s.

Definition digits (n : nat) : pattern := repeat is_digit n.
Definition hexes (n : nat) : pattern := repeat is_hex n.

(** [_\d{9}_\d{4}] *)
Definition pattern_shard_year : pattern :=
  lit underscore :: digits 9 ++ lit underscore :: digits 4.

(** [_[0-9a-fA-F]{8}<sep>[0-9a-fA-F]{4}<sep>...{4}<sep>...{4}<sep>...{12}] *)
Definition pattern_uuid (sep : ascii) : pattern :=
  lit underscore :: hexes 8 ++ lit sep :: hexes 4 ++ lit sep :: hexes 4 ++
  lit sep :: hexes 4 ++ lit sep :: hexes 12.

Definition pattern1 : pattern := pattern_uuid underscore.
Definition pattern2 : pattern := pattern_uuid hyphen.
Definition pattern3 : pattern := pattern1 ++ lit underscore :: digits 4.

(** ** SyncProperties *)

(** [SyncProperties._is_numeric_suffix] *)
Definition _is_numeric_suffix (s : pystr) : bool :=
  if is_empty s || is_empty (strip s) then false
  else re_match_whole (digits 9) s.

(** The loop of pattern 4, [for i in range(len(parts) - 1, 0, -1)]: [i] is
    the current index, the loop ends when it reaches 0. *)
Fixpoint scan_uuid_parts (table_name : pystr) (parts : list pystr) (i : nat)
  : pystr :=
  match i with
  | 0 => table_name
  | S i' =>
      let possible_uuid := join [underscore] (skipn i parts) in
      let clean_uuid := remove_separators possible_uuid in
      if (length clean_uuid =? 32) && re_match_whole (hexes 32) clean_uuid
      then join [underscore] (firstn i parts)
      else if 32 <? length clean_uuid then table_name
      else scan_uuid_parts table_name parts i'
  end.

(** [SyncProperties._extract_table_name_from_uuid] *)
Definition _extract_table_name_from_uuid (table_name : pystr) : pystr :=
  if is_empty table_name || negb (contains underscore table_name)
  then table_name
  else if re_found (re_search_end pattern1 table_name)
  then re_sub_end pattern1 table_name
  else if re_found (re_search_end pattern2 table_name)
  then re_sub_end pattern2 table_name
  else if re_found (re_search_end pattern3 table_name)
  then re_sub_end pattern3 table_name
  else
    let parts := split underscore table_name in
    if 2 <=? length parts
    then scan_uuid_parts table_name parts (length parts - 1)
    else table_name.

(** [SyncProperties.get_target_table_name] *)
Definition get_target_table_name (source_table_name : pystr) : pystr :=
  if is_empty source_table_name || is_empty (strip source_table_name)
  then source_table_name
  else if negb (contains underscore source_table_name)
  then source_table_name
  else if endswith source_table_name "_runtime"%string
  then slice_to source_table_name (-8)
  else
    let last_underscore_index := rfind underscore source_table_name in
    if (0 <? last_underscore_index)%Z &&
       _is_numeric_suffix
         (slice_from source_table_name (last_underscore_index + 1))
    then slice_to source_table_name last_underscore_index
    else if re_match_dotstar_end pattern_shard_year source_table_name
    then re_sub_end pattern_shard_year source_table_name
    else
      let extracted_base_name :=
        _extract_table_name_from_uuid source_table_name in
      if negb (pystr_eqb extracted_base_name source_table_name)
      then extracted_base_name
      else source_table_name.

(** ** Dictionaries

    A Python [dict] keeps its keys in insertion order; assigning to a key
    that is present keeps its position. *)

Definition dict (V : Type) := list (pystr * V).

Fixpoint dict_get {V} (d : dict V) (k : pystr) : option V :=
  match d with
  | [] => None
  | (k', v) :: d' => if pystr_eqb k' k then Some v else dict_get d' k
  end.

Fixpoint dict_set {V} (d : dict V) (k : pystr) (v : V) : dict V :=
  match d with
  | [] => [(k, v)]
  | (k', v') :: d' =>
      if pystr_eqb k' k then (k', v) :: d' else (k', v') :: dict_set d' k v
  end.

Definition dict_mem {V} (d : dict V) (k : pystr) : bool :=
  match dict_get d k with Some _ => true | None => false end.

Definition values {V} (d : dict V) : list V := map snd d.

(** The same update applied to every value, as a loop over [d.values()]
    that assigns to fields of each object does. *)
Definition on_value {V} (f : V -> V) (kv : pystr * V) : pystr * V :=
  (fst kv, f (snd kv)).

Definition map_values {V} (f : V -> V) (d : dict V) : dict V :=
  map (on_value f) d.

(** [x in l] for a list of strings *)
Definition mem (x : pystr) (l : list pystr) : bool := existsb (pystr_eqb x) l.

(** ** Assignments to the fields of a [TableInfo] *)

Definition set_target_rows (v : Z) (t : TableInfo) : TableInfo :=
  mkTableInfo (schema_name t) (target_table_name t) v (source_rows t)
    (previous_target_rows t) (previous_source_rows t) (source_tables t)
    (last_updated t) (source_last_updated t) (target_last_updated t)
    (is_first_query t) (source_updating t) (target_updating t)
    (target_is_estimated t) (source_is_estimated t) (pause_auto_refresh t).

Definition set_source_rows (v : Z) (t : TableInfo) : TableInfo :=
  mkTableInfo (schema_name t) (target_table_name t) (target_rows t) v
    (previous_target_rows t) (previous_source_rows t) (source_tables t)
    (last_updated t) (source_last_updated t) (target_last_updated t)
    (is_first_query t) (source_updating t) (target_updating t)
    (target_is_estimated t) (source_is_estimated t) (pause_auto_refresh t).

Definition set_previous_target_rows (v : Z) (t : TableInfo) : TableInfo :=
  mkTableInfo (schema_name t) (target_table_name t) (target_rows t)
    (source_rows t) v (previous_source_rows t) (source_tables t)
    (last_updated t) (source_last_updated t) (target_last_updated t)
    (is_first_query t) (source_updating t) (target_updating t)
    (target_is_estimated t) (source_is_estimated t) (pause_auto_refresh t).

Definition set_source_tables (v : list pystr) (t : TableInfo) : TableInfo :=
  mkTableInfo (schema_name t) (target_table_name t) (target_rows t)
    (source_rows t) (previous_target_rows t) (previous_source_rows t) v
    (last_updated t) (source_last_updated t) (target_last_updated t)
    (is_first_query t) (source_updating t) (target_updating t)
    (target_is_estimated t) (source_is_estimated t) (pause_auto_refresh t).

Definition set_source_last_updated (v : datetime) (t : TableInfo)
  : TableInfo :=
  mkTableInfo (schema_name t) (target_table_name t) (target_rows t)
    (source_rows t) (previous_target_rows t) (previous_source_rows t)
    (source_tables t) (last_updated t) v (target_last_updated t)
    (is_first_query t) (source_updating t) (target_updating t)
    (target_is_estimated t) (source_is_estimated t) (pause_auto_refresh t).

Definition set_target_last_updated (v : datetime) (t : TableInfo)
  : TableInfo :=
  mkTableInfo (schema_name t) (target_table_name t) (target_rows t)
    (source_rows t) (previous_target_rows t) (previous_source_rows t)
    (source_tables t) (last_updated t) (source_last_updated t) v
    (is_first_query t) (source_updating t) (target_updating t)
    (target_is_estimated t) (source_is_estimated t) (pause_auto_refresh t).

Definition set_is_first_query (v : bool) (t : TableInfo) : TableInfo :=
  mkTableInfo (schema_name t) (target_table_name t) (target_rows t)
    (source_rows t) (previous_target_rows t) (previous_source_rows t)
    (source_tables t) (last_updated t) (source_last_updated t)
    (target_last_updated t) v (source_updating t) (target_updating t)
    (target_is_estimated t) (source_is_estimated t) (pause_auto_refresh t).

Definition set_source_updating (v : bool) (t : TableInfo) : TableInfo :=
  mkTableInfo (schema_name t) (target_table_name t) (target_rows t)
    (source_rows t) (previous_target_rows t) (previous_source_rows t)
    (source_tables t) (last_updated t) (source_last_updated t)
    (target_last_updated t) (is_first_query t) v (target_updating t)
    (target_is_estimated t) (source_is_estimated t) (pause_auto_refresh t).

Definition set_target_updating (v : bool) (t : TableInfo) : TableInfo :=
  mkTableInfo (schema_name t) (target_table_name t) (target_rows t)
    (source_rows t) (previous_target_rows t) (previous_source_rows t)
    (source_tables t) (last_updated t) (source_last_updated t)
    (target_last_updated t) (is_first_query t) (source_updating t) v
    (target_is_estimated t) (source_is_estimated t) (pause_auto_refresh t).

Definition set_target_is_estimated (v : bool) (t : TableInfo) : TableInfo :=
  mkTableInfo (schema_name t) (target_table_name t) (target_rows t)
    (source_rows t) (previous_target_rows t) (previous_source_rows t)
    (source_tables t) (last_updated t) (source_last_updated t)
    (target_last_updated t) (is_first_query t) (source_updating t)
    (target_updating t) v (source_is_estimated t) (pause_auto_refresh t).

Definition set_source_is_estimated (v : bool) (t : TableInfo) : TableInfo :=
  mkTableInfo (schema_name t) (target_table_name t) (target_rows t)
    (source_rows t) (previous_target_rows t) (previous_source_rows t)
    (source_tables t) (last_updated t) (source_last_updated t)
    (target_last_updated t) (is_first_query t) (source_updating t)
    (target_updating t) (target_is_estimated t) v (pause_auto_refresh t).

Definition set_pause_auto_refresh (v : bool) (t : TableInfo) : TableInfo :=
  mkTableInfo (schema_name t) (target_table_name t) (target_rows t)
    (source_rows t) (previous_target_rows t) (previous_source_rows t)
    (source_tables t) (last_updated t) (source_last_updated t)
    (target_last_updated t) (is_first_query t) (source_updating t)
    (target_updating t) (target_is_estimated t) (source_is_estimated t) v.

(** ** Initialization: the reverse mapping

    [initialize_tables_from_target], for one schema, after the two table
    listings have been read: [target_table_names] and [source_table_names]
    are the listings, already without the ignored prefixes. *)

Open Scope Z_scope.

Definition seconds_of_days (d : Z) : Z := d * 86400.

(** The fresh [TableInfo(...)] of one target table. *)
Definition new_table_info (current_time : datetime)
    (schema target_table : pystr) : TableInfo :=
  mkTableInfo schema target_table 0 0 0 0 []
    current_time
    (current_time - seconds_of_days 365)
    (current_time - seconds_of_days 365)
    true false false false false false.

(** Step 2 of the reverse mapping: the loop over the source listing. *)
Fixpoint collect_mapped (target_table : pystr) (source_table_names : list pystr)
    (acc : list pystr) : list pystr :=
  match source_table_names with
  | [] => acc
  | source_table :: rest =>
      let mapped_target := get_target_table_name source_table in
      if pystr_eqb mapped_target target_table
      then if negb (mem source_table acc)
           then collect_mapped target_table rest (acc ++ [source_table])
           else collect_mapped target_table rest acc
      else collect_mapped target_table rest acc
  end.

(** The three steps that fill [source_tables] for one target table. *)
Definition reverse_mapping (target_table : pystr)
    (source_table_names : list pystr) : list pystr :=
  let direct :=
    if mem target_table source_table_names then [target_table] else [] in
  let collected := collect_mapped target_table source_table_names direct in
  match collected with
  | [] => [target_table]
  | _ => collected
  end.

(** The loop over the target listing, building [target_tables]. *)
Definition initialize_schema (current_time : datetime) (schema : pystr)
    (target_table_names source_table_names : list pystr) : dict TableInfo :=
  fold_left
    (fun target_tables target_table =>
       dict_set target_tables target_table
         (set_source_tables (reverse_mapping target_table source_table_names)
            (new_table_info current_time schema target_table)))
    target_table_names [].

(** [initialize_tables_from_target]: the loop over the configured schemas.
    [listing schema] is what the two servers answer for a schema: the
    target listing, [None] when the target connection fails, and the source
    listing, empty when the source connection fails.  The clock is read
    once. *)
Definition initialize_tables_from_target (current_time : datetime)
    (databases : list pystr)
    (listing : pystr -> option (list pystr) * list pystr)
  : dict (dict TableInfo) :=
  fold_left
    (fun schema_tables schema_name =>
       let schema_name := strip schema_name in
       if is_empty schema_name then schema_tables
       else
         match fst (listing schema_name) with
         | None => schema_tables
         | Some target_table_names =>
             let target_tables :=
               initialize_schema current_time schema_name target_table_names
                 (snd (listing schema_name)) in
             match target_tables with
             | [] => schema_tables
             | _ => dict_set schema_tables schema_name target_tables
             end
         end)
    databases [].

(** ** The environment of a polling pass

    The two database servers, the clock and the stop event.  A query has
    the same outcome each time it is issued during one pass. *)

(** Outcome of [SELECT COUNT( * )] followed by [fetchone()]. *)
Inductive query_result : Type :=
| QRaise                  (* the statement raises *)
| QNone                   (* [fetchone()] returns [None] *)
| QRow (count : N).       (* the row holding the count *)

(** A row of [information_schema.tables]: the name and [table_rows],
    [None] for NULL. *)
Definition stats_row : Type := pystr * option Z.

(** Outcome of the statistics query for a single table. *)
Inductive stats_result : Type :=
| SRaise
| SNone
| SRow (table_rows : option Z).

Record Env := mkEnv {
  (** [datetime.now()] at the start of the pass *)
  now : datetime;
  (** what the [k]-th test of [stop_event.is_set()] in the pass sees *)
  stop_event_is_set : nat -> bool;
  (** whether [connect_source] / [connect_target] return a connection *)
  connect_source : pystr -> bool;
  connect_target : pystr -> bool;
  (** [SELECT COUNT( * ) FROM schema.table] on either server *)
  source_count : pystr -> pystr -> query_result;
  target_count : pystr -> pystr -> query_result;
  (** the source server refuses this [UNION ALL] statement as a whole *)
  source_union_rejected : pystr -> list pystr -> bool;
  (** statistics of the source for a set of names; [None] when it raises *)
  source_stats_in : pystr -> list pystr -> option (list stats_row);
  (** statistics of the source for one name *)
  source_stats_one : pystr -> pystr -> stats_result;
  (** statistics of every base table of the target schema *)
  target_stats : pystr -> option (list stats_row);
  (** [self.call_from_thread(self.update_display)] raises *)
  call_from_thread_raises : bool
}.

(** [max(0, table_rows or 0)] *)
Definition estimated_rows (table_rows : option Z) : Z :=
  Z.max 0 (match table_rows with Some n => n | None => 0 end).

(** The dictionary from table names to estimates built from the rows. *)
Definition stats_map (rows : list stats_row) : dict Z :=
  fold_left (fun m row => dict_set m (fst row) (estimated_rows (snd row)))
            rows [].

(** ** The target side: [_update_single_schema_target] *)

(** The roll of [previous_target_rows], with [baseline] the value stored
    on a first query. *)
Definition roll_previous_target (baseline : Z) (t : TableInfo) : TableInfo :=
  if negb (is_first_query t)
  then set_previous_target_rows (target_rows t) t
  else set_is_first_query false (set_previous_target_rows baseline t).

(** Marking at the start of an exact pass. *)
Definition mark_target_updating (t : TableInfo) : TableInfo :=
  if negb (target_updating t) then set_target_updating true t else t.

(** Marking at the start of an estimate pass. *)
Definition mark_target_updating_estimate (t : TableInfo) : TableInfo :=
  if negb (target_updating t)
  then set_target_rows 0 (set_target_updating true t)
  else t.

(** The handler of the outermost [except]. *)
Definition unmark_target_updating (t : TableInfo) : TableInfo :=
  if target_updating t then set_target_updating false t else t.

(** Exact mode, the block under the lock after a successful query. *)
Definition apply_target_exact (current_time : datetime) (new_count : Z)
    (t : TableInfo) : TableInfo :=
  let t := roll_previous_target new_count t in
  let t := set_target_rows new_count t in
  let t := set_target_last_updated current_time t in
  let t := set_target_updating false t in
  let t := set_target_is_estimated false t in
  if is_consistent t then set_pause_auto_refresh true t else t.

(** Exact mode, the block under the lock in the [except] of one table. *)
Definition apply_target_exact_failed (current_time : datetime)
    (t : TableInfo) : TableInfo :=
  let t := roll_previous_target (-1) t in
  let t := set_target_rows (-1) t in
  let t := set_target_last_updated current_time t in
  set_target_is_estimated false t.

(** Estimate mode, the block under the lock for one table. *)
Definition apply_target_estimate (current_time : datetime) (new_count : Z)
    (t : TableInfo) : TableInfo :=
  let t := roll_previous_target new_count t in
  let t := set_target_rows new_count t in
  let t := set_target_last_updated current_time t in
  let t := set_target_updating false t in
  set_target_is_estimated true t.

(** Estimate mode, the block under the lock when the statistics failed. *)
Definition apply_target_estimate_failed (current_time : datetime)
    (t : TableInfo) : TableInfo :=
  let t := roll_previous_target (-1) t in
  let t := set_target_rows (-1) t in
  let t := set_target_last_updated current_time t in
  let t := set_target_updating false t in
  set_target_is_estimated true t.

(** The loop of the exact mode: [done] holds the records already visited,
    [todo] those still to visit, [k] counts the tests of the stop event. *)
Fixpoint target_exact_loop (env : Env) (schema : pystr) (k : nat)
    (done todo : dict TableInfo) : bool * dict TableInfo :=
  match todo with
  | [] => (true, done)
  | (target_table, table_info) :: rest =>
      if stop_event_is_set env k
      then (false, map_values (set_target_updating false) (done ++ todo))
      else
        let table_info :=
          match target_count env schema target_table with
          | QRow n => apply_target_exact (now env) (Z.of_N n) table_info
          | QNone => apply_target_exact (now env) 0 table_info
          | QRaise => apply_target_exact_failed (now env) table_info
          end in
        target_exact_loop env schema (S k)
          (done ++ [(target_table, table_info)]) rest
  end.

(** The loop of the estimate mode over the statistics [stats]. *)
Fixpoint target_estimate_loop (env : Env) (schema : pystr) (stats : dict Z)
    (k : nat) (done todo : dict TableInfo) : bool * dict TableInfo :=
  match todo with
  | [] => (true, done)
  | (target_table, table_info) :: rest =>
      if stop_event_is_set env k
      then (false,
            done ++ (target_table, set_target_updating false table_info)
                 :: rest)
      else
        let new_count :=
          match dict_get stats target_table with
          | Some c => c
          | None =>
              match target_count env schema target_table with
              | QRow n => Z.of_N n
              | QNone => 0
              | QRaise => -1
              end
          end in
        target_estimate_loop env schema stats (S k)
          (done ++ [(target_table,
                     apply_target_estimate (now env) new_count table_info)])
          rest
  end.

(** The loop of the estimate mode after the statistics query raised. *)
Fixpoint target_estimate_failed_loop (env : Env) (k : nat)
    (done todo : dict TableInfo) : bool * dict TableInfo :=
  match todo with
  | [] => (true, done)
  | (target_table, table_info) :: rest =>
      if stop_event_is_set env k
      then (false,
            done ++ (target_table, set_target_updating false table_info)
                 :: rest)
      else
        target_estimate_failed_loop env (S k)
          (done ++ [(target_table,
                     apply_target_estimate_failed (now env) table_info)])
          rest
  end.

(** The pass: the returned flag and the records as the pass leaves them.
    Closing the connection is taken not to raise. *)
Definition _update_single_schema_target (env : Env) (schema_name : pystr)
    (tables_dict : dict TableInfo) (use_information_schema : bool)
  : bool * dict TableInfo :=
  if stop_event_is_set env 0 then (false, tables_dict)
  else if negb (connect_target env schema_name) then (false, tables_dict)
  else if use_information_schema then
    if stop_event_is_set env 1 then (false, tables_dict)
    else
      let marked := map_values mark_target_updating_estimate tables_dict in
      if call_from_thread_raises env
      then (false, map_values unmark_target_updating marked)
      else
        match tables_dict with
        | [] => (true, marked)
        | _ =>
            match target_stats env schema_name with
            | Some rows =>
                target_estimate_loop env schema_name (stats_map rows) 2
                  [] marked
            | None => target_estimate_failed_loop env 2 [] marked
            end
        end
  else
    target_exact_loop env schema_name 1 []
      (map_values mark_target_updating tables_dict).

(** ** The source side: [_update_single_schema_source] *)

Definition mark_source_updating (t : TableInfo) : TableInfo :=
  if negb (source_updating t) then set_source_updating true t else t.

Definition mark_source_updating_estimate (t : TableInfo) : TableInfo :=
  if negb (source_updating t)
  then set_source_rows 0 (set_source_updating true t)
  else t.

Definition unmark_source_updating (t : TableInfo) : TableInfo :=
  if source_updating t then set_source_updating false t else t.

(** Exact mode, the block under the lock once the counts are summed. *)
Definition apply_source_exact (current_time : datetime) (temp_source_rows : Z)
    (t : TableInfo) : TableInfo :=
  let t := set_source_rows temp_source_rows t in
  let t := set_source_last_updated current_time t in
  let t := set_source_updating false t in
  let t := set_source_is_estimated false t in
  if is_consistent t then set_pause_auto_refresh true t else t.

(** Estimate mode, the block under the lock. *)
Definition apply_source_estimate (current_time : datetime)
    (total_source_rows : Z) (t : TableInfo) : TableInfo :=
  let t := set_source_rows total_source_rows t in
  let t := set_source_last_updated current_time t in
  let t := set_source_updating false t in
  set_source_is_estimated true t.

(** The rows of the [UNION ALL] of the counts of [source_tables]; [None]
    when the statement raises, which it does as soon as one branch does. *)
Fixpoint union_all_rows (env : Env) (schema : pystr)
    (source_tables : list pystr) : option (list Z) :=
  match source_tables with
  | [] => Some []
  | source_table :: rest =>
      match source_count env schema source_table,
            union_all_rows env schema rest with
      | QRaise, _ => None
      | _, None => None
      | QNone, Some rows => Some rows
      | QRow n, Some rows => Some (Z.of_N n :: rows)
      end
  end.

(** [sum(row[0] for row in results)] *)
Definition sum_rows (rows : list Z) : Z := fold_left Z.add rows 0.

(** The [try] block of the exact mode for one record: a single query for
    one source table, the [UNION ALL] for several.  [None] when it raises. *)
Definition count_sources_batched (env : Env) (schema : pystr)
    (source_tables : list pystr) : option Z :=
  match source_tables with
  | [source_table] =>
      match source_count env schema source_table with
      | QRaise => None
      | QNone => Some 0
      | QRow n => Some (Z.of_N n)
      end
  | _ =>
      if source_union_rejected env schema source_tables then None
      else
        match union_all_rows env schema source_tables with
        | Some rows => Some (sum_rows rows)
        | None => None
        end
  end.

(** The [except] block of the exact mode for one record: table by table.
    [None] when the stop event is seen set. *)
Fixpoint count_sources_one_by_one (env : Env) (schema : pystr)
    (source_tables : list pystr) (k : nat) (temp_source_rows : Z)
  : option Z * nat :=
  match source_tables with
  | [] => (Some temp_source_rows, k)
  | source_table :: rest =>
      if stop_event_is_set env k then (None, S k)
      else
        match source_count env schema source_table with
        | QRow n =>
            count_sources_one_by_one env schema rest (S k)
              (temp_source_rows + Z.of_N n)
        | QNone | QRaise =>
            count_sources_one_by_one env schema rest (S k) temp_source_rows
        end
  end.

(** The loop of the exact mode. *)
Fixpoint source_exact_loop (env : Env) (schema : pystr) (k : nat)
    (done todo : dict TableInfo) : bool * dict TableInfo :=
  match todo with
  | [] => (true, done)
  | (target_table, table_info) :: rest =>
      if stop_event_is_set env k
      then (false, map_values (set_source_updating false) (done ++ todo))
      else
        match source_tables table_info with
        | [] =>
            source_exact_loop env schema (S k)
              (done ++ [(target_table,
                         apply_source_exact (now env) 0 table_info)])
              rest
        | _ =>
            match count_sources_batched env schema
                    (source_tables table_info) with
            | Some temp_source_rows =>
                source_exact_loop env schema (S k)
                  (done ++ [(target_table,
                             apply_source_exact (now env) temp_source_rows
                               table_info)])
                  rest
            | None =>
                match count_sources_one_by_one env schema
                        (source_tables table_info) (S k) 0 with
                | (Some temp_source_rows, k') =>
                    source_exact_loop env schema k'
                      (done ++ [(target_table,
                                 apply_source_exact (now env) temp_source_rows
                                   table_info)])
                      rest
                | (None, _) =>
                    (false,
                     map_values (set_source_updating false) (done ++ todo))
                end
            end
        end
  end.

(** Estimate mode: the sum for one record over the statistics [stats],
    with an exact count for a name the statistics do not hold. *)
Definition sum_source_estimates (env : Env) (schema : pystr) (stats : dict Z)
    (source_tables : list pystr) : Z :=
  fold_left
    (fun total_source_rows source_table =>
       match dict_get stats source_table with
       | Some c => total_source_rows + c
       | None =>
           match source_count env schema source_table with
           | QRow n => total_source_rows + Z.of_N n
           | QNone | QRaise => total_source_rows
           end
       end)
    source_tables 0.

(** Estimate mode after the batched statistics raised: one statistics
    query per source table; [if result and result[0]] adds a count that is
    neither NULL nor zero. *)
Definition sum_source_estimates_one_by_one (env : Env) (schema : pystr)
    (source_tables : list pystr) : Z :=
  fold_left
    (fun total_source_rows source_table =>
       match source_stats_one env schema source_table with
       | SRow (Some n) =>
           if n =? 0 then total_source_rows else total_source_rows + n
       | SRow None | SNone | SRaise => total_source_rows
       end)
    source_tables 0.

(** The two loops of the estimate mode share their shape: [total] is the
    sum computed for one record. *)
Fixpoint source_estimate_loop (env : Env) (total : list pystr -> Z)
    (k : nat) (done todo : dict TableInfo) : bool * dict TableInfo :=
  match todo with
  | [] => (true, done)
  | (target_table, table_info) :: rest =>
      if stop_event_is_set env k
      then (false,
            done ++ (target_table, set_source_updating false table_info)
                 :: rest)
      else
        source_estimate_loop env total (S k)
          (done ++ [(target_table,
                     apply_source_estimate (now env)
                       (total (source_tables table_info)) table_info)])
          rest
  end.

(** [list(set(all_source_tables))]; the order of a Python set is not
    specified, the servers' answers do not depend on it. *)
Definition unique_names (names : list pystr) : list pystr :=
  nodup (list_eq_dec ascii_dec) names.

(** The pass.  [table_source_map[name]] is the [source_tables] list of the
    record stored under [name]. *)
Definition _update_single_schema_source (env : Env) (schema_name : pystr)
    (tables_dict : dict TableInfo) (use_information_schema : bool)
  : bool * dict TableInfo :=
  if stop_event_is_set env 0 then (false, tables_dict)
  else if negb (connect_source env schema_name) then (false, tables_dict)
  else if use_information_schema then
    if stop_event_is_set env 1 then (false, tables_dict)
    else
      let marked := map_values mark_source_updating_estimate tables_dict in
      if call_from_thread_raises env
      then (false, map_values unmark_source_updating marked)
      else
        let all_source_tables := concat (map source_tables (values marked)) in
        let unique_source_tables := unique_names all_source_tables in
        match tables_dict, unique_source_tables with
        | [], _ | _, [] => (true, marked)
        | _, _ =>
            match source_stats_in env schema_name unique_source_tables with
            | Some rows =>
                source_estimate_loop env
                  (sum_source_estimates env schema_name (stats_map rows))
                  2 [] marked
            | None =>
                source_estimate_loop env
                  (sum_source_estimates_one_by_one env schema_name)
                  2 [] marked
            end
        end
  else
    source_exact_loop env schema_name 1 []
      (map_values mark_source_updating tables_dict).

(** ** The scheduler: [MonitorApp.refresh_data] and [action_refresh] *)

Record MonitorApp := mkMonitorApp {
  tables : list TableInfo;
  target_iteration : Z;
  source_iteration : Z;
  source_update_interval : Z;
  is_paused : bool;
  (** [stop_event.is_set()] *)
  stop_event : bool
}.

(** A task handed to [asyncio.create_task]: the schema and its records;
    the scheduler always passes [use_information_schema=False]. *)
Definition task : Type := pystr * dict TableInfo.

(** The loop of [refresh_data] that rebuilds [target_tables]. *)
Fixpoint build_target_tables (tables : list TableInfo)
    (target_tables : dict (dict TableInfo)) : dict (dict TableInfo) :=
  match tables with
  | [] => target_tables
  | table_info :: rest =>
      if is_consistent table_info && pause_auto_refresh table_info
      then build_target_tables rest target_tables
      else
        let schema := schema_name table_info in
        let target_tables :=
          if negb (dict_mem target_tables schema)
          then dict_set target_tables schema []
          else target_tables in
        let of_schema :=
          match dict_get target_tables schema with
          | Some d => d
          | None => []
          end in
        build_target_tables rest
          (dict_set target_tables schema
             (dict_set of_schema (target_table_name table_info) table_info))
  end.

(** [update_target_counts_async]: the tasks created, one for each schema
    none of whose records has [target_updating] set. *)
Definition update_target_counts_async (target_tables : dict (dict TableInfo))
  : list task :=
  filter (fun st => negb (existsb target_updating (values (snd st))))
         target_tables.

(** [update_source_counts_async] *)
Definition update_source_counts_async (target_tables : dict (dict TableInfo))
  : list task :=
  filter (fun st => negb (existsb source_updating (values (snd st))))
         target_tables.

(** What one run of [refresh_data] does: the application afterwards, the
    records it selected, the tasks it created on each side, and whether it
    ended by raising ([%] by a zero interval).  The history and the display
    are left out. *)
Record tick := mkTick {
  app_after : MonitorApp;
  selected : dict (dict TableInfo);
  target_tasks : list task;
  source_tasks : list task;
  raised : bool
}.

Definition with_iterations (target_it source_it : Z) (app : MonitorApp)
  : MonitorApp :=
  mkMonitorApp (tables app) target_it source_it (source_update_interval app)
               (is_paused app) (stop_event app).

Definition with_tables (ts : list TableInfo) (app : MonitorApp) : MonitorApp :=
  mkMonitorApp ts (target_iteration app) (source_iteration app)
               (source_update_interval app) (is_paused app) (stop_event app).

Definition refresh_data (app : MonitorApp) : tick :=
  if stop_event app || is_paused app then mkTick app [] [] [] false
  else
    let target_tables := build_target_tables (tables app) [] in
    match target_tables with
    | [] => mkTick app [] [] [] false
    | _ =>
        let target_it := target_iteration app + 1 in
        let launched_target := update_target_counts_async target_tables in
        if source_update_interval app =? 0
        then mkTick (with_iterations target_it (source_iteration app) app)
                    target_tables launched_target [] true
        else if target_it mod source_update_interval app =? 0
        then mkTick (with_iterations target_it (source_iteration app + 1) app)
                    target_tables launched_target
                    (update_source_counts_async target_tables) false
        else mkTick (with_iterations target_it (source_iteration app) app)
                    target_tables launched_target [] false
    end.

(** [action_refresh]: the flags are reset, then [refresh_data] is queued
    with [call_later]; it is run here at once. *)
Definition action_refresh (app : MonitorApp) : tick :=
  refresh_data
    (with_tables (map (set_pause_auto_refresh false) (tables app)) app).

(** The records of a nested dictionary, schema after schema. *)
Definition records (target_tables : dict (dict TableInfo)) : list TableInfo :=
  concat (map (fun st => values (snd st)) target_tables).

(** [start_monitoring]: the table list of the application is the list of
    the records of the initialization, schema after schema. *)
Definition initial_tables (current_time : datetime) (databases : list pystr)
    (listing : pystr -> option (list pystr) * list pystr) : list TableInfo :=
  records (initialize_tables_from_target current_time databases listing).

(** The records of the selected set. *)
Definition selected_records (t : tick) : list TableInfo :=
  records (selected t).

(** The records handed to the tasks of one side. *)
Definition task_records (ts : list task) : list TableInfo := records ts.

(** [cdc_monitor.py], [_update_single_schema_source_mysql]: the handler of
    the outermost [except], run for every record of the batch. *)
Definition cdc_unmark_source_updating (t : TableInfo) : TableInfo :=
  if source_updating t then set_target_updating false t else t.

(** ** Vocabulary of the statements *)

(** One record entering [target_tables]: the body of the loop of
    [build_target_tables] for a record that is not skipped. *)
Definition enter (table_info : TableInfo)
    (target_tables : dict (dict TableInfo)) : dict (dict TableInfo) :=
  let schema := schema_name table_info in
  let target_tables :=
    if negb (dict_mem target_tables schema)
    then dict_set target_tables schema []
    else target_tables in
  let of_schema :=
    match dict_get target_tables schema with
    | Some d => d
    | None => []
    end in
  dict_set target_tables schema
    (dict_set of_schema (target_table_name table_info) table_info).

(** The identity of a record. *)
Definition table_key (t : TableInfo) : pystr * pystr :=
  (schema_name t, target_table_name t).

Definition unique_keys (ts : list TableInfo) : Prop :=
  NoDup (map table_key ts).

(** A dictionary of one schema: keys are distinct, and every record is stored under its own schema and
    table name. *)
Definition keyed (schema : pystr) (d : dict TableInfo) : Prop :=
  NoDup (map fst d) /\
  forall k t, In (k, t) d -> table_key t = (schema, k).

(** [target_tables[schema][name]] when both keys are present. *)
Definition lookup2 (target_tables : dict (dict TableInfo))
    (schema name : pystr) : option TableInfo :=
  match dict_get target_tables schema with
  | Some d => dict_get d name
  | None => None
  end.

(** What one source table contributes: its count, 0 when the query for it
    fails or yields no row. *)
Definition contribution (env : Env) (schema source_table : pystr) : Z :=
  match source_count env schema source_table with
  | QRow n => Z.of_N n
  | QNone | QRaise => 0
  end.

(** The sum of the contributions of a record's source tables. *)
Fixpoint sum_of_counts (env : Env) (schema : pystr)
    (source_tables : list pystr) : Z :=
  match source_tables with
  | [] => 0
  | source_table :: rest =>
      contribution env schema source_table + sum_of_counts env schema rest
  end.

(** What the exact target pass does to one record it reaches. *)
Definition target_exact_step (env : Env) (schema : pystr)
    (kv : pystr * TableInfo) : pystr * TableInfo :=
  (fst kv,
   match target_count env schema (fst kv) with
   | QRow n => apply_target_exact (now env) (Z.of_N n) (snd kv)
   | QNone => apply_target_exact (now env) 0 (snd kv)
   | QRaise => apply_target_exact_failed (now env) (snd kv)
   end).

(** What the exact source pass does to one record it completes. *)
Definition source_exact_step (env : Env) (schema : pystr)
    (kv : pystr * TableInfo) : pystr * TableInfo :=
  (fst kv,
   apply_source_exact (now env)
     (sum_of_counts env schema (source_tables (snd kv))) (snd kv)).

(** The flag [pause_auto_refresh] of an entry of a batch. *)
Definition paused (kv : pystr * TableInfo) : bool :=
  pause_auto_refresh (snd kv).

(** A name without line feed. *)
Definition no_newline (s : pystr) : Prop := ~ In newline s.

(** [p] is a prefix of [s]. *)
Definition is_prefix (p s : pystr) : Prop := exists suffix, s = p ++ suffix.

(** The suffixes of the mapping rules: [_runtime]; [_] and 9 digits; [_],
    9 digits, [_] and 4 digits; a UUID after [_], its five groups joined by
    [_] (with an optional [_] and 4 digits) or by [-]; and the mixed form,
    [_] followed by text that is 32 hexadecimal digits once its [-] and [_]
    are removed. *)
Definition runtime_suffix (suf : pystr) : bool :=
  pystr_eqb suf "_runtime"%string.

Definition numeric_suffix (suf : pystr) : bool :=
  fullmatch (lit underscore :: digits 9) suf.

Definition shard_year_suffix (suf : pystr) : bool :=
  fullmatch pattern_shard_year suf.

Definition mixed_uuid_suffix (suf : pystr) : bool :=
  match suf with
  | c :: rest =>
      Ascii.eqb c underscore &&
      (length (remove_separators rest) =? 32)%nat &&
      forallb is_hex (remove_separators rest)
  | [] => false
  end.

Definition uuid_suffix (suf : pystr) : bool :=
  fullmatch pattern1 suf || fullmatch pattern2 suf || fullmatch pattern3 suf
  || mixed_uuid_suffix suf.

Definition rule_suffix (suf : pystr) : bool :=
  runtime_suffix suf || numeric_suffix suf || shard_year_suffix suf
  || uuid_suffix suf.

(** ** Sample data *)

Definition db : pystr := py "db".

Definition sample_table (schema name : string) (target source : Z)
    (sources : list pystr) (paused : bool) : TableInfo :=
  mkTableInfo schema name target source 0 0 sources 0 0 0
              false false false false false paused.

Definition sample_equal : TableInfo :=
  sample_table "db" "orders" 7 7 [] false.

Definition sample_error : TableInfo :=
  sample_table "db" "orders" (-1) 7 [] false.

Definition sample_orders : TableInfo :=
  sample_table "db" "orders" 5 5 [py "orders"] true.

Definition sample_users : TableInfo :=
  sample_table "db" "users" 5 3 [py "users"] true.

(** Two tables of one schema, the first iteration still to come, the source
    side polled every fifth iteration. *)
Definition sample_app : MonitorApp :=
  mkMonitorApp [sample_orders; sample_users] 0 0 5 false false.

(** The same application with the fifth iteration next, and with the
    monitor paused. *)
Definition sample_app_fifth : MonitorApp :=
  mkMonitorApp [sample_orders; sample_users] 4 0 5 false false.

Definition sample_app_paused : MonitorApp :=
  mkMonitorApp [sample_orders; sample_users] 0 0 5 true false.

(** The source listing of scenario A, with a table of its own. *)
Definition scenario_sources : list pystr :=
  [py "orders_123456789";
   py "orders_05355967-c503-4a2d-9dd1-2dd7a9ffa15e";
   py "users"].

Definition orders : pystr := py "orders".
Definition payments : pystr := py "payments".

Definition orders_shard : pystr := py "orders_123456789".

(** A name that carries the runtime suffix twice. *)
Definition twice_runtime : pystr := py "a_runtime_runtime".

(** A shard-and-year name that ends with a line feed. *)
Definition shard_year_line : pystr := py "a_123456789_2018" ++ [newline].

(** The source server of scenario A, with one source table that cannot be
    counted. *)
Definition scenario_source_counts (t : pystr) : query_result :=
  if pystr_eqb t "orders_123456789"%string then QRow 4
  else if pystr_eqb t "orders_05355967-c503-4a2d-9dd1-2dd7a9ffa15e"%string
       then QRow 6
       else QRaise.

Definition scenario_tables : dict TableInfo :=
  [(py "orders",
    sample_table "db" "orders" 10 0
      [py "orders_123456789";
       py "orders_05355967-c503-4a2d-9dd1-2dd7a9ffa15e";
       py "orders_gone"] false)].

(** One table whose two sides hold 5 and 3 rows. *)
Definition users_tables : dict TableInfo :=
  [(py "users", sample_table "db" "users" 5 3 [py "users"] false)].

(** An environment where nothing is stopped, both servers accept
    connections, and every count is given by [counts]. *)
Definition sample_env (source_counts target_counts : pystr -> query_result)
  : Env :=
  mkEnv 1000 (fun _ => false) (fun _ => true) (fun _ => true)
        (fun _ => source_counts) (fun _ => target_counts)
        (fun _ _ => false) (fun _ _ => None) (fun _ _ => SRaise)
        (fun _ => None) false.

Definition scenario_env : Env :=
  sample_env scenario_source_counts (fun _ => QRow 10).

(** The target server fails to count; the source holds 3 rows. *)
Definition failing_target_env : Env :=
  sample_env (fun _ => QRow 3) (fun _ => QRaise).

(** The stop event is set while the pass waits for the statistics: the
    tests at the entry see it unset, the tests of the loop see it set. *)
Definition stopping_env : Env :=
  mkEnv 1000 (fun k => (2 <=? k)%nat) (fun _ => true) (fun _ => true)
        (fun _ _ => QRow 5) (fun _ _ => QRow 5)
        (fun _ _ => false) (fun _ _ => Some []) (fun _ _ => SNone)
        (fun _ => Some []) false.

Definition two_tables : dict TableInfo :=
  [(py "orders", sample_table "db" "orders" 5 5 [py "orders"] false);
   (py "users", sample_table "db" "users" 5 3 [py "users"] false)].

(** Both servers count 5 rows. *)
Definition agreeing_env : Env :=
  sample_env (fun _ => QRow 5) (fun _ => QRow 5).

(** * The code around the passes *)

(** What the exact target pass stores for one table: its count, 0 when
    [fetchone()] yields no row, the error mark when the query raises. *)
Definition target_outcome (env : Env) (schema target_table : pystr) : Z :=
  match target_count env schema target_table with
  | QRow n => Z.of_N n
  | QNone => 0
  | QRaise => -1
  end.

(** The fields of a record that make up its identity, and those of either
    side. *)
Definition identity_view (kv : pystr * TableInfo)
  : pystr * pystr * pystr * list pystr * datetime :=
  (fst kv, schema_name (snd kv), target_table_name (snd kv),
   source_tables (snd kv), last_updated (snd kv)).

Definition target_view (kv : pystr * TableInfo)
  : Z * Z * datetime * bool * bool * bool :=
  (target_rows (snd kv), previous_target_rows (snd kv),
   target_last_updated (snd kv), target_updating (snd kv),
   target_is_estimated (snd kv), is_first_query (snd kv)).

Definition source_view (kv : pystr * TableInfo)
  : Z * Z * datetime * bool * bool :=
  (source_rows (snd kv), previous_source_rows (snd kv),
   source_last_updated (snd kv), source_updating (snd kv),
   source_is_estimated (snd kv)).

(** [n] calls of the mapping in a row. *)
Definition iterate_mapping (n : nat) (s : pystr) : pystr :=
  Nat.iter n get_target_table_name s.

(** ** Statistics and display *)

(** [len(l)] *)
Definition len {A} (l : list A) : Z := Z.of_nat (length l).

(** [t.target_rows != -1 and t.source_rows != -1] *)
Definition is_valid_table (t : TableInfo) : bool :=
  negb (target_rows t =? -1) && negb (source_rows t =? -1).

(** [t.target_rows == -1 or t.source_rows == -1] *)
Definition is_error_table (t : TableInfo) : bool :=
  (target_rows t =? -1) || (source_rows t =? -1).

(** [TableInfo.change] of [cdc_monitor.py] and [table_service.py] *)
Definition change (t : TableInfo) : Z :=
  if is_first_query t then 0 else target_rows t - previous_target_rows t.

(** The numbers that [StatsWidget.update_stats] of [app.py] computes and
    then renders. *)
Record stats := mkStats {
  stats_total_target_rows : Z;
  stats_total_source_rows : Z;
  stats_total_diff : Z;
  stats_consistent_count : Z;
  stats_inconsistent_count : Z;
  (** [len(error_tables)] *)
  stats_error_count : Z
}.

Definition update_stats (tables : list TableInfo) : stats :=
  let valid_tables := filter is_valid_table tables in
  let error_tables := filter is_error_table tables in
  let total_target_rows := sum_rows (map target_rows valid_tables) in
  let total_source_rows := sum_rows (map source_rows valid_tables) in
  let total_diff := total_target_rows - total_source_rows in
  let consistent_count := len (filter is_consistent tables) in
  let inconsistent_count := len tables - consistent_count in
  mkStats total_target_rows total_source_rows total_diff
          consistent_count inconsistent_count (len error_tables).

(** The dictionary returned by [MonitorService.get_total_stats], whose
    records carry the [is_consistent] of [table_service.py]. *)
Record total_stats := mkTotalStats {
  total_target_rows : Z;
  total_source_rows : Z;
  total_diff : Z;
  total_changes : Z;
  changed_count : Z;
  consistent_count : Z;
  inconsistent_count : Z;
  error_count : Z;
  total_tables : Z;
  valid_tables : Z
}.

Definition get_total_stats (tables : list TableInfo) : total_stats :=
  let valid_tables := filter is_valid_table tables in
  let error_tables := filter is_error_table tables in
  let total_target_rows := sum_rows (map target_rows valid_tables) in
  let total_source_rows := sum_rows (map source_rows valid_tables) in
  let total_diff := total_target_rows - total_source_rows in
  let total_changes := sum_rows (map change valid_tables) in
  let changed_count :=
    len (filter (fun t => negb (change t =? 0)) valid_tables) in
  let consistent_count :=
    len (filter (fun t => is_consistent_zero_case (target_rows t)
                                                  (source_rows t))
                tables) in
  let inconsistent_count := len tables - consistent_count in
  mkTotalStats total_target_rows total_source_rows total_diff total_changes
               changed_count consistent_count inconsistent_count
               (len error_tables) (len tables) (len valid_tables).

(** [MonitorApp.update_progress_data]: [history_data] after the call.
    [__init__] sets [max_history_points] to 20. *)
Definition history_point : Type := datetime * Z * Z * Z.

Definition update_progress_data (current_time : datetime)
    (max_history_points : Z) (history_data : list history_point)
    (tables : list TableInfo) : list history_point :=
  let valid_tables := filter is_valid_table tables in
  let total_target_rows := sum_rows (map target_rows valid_tables) in
  let total_source_rows := sum_rows (map source_rows valid_tables) in
  let history_data :=
    history_data ++
    [(current_time, total_target_rows, total_source_rows, 0)] in
  if max_history_points <? len history_data
  then tl history_data
  else history_data.

(** [MonitorApp._filter_tables] with [self.filter_mode] as an argument;
    [StatsService.filter_tables] is the same function. *)
Definition _filter_tables (filter_mode : pystr) (tables : list TableInfo)
  : list TableInfo :=
  if pystr_eqb filter_mode "inconsistent"%string
  then filter (fun t => negb (is_consistent t)) tables
  else if pystr_eqb filter_mode "consistent"%string
  then filter is_consistent tables
  else if pystr_eqb filter_mode "error"%string
  then filter is_error_table tables
  else tables.

(** [sorted(l, key=key, reverse=reverse)]: the sort is stable, also with
    [reverse=True].  [lt] is [<] on the keys.  [goes_before y x]: the
    order asked for puts [y] before [x] whatever their places were. *)
Definition goes_before {A K} (lt : K -> K -> bool) (key : A -> K)
    (reverse : bool) (y x : A) : bool :=
  if reverse then lt (key x) (key y) else lt (key y) (key x).

(** [x] stands in the input before every element of [l]. *)
Fixpoint insert_sorted {A K} (lt : K -> K -> bool) (key : A -> K)
    (reverse : bool) (x : A) (l : list A) : list A :=
  match l with
  | [] => [x]
  | y :: r =>
      if goes_before lt key reverse y x
      then y :: insert_sorted lt key reverse x r
      else x :: l
  end.

(** No element of the result stands before one that has to stand before
    it. *)
Definition in_order {A K} (lt : K -> K -> bool) (key : A -> K)
    (reverse : bool) (a b : A) : Prop :=
  goes_before lt key reverse b a = false.

Definition sorted {A K} (lt : K -> K -> bool) (key : A -> K)
    (reverse : bool) (l : list A) : list A :=
  fold_right (insert_sorted lt key reverse) [] l.

(** [<] on [str]: by code points, a proper prefix first. *)
Fixpoint pystr_ltb (a b : pystr) : bool :=
  match a, b with
  | _, [] => false
  | [], _ :: _ => true
  | x :: a', y :: b' =>
      (nat_of_ascii x <? nat_of_ascii y)%nat ||
      ((nat_of_ascii x =? nat_of_ascii y)%nat && pystr_ltb a' b')
  end.

(** [<] on pairs of [str] *)
Definition pair_ltb (a b : pystr * pystr) : bool :=
  pystr_ltb (fst a) (fst b) ||
  (pystr_eqb (fst a) (fst b) && pystr_ltb (snd a) (snd b)).

(** The keys of [_sort_tables]. *)
Definition data_diff_key (t : TableInfo) : Z :=
  if negb (data_diff t =? 0) then Z.abs (data_diff t) else -1.

Definition target_rows_key (t : TableInfo) : Z :=
  if negb (target_rows t =? -1) then target_rows t else -1.

Definition source_rows_key (t : TableInfo) : Z :=
  if negb (source_rows t =? -1) then source_rows t else -1.

(** [MonitorApp._sort_tables] with [self.sort_by] as an argument;
    [StatsService.sort_tables] is the same function. *)
Definition _sort_tables (sort_by : pystr) (tables : list TableInfo)
  : list TableInfo :=
  if pystr_eqb sort_by "data_diff"%string
  then sorted Z.ltb data_diff_key true tables
  else if pystr_eqb sort_by "target_rows"%string
  then sorted Z.ltb target_rows_key true tables
  else if pystr_eqb sort_by "source_rows"%string
  then sorted Z.ltb source_rows_key true tables
  else sorted pair_ltb table_key false tables.






Definition set_previous_source_rows (v : Z) (t : TableInfo) : TableInfo :=
  mkTableInfo (schema_name t) (target_table_name t) (target_rows t)
    (source_rows t) (previous_target_rows t) v (source_tables t)
    (last_updated t) (source_last_updated t) (target_last_updated t)
    (is_first_query t) (source_updating t) (target_updating t)
    (target_is_estimated t) (source_is_estimated t) (pause_auto_refresh t).

Definition set_last_updated (v : datetime) (t : TableInfo) : TableInfo :=
  mkTableInfo (schema_name t) (target_table_name t) (target_rows t)
    (source_rows t) (previous_target_rows t) (previous_source_rows t)
    (source_tables t) v (source_last_updated t) (target_last_updated t)
    (is_first_query t) (source_updating t) (target_updating t)
    (target_is_estimated t) (source_is_estimated t) (pause_auto_refresh t).

(** ** The repository: [data_access/mysql_repository.py]

    One server as a [MySQLRepository] reaches it. *)

Record MySQLRepository := mkMySQLRepository {
  (** [connect] returns a connection *)
  repo_connect : pystr -> bool;
  (** [SELECT COUNT( * ) FROM schema.table] *)
  repo_count : pystr -> pystr -> query_result;
  (** the statistics of all tables of a schema, [None] when the query
      raises *)
  repo_stats : pystr -> option (list stats_row);
  (** [conn.close()] raises *)
  repo_close_raises : bool
}.

(** [MySQLRepository.get_table_rows_count] *)
Definition get_table_rows_count (repo : MySQLRepository)
    (schema_name table_name : pystr) : Z :=
  match repo_count repo schema_name table_name with
  | QRow n => Z.of_N n
  | QNone => 0
  | QRaise => -1
  end.

(** [MySQLRepository.get_schema_stats_from_information_schema] *)
Definition get_schema_stats_from_information_schema (repo : MySQLRepository)
    (schema_name : pystr) : dict Z :=
  match repo_stats repo schema_name with
  | Some rows => stats_map rows
  | None => []
  end.

(** [{name: value(name) for name in names}], and the loops that assign
    [result[name] = value(name)] for each name in turn. *)
Definition dict_of_names {V} (value : pystr -> V) (names : list pystr)
  : dict V :=
  fold_left (fun result name => dict_set result name (value name)) names [].

(** [MySQLRepository.update_single_schema_table_counts]; [None] when the
    call ends with the exception of [conn.close()]. *)
Definition update_single_schema_table_counts (repo : MySQLRepository)
    (schema_name : pystr) (table_names : list pystr) (use_estimation : bool)
  : option (dict Z) :=
  if negb (repo_connect repo schema_name)
  then Some (dict_of_names (fun _ => -1) table_names)
  else
    let result :=
      if use_estimation then
        let stats_map :=
          get_schema_stats_from_information_schema repo schema_name in
        dict_of_names
          (fun table_name =>
             match dict_get stats_map table_name with
             | Some c => c
             | None => -1
             end)
          table_names
      else
        dict_of_names (get_table_rows_count repo schema_name) table_names in
    if repo_close_raises repo then None else Some result.

(** ** The table service: [data_access/table_service.py]

    Its [TableInfo] has the fields of the record above but [source_tables]
    and [pause_auto_refresh], which stay as they are here. *)

Definition roll_previous_source (baseline : Z) (t : TableInfo) : TableInfo :=
  if negb (is_first_query t)
  then set_previous_source_rows (source_rows t) t
  else set_is_first_query false (set_previous_source_rows baseline t).

(** The body of the loop over [count_results.items()], target side. *)
Definition store_target_count (current_time : datetime)
    (use_estimation : bool) (count : Z) (t : TableInfo) : TableInfo :=
  let t := roll_previous_target count t in
  let t := set_target_rows count t in
  let t := set_last_updated current_time t in
  set_target_is_estimated use_estimation t.

(** The same, source side. *)
Definition store_source_count (current_time : datetime)
    (use_estimation : bool) (count : Z) (t : TableInfo) : TableInfo :=
  let t := roll_previous_source count t in
  let t := set_source_rows count t in
  let t := set_source_last_updated current_time t in
  set_source_is_estimated use_estimation t.

(** [for table_name, count in count_results.items():
       if table_name in tables_dict: ...] *)
Definition store_counts (store : Z -> TableInfo -> TableInfo)
    (count_results : dict Z) (tables_dict : dict TableInfo)
  : dict TableInfo :=
  fold_left
    (fun tables_dict item =>
       match dict_get tables_dict (fst item) with
       | Some table_info =>
           dict_set tables_dict (fst item) (store (snd item) table_info)
       | None => tables_dict
       end)
    count_results tables_dict.

(** [TableDataService.update_target_schema_tables]: the returned flag and
    the records afterwards.  [current_time] is the clock once the counts
    have come back. *)
Definition update_target_schema_tables (repo : MySQLRepository)
    (current_time : datetime) (schema_name : pystr)
    (tables_dict : dict TableInfo) (use_estimation : bool)
  : bool * dict TableInfo :=
  let table_names := map fst tables_dict in
  match table_names with
  | [] => (true, tables_dict)
  | _ =>
      let tables_dict := map_values (set_target_updating true) tables_dict in
      match update_single_schema_table_counts repo schema_name table_names
              use_estimation with
      | Some count_results =>
          (true,
           map_values (set_target_updating false)
             (store_counts (store_target_count current_time use_estimation)
                count_results tables_dict))
      | None => (false, map_values (set_target_updating false) tables_dict)
      end
  end.

(** [TableDataService.update_source_schema_tables] *)
Definition update_source_schema_tables (repo : MySQLRepository)
    (current_time : datetime) (schema_name : pystr)
    (tables_dict : dict TableInfo) (use_estimation : bool)
  : bool * dict TableInfo :=
  let table_names := map fst tables_dict in
  match table_names with
  | [] => (true, tables_dict)
  | _ =>
      let tables_dict := map_values (set_source_updating true) tables_dict in
      match update_single_schema_table_counts repo schema_name table_names
              use_estimation with
      | Some count_results =>
          (true,
           map_values (set_source_updating false)
             (store_counts (store_source_count current_time use_estimation)
                count_results tables_dict))
      | None => (false, map_values (set_source_updating false) tables_dict)
      end
  end.

(** What a repository answers for one table. *)
Definition repo_outcome (repo : MySQLRepository) (schema_name : pystr)
    (use_estimation : bool) (table_name : pystr) : Z :=
  if negb (repo_connect repo schema_name) then -1
  else if use_estimation then
    match dict_get (get_schema_stats_from_information_schema repo schema_name)
                   table_name with
    | Some c => c
    | None => -1
    end
  else get_table_rows_count repo schema_name table_name.

(** A server with the statistics [rows], on which the count of every
    table raises. *)
Definition sample_repository (rows : list stats_row) : MySQLRepository :=
  mkMySQLRepository (fun _ => true) (fun _ _ => QRaise) (fun _ => Some rows)
                    false.

(** A server that holds 8 rows in every table. *)
Definition counting_repository : MySQLRepository :=
  mkMySQLRepository (fun _ => true) (fun _ _ => QRow 8) (fun _ => None)
                    false.

(** ** The passes of [cdc_monitor.py]

    Its [TableInfo] has neither [source_tables] nor [pause_auto_refresh];
    a record stands for the table of its own name on either server.
    Closing the connection is taken not to raise. *)

(** The block under the lock for one table of
    [_update_single_schema_target_mysql]; a count that raised is stored as
    [-1] by the same assignments. *)
Definition cdc_apply_target (current_time : datetime) (new_count : Z)
    (t : TableInfo) : TableInfo :=
  let t := roll_previous_target new_count t in
  let t := set_target_rows new_count t in
  let t := set_target_last_updated current_time t in
  let t := set_target_updating false t in
  set_target_is_estimated false t.

(** The loop of [_update_single_schema_target_mysql].  The connection
    comes from [connect_source_mysql], so the counts are those of the
    source server. *)
Fixpoint cdc_target_loop (env : Env) (schema : pystr) (k : nat)
    (done todo : dict TableInfo) : bool * dict TableInfo :=
  match todo with
  | [] => (true, done)
  | (target_table_name, table_info) :: rest =>
      if stop_event_is_set env k
      then (false, map_values (set_target_updating false) (done ++ todo))
      else
        let new_count :=
          match source_count env schema target_table_name with
          | QRow n => Z.of_N n
          | QNone => 0
          | QRaise => -1
          end in
        cdc_target_loop env schema (S k)
          (done ++ [(target_table_name,
                     cdc_apply_target (now env) new_count table_info)])
          rest
  end.

(** [_update_single_schema_target_mysql] *)
Definition _update_single_schema_target_mysql (env : Env)
    (schema_name : pystr) (tables_dict : dict TableInfo)
  : bool * dict TableInfo :=
  if stop_event_is_set env 0 then (false, tables_dict)
  else if negb (connect_source env schema_name) then (false, tables_dict)
  else
    cdc_target_loop env schema_name 1 []
      (map_values mark_target_updating tables_dict).

(** Exact mode of [_update_single_schema_source_mysql], the block under
    the lock that ends the body of the loop. *)
Definition cdc_apply_source_exact (current_time : datetime)
    (temp_mysql_rows : Z) (t : TableInfo) : TableInfo :=
  let t := set_source_rows temp_mysql_rows t in
  let t := set_source_last_updated current_time t in
  let t := set_source_updating false t in
  set_source_is_estimated false t.

(** The loop of the exact mode.  The stop event is tested twice for each
    record; the statements that count the rows stand after the [return] of
    the second test, inside its [if], and are never run:
    [temp_mysql_rows] is still 0 when it is stored. *)
Fixpoint cdc_source_exact_loop (env : Env) (k : nat)
    (done todo : dict TableInfo) : bool * dict TableInfo :=
  match todo with
  | [] => (true, done)
  | (name, table_info) :: rest =>
      if stop_event_is_set env k
      then (false, map_values (set_source_updating false) (done ++ todo))
      else if stop_event_is_set env (S k)
      then (false, map_values (set_source_updating false) (done ++ todo))
      else
        let temp_mysql_rows := 0 in
        cdc_source_exact_loop env (S (S k))
          (done ++ [(name,
                     cdc_apply_source_exact (now env) temp_mysql_rows
                       table_info)])
          rest
  end.

(** [table_rows or 0] *)
Definition cdc_row_estimate (table_rows : option Z) : Z :=
  match table_rows with Some n => n | None => 0 end.

(** [table_rows_map], and [table_name] as the loop over the rows leaves
    it: the name of the last row, unbound when there was no row. *)
Definition cdc_table_rows_map (rows : list stats_row) : dict Z :=
  fold_left (fun m row => dict_set m (fst row) (cdc_row_estimate (snd row)))
            rows [].

Definition cdc_last_table_name (rows : list stats_row) : option pystr :=
  match rev rows with
  | [] => None
  | row :: _ => Some (fst row)
  end.

(** Estimate mode, the block under the lock for a record that is not in
    flight; it reads [table_name], not the name of the record. *)
Definition cdc_apply_source_estimate (current_time : datetime)
    (table_rows_map : dict Z) (table_name : pystr) (t : TableInfo)
  : TableInfo :=
  let t := set_source_updating true t in
  let t := set_source_rows 0 t in
  let t :=
    match dict_get table_rows_map table_name with
    | Some c => set_source_rows c t
    | None => t
    end in
  let t := set_source_last_updated current_time t in
  let t := set_source_updating false t in
  set_source_is_estimated true t.

(** The loop of the estimate mode.  With [table_name] unbound the block
    raises after its first two assignments, and the handler of the
    outermost [except] runs. *)
Fixpoint cdc_source_estimate_loop (env : Env) (table_rows_map : dict Z)
    (table_name : option pystr) (k : nat) (done todo : dict TableInfo)
  : bool * dict TableInfo :=
  match todo with
  | [] => (true, done)
  | (name, table_info) :: rest =>
      if stop_event_is_set env k then (false, done ++ todo)
      else if source_updating table_info
      then cdc_source_estimate_loop env table_rows_map table_name (S k)
             (done ++ [(name, table_info)]) rest
      else
        match table_name with
        | Some table_name' =>
            cdc_source_estimate_loop env table_rows_map table_name (S k)
              (done ++ [(name,
                         cdc_apply_source_estimate (now env) table_rows_map
                           table_name' table_info)])
              rest
        | None =>
            (false,
             map_values cdc_unmark_source_updating
               (done ++
                (name, set_source_rows 0 (set_source_updating true table_info))
                :: rest))
        end
  end.

(** [_update_single_schema_source_mysql]; [statistics] is the answer to
    the statistics query of the estimate mode, [None] when it raises. *)
Definition _update_single_schema_source_mysql (env : Env)
    (statistics : option (list stats_row)) (schema_name : pystr)
    (tables_dict : dict TableInfo) (use_information_schema : bool)
  : bool * dict TableInfo :=
  if stop_event_is_set env 0 then (false, tables_dict)
  else if negb (connect_source env schema_name) then (false, tables_dict)
  else if use_information_schema then
    if stop_event_is_set env 1 then (false, tables_dict)
    else
      match statistics with
      | None => (false, map_values cdc_unmark_source_updating tables_dict)
      | Some rows =>
          cdc_source_estimate_loop env (cdc_table_rows_map rows)
            (cdc_last_table_name rows) 2 [] tables_dict
      end
  else
    cdc_source_exact_loop env 1 []
      (map_values mark_source_updating tables_dict).

(** What the source server answers when asked to count a table. *)
Definition source_outcome (env : Env) (schema table : pystr) : Z :=
  match source_count env schema table with
  | QRow n => Z.of_N n
  | QNone => 0
  | QRaise => -1
  end.

(** The statistics of a schema with the two tables of [two_tables]. *)
Definition sample_statistics : list stats_row :=
  [(orders, Some 70); (py "users", Some 3)].

(** What the target pass of [cdc_monitor.py] does to one record it
    reaches. *)
Definition cdc_target_step (env : Env) (schema : pystr)
    (kv : pystr * TableInfo) : pystr * TableInfo :=
  (fst kv,
   cdc_apply_target (now env) (source_outcome env schema (fst kv)) (snd kv)).

(** What the exact source pass of [cdc_monitor.py] does to one record it
    completes. *)
Definition cdc_source_exact_step (env : Env) (kv : pystr * TableInfo)
  : pystr * TableInfo :=
  (fst kv, cdc_apply_source_exact (now env) 0 (snd kv)).

(** What the estimate source pass of [cdc_monitor.py] does to one record
    it reaches, with [table_name] bound. *)
Definition cdc_source_estimate_step (env : Env) (table_rows_map : dict Z)
    (table_name : pystr) (kv : pystr * TableInfo) : pystr * TableInfo :=
  if source_updating (snd kv) then kv
  else (fst kv,
        cdc_apply_source_estimate (now env) table_rows_map table_name
          (snd kv)).

(** The estimate of the last row of the statistics. *)
Definition cdc_last_estimate (rows : list stats_row) : Z :=
  match rev rows with
  | [] => 0
  | row :: _ => cdc_row_estimate (snd row)
  end.

(** ** The first counts of [start_monitoring]

    [get_target_rows_from_information_schema] and
    [get_source_rows_from_information_schema] work on one connection for
    all schemas; [closed k] is what the [k]-th test of [conn.closed]
    sees. *)

(** The assignments to one record in
    [get_target_rows_from_information_schema]. *)
Definition apply_target_startup (current_time : datetime) (new_count : Z)
    (t : TableInfo) : TableInfo :=
  let t := roll_previous_target new_count t in
  let t := set_target_rows new_count t in
  let t := set_target_last_updated current_time t in
  let t := set_target_is_estimated true t in
  set_target_updating false t.

(** The loop over the records of one schema: the records afterwards and
    the number of tests of [conn.closed] so far. *)
Fixpoint startup_target_tables (env : Env) (closed : nat -> bool)
    (schema : pystr) (target_stats_map : dict Z) (k : nat)
    (done todo : dict TableInfo) : dict TableInfo * nat :=
  match todo with
  | [] => (done, k)
  | (target_table_name, table_info) :: rest =>
      match dict_get target_stats_map target_table_name with
      | Some new_count =>
          startup_target_tables env closed schema target_stats_map k
            (done ++ [(target_table_name,
                       apply_target_startup (now env) new_count table_info)])
            rest
      | None =>
          if closed k
          then startup_target_tables env closed schema target_stats_map (S k)
                 (done ++ [(target_table_name, table_info)]) rest
          else
            let new_count :=
              match target_count env schema target_table_name with
              | QRow n => Z.of_N n
              | QNone => 0
              | QRaise => -1
              end in
            startup_target_tables env closed schema target_stats_map (S k)
              (done ++ [(target_table_name,
                         apply_target_startup (now env) new_count
                           table_info)])
              rest
      end
  end.

(** The loop over the schemas.  A statistics query that raises is passed
    over. *)
Fixpoint get_target_rows_loop (env : Env) (closed : nat -> bool) (k : nat)
    (done todo : dict (dict TableInfo)) : dict (dict TableInfo) :=
  match todo with
  | [] => done
  | (schema_name, tables_dict) :: rest =>
      if closed k then done ++ todo
      else
        match target_stats env schema_name with
        | None =>
            get_target_rows_loop env closed (S k)
              (done ++ [(schema_name, tables_dict)]) rest
        | Some rows =>
            let (tables_dict, k') :=
              startup_target_tables env closed schema_name (stats_map rows)
                (S k) [] tables_dict in
            get_target_rows_loop env closed k'
              (done ++ [(schema_name, tables_dict)]) rest
        end
  end.

(** [get_target_rows_from_information_schema]: [target_tables]
    afterwards. *)
Definition get_target_rows_from_information_schema (env : Env)
    (closed : nat -> bool) (target_tables : dict (dict TableInfo))
  : dict (dict TableInfo) :=
  get_target_rows_loop env closed 0 [] target_tables.

(** [total_source_rows] of one record: the estimates of the source tables
    that the statistics list. *)
Definition startup_source_total (source_stats_map : dict Z)
    (source_tables : list pystr) : Z :=
  fold_left
    (fun total_source_rows source_table_name =>
       match dict_get source_stats_map source_table_name with
       | Some c => total_source_rows + c
       | None => total_source_rows
       end)
    source_tables 0.

(** The assignments to one record in
    [get_source_rows_from_information_schema]. *)
Definition apply_source_startup (current_time : datetime)
    (total_source_rows : Z) (t : TableInfo) : TableInfo :=
  let t := roll_previous_source total_source_rows t in
  let t := set_source_rows total_source_rows t in
  let t := set_source_last_updated current_time t in
  set_source_is_estimated true t.

(** The loop over the schemas.  When the statistics query raises and the
    connection is open, the handler calls [update_source_counts] with one
    argument too many: the call raises [TypeError], which ends the
    function. *)
Fixpoint get_source_rows_loop (env : Env) (closed : nat -> bool) (k : nat)
    (done todo : dict (dict TableInfo)) : dict (dict TableInfo) :=
  match todo with
  | [] => done
  | (schema_name, tables_dict) :: rest =>
      if closed k then done ++ todo
      else
        let all_source_tables :=
          unique_names (concat (map source_tables (values tables_dict))) in
        match all_source_tables with
        | [] =>
            get_source_rows_loop env closed (S k)
              (done ++ [(schema_name, tables_dict)]) rest
        | _ =>
            match source_stats_in env schema_name all_source_tables with
            | Some rows =>
                get_source_rows_loop env closed (S k)
                  (done ++
                   [(schema_name,
                     map_values
                       (fun table_info =>
                          apply_source_startup (now env)
                            (startup_source_total (stats_map rows)
                               (source_tables table_info))
                            table_info)
                       tables_dict)])
                  rest
            | None =>
                if closed (S k)
                then get_source_rows_loop env closed (S (S k))
                       (done ++ [(schema_name, tables_dict)]) rest
                else done ++ todo
            end
        end
  end.

(** [get_source_rows_from_information_schema]: [target_tables]
    afterwards. *)
Definition get_source_rows_from_information_schema (env : Env)
    (closed : nat -> bool) (target_tables : dict (dict TableInfo))
  : dict (dict TableInfo) :=
  get_source_rows_loop env closed 0 [] target_tables.

(** The first counts of [start_monitoring], on the records of the
    initialization, and the application as the first tick finds it. *)
Definition first_counts (env : Env) (target_closed source_closed : nat -> bool)
    (target_tables : dict (dict TableInfo)) : dict (dict TableInfo) :=
  get_source_rows_from_information_schema env source_closed
    (get_target_rows_from_information_schema env target_closed target_tables).

Definition start_monitoring (env : Env)
    (target_closed source_closed : nat -> bool) (databases : list pystr)
    (listing : pystr -> option (list pystr) * list pystr)
    (source_update_interval : Z) : MonitorApp :=
  mkMonitorApp
    (records
       (first_counts env target_closed source_closed
          (initialize_tables_from_target (now env) databases listing)))
    0 0 source_update_interval false false.

(** What the first target count stores for a table when the connection
    stays open: its estimate, or its count when the statistics do not list
    it. *)
Definition startup_target_outcome (env : Env) (schema : pystr)
    (rows : list stats_row) (target_table : pystr) : Z :=
  match dict_get (stats_map rows) target_table with
  | Some c => c
  | None => target_outcome env schema target_table
  end.

(** The fields the first counts leave alone. *)
Definition kept_view (kv : pystr * TableInfo)
  : pystr * pystr * pystr * list pystr * bool :=
  (fst kv, schema_name (snd kv), target_table_name (snd kv),
   source_tables (snd kv), pause_auto_refresh (snd kv)).

Definition nested_view {A} (view : pystr * TableInfo -> A)
    (target_tables : dict (dict TableInfo)) : list (pystr * list A) :=
  map (fun st => (fst st, map view (snd st))) target_tables.

(** The statistics query of the first source count fails for a schema. *)
Definition source_statistics_fail (env : Env)
    (st : pystr * dict TableInfo) : bool :=
  match unique_names (concat (map source_tables (values (snd st)))) with
  | [] => false
  | names =>
      match source_stats_in env (fst st) names with
      | Some _ => false
      | None => true
      end
  end.

(** A connection that stays open. *)
Definition stays_open : nat -> bool := fun _ => false.

(** The listing of a schema with the sources of scenario A. *)
Definition scenario_listing (schema : pystr)
  : option (list pystr) * list pystr :=
  (Some [orders; payments], scenario_sources).

(** What the first target count does to one record when the connection
    stays open. *)
Definition startup_target_step (env : Env) (schema : pystr)
    (rows : list stats_row) (kv : pystr * TableInfo) : pystr * TableInfo :=
  (fst kv,
   apply_target_startup (now env)
     (startup_target_outcome env schema rows (fst kv)) (snd kv)).

(** What it does to the records of one schema. *)
Definition startup_target_schema (env : Env) (st : pystr * dict TableInfo)
  : pystr * dict TableInfo :=
  match target_stats env (fst st) with
  | Some rows => (fst st, map (startup_target_step env (fst st) rows) (snd st))
  | None => st
  end.

(** What the first source count does to the records of one schema whose
    statistics query does not fail. *)
Definition startup_source_schema (env : Env) (st : pystr * dict TableInfo)
  : pystr * dict TableInfo :=
  match unique_names (concat (map source_tables (values (snd st)))) with
  | [] => st
  | names =>
      match source_stats_in env (fst st) names with
      | Some rows =>
          (fst st,
           map_values
             (fun table_info =>
                apply_source_startup (now env)
                  (startup_source_total (stats_map rows)
                     (source_tables table_info))
                  table_info)
             (snd st))
      | None => st
      end
  end.

(** The application of scenario A after [start_monitoring]. *)
Definition sample_start : MonitorApp :=
  start_monitoring scenario_env stays_open stays_open [db] scenario_listing 5.

(** Statistics of the target that list [orders] only; the count of any
    table raises. *)
Definition startup_env : Env :=
  mkEnv 1000 (fun _ => false) (fun _ => true) (fun _ => true)
        (fun _ _ => QRaise) (fun _ _ => QRaise)
        (fun _ _ => false) (fun _ _ => None) (fun _ _ => SRaise)
        (fun _ => Some [(orders, Some 70)]) false.

(** * Properties *)

(** ** Strings and dictionaries *)

Lemma pystr_eqb_eq (a b : pystr) : pystr_eqb a b = true <-> a = b.
Proof.
  unfold pystr_eqb. destruct (list_eq_dec ascii_dec a b); split; congruence.
Qed.

Lemma pystr_eqb_refl (a : pystr) : pystr_eqb a a = true.
Proof. now apply pystr_eqb_eq. Qed.

Lemma pystr_eqb_neq (a b : pystr) : pystr_eqb a b = false <-> a <> b.
Proof.
  unfold pystr_eqb. destruct (list_eq_dec ascii_dec a b); split; congruence.
Qed.

Lemma pystr_eqb_sym (a b : pystr) : pystr_eqb a b = pystr_eqb b a.
Proof.
  destruct (pystr_eqb b a) eqn:E.
  - apply pystr_eqb_eq in E. subst. apply pystr_eqb_refl.
  - apply pystr_eqb_neq in E. apply pystr_eqb_neq. congruence.
Qed.

Section Dict.
Context {V : Type}.
Implicit Types (d : dict V) (k : pystr) (v : V).

Lemma dict_get_set_same d k v : dict_get (dict_set d k v) k = Some v.
Proof.
  induction d as [|[k' v'] d IH]; cbn.
  - now rewrite pystr_eqb_refl.
  - destruct (pystr_eqb k' k) eqn:E; cbn; rewrite E; auto.
Qed.

Lemma dict_get_set_other d k k' v :
  k <> k' -> dict_get (dict_set d k v) k' = dict_get d k'.
Proof.
  intros Hne. induction d as [|[k0 v0] d IH]; cbn.
  - apply pystr_eqb_neq in Hne. now rewrite Hne.
  - destruct (pystr_eqb k0 k) eqn:E; cbn.
    + apply pystr_eqb_eq in E. subst k0.
      apply pystr_eqb_neq in Hne. now rewrite Hne.
    + destruct (pystr_eqb k0 k'); auto.
Qed.

Lemma dict_get_In d k v : dict_get d k = Some v -> In v (values d).
Proof.
  induction d as [|[k' v'] d IH]; cbn; [discriminate|].
  destruct (pystr_eqb k' k); intros H.
  - left. congruence.
  - right. auto.
Qed.

Lemma dict_get_In_pair d k v : dict_get d k = Some v -> In (k, v) d.
Proof.
  induction d as [|[k' v'] d IH]; cbn; [discriminate|].
  destruct (pystr_eqb k' k) eqn:E; intros H.
  - left. apply pystr_eqb_eq in E. congruence.
  - right. auto.
Qed.

Lemma values_dict_set_In d k v x :
  In x (values (dict_set d k v)) -> x = v \/ In x (values d).
Proof.
  induction d as [|[k' v'] d IH]; cbn.
  - intros [H|[]]. now left.
  - destruct (pystr_eqb k' k); cbn.
    + intros [H|H]; [now left | right; now right].
    + intros [H|H]; [right; now left|].
      destruct (IH H); [now left | right; now right].
Qed.
End Dict.

(** ** Derived fields *)

(** C1: when neither count is the error mark -1, [data_diff] is 0 exactly
    when [is_consistent] holds; when either count is -1, [data_diff] is 0. *)
Theorem data_diff_zero_iff_consistent (t : TableInfo) :
  (target_rows t <> -1 -> source_rows t <> -1 ->
     (data_diff t = 0 <-> is_consistent t = true)) /\
  (target_rows t = -1 \/ source_rows t = -1 -> data_diff t = 0).
Proof.
  unfold data_diff, is_consistent. split.
  - intros Ht Hs.
    destruct (Z.eqb_spec (target_rows t) (-1)); [contradiction|].
    destruct (Z.eqb_spec (source_rows t) (-1)); [contradiction|].
    cbn. rewrite Z.eqb_eq. lia.
  - intros [H|H]; rewrite H; cbn; [reflexivity|].
    now rewrite orb_true_r.
Qed.

Lemma data_diff_zero_iff_consistent_witness :
  (data_diff sample_equal = 0 <-> is_consistent sample_equal = true) /\
  data_diff sample_error = 0.
Proof.
  split.
  - apply (data_diff_zero_iff_consistent sample_equal); cbn; lia.
  - apply (data_diff_zero_iff_consistent sample_error).
    left. reflexivity.
Defined.

Lemma zero_case_is_plain (target source : Z) :
  is_consistent_zero_case target source = is_consistent_plain target source.
Proof.
  unfold is_consistent_zero_case, is_consistent_plain.
  destruct (Z.eqb_spec target 0) as [->|]; cbn; [|reflexivity].
  destruct (Z.eqb_spec source 0) as [->|]; reflexivity.
Qed.

(** C9, as amended: the two [is_consistent] variants are the same function
    of the two counts; the case [0 == 0] of the second variant is already
    an equality. *)
Theorem is_consistent_variants_agree :
  forall target source : Z,
    is_consistent_zero_case target source = is_consistent_plain target source.
Proof. exact zero_case_is_plain. Qed.

(** C9, as stated, fails: no pair of counts tells the variants apart. *)
Lemma is_consistent_variants_never_differ :
  ~ (exists target source : Z,
       is_consistent_plain target source <>
       is_consistent_zero_case target source).
Proof.
  intros (target & source & H). apply H. symmetry. apply zero_case_is_plain.
Qed.

(** ** The identity of the records of the initialization *)

Lemma dict_set_keys {V} (d : dict V) k v x :
  In x (map fst (dict_set d k v)) <-> x = k \/ In x (map fst d).
Proof.
  induction d as [|[k' v'] d IH]; cbn.
  - intuition congruence.
  - destruct (pystr_eqb k' k) eqn:E; cbn.
    + apply pystr_eqb_eq in E. subst. intuition congruence.
    + rewrite IH. intuition congruence.
Qed.

Lemma dict_set_NoDup {V} (d : dict V) k v :
  NoDup (map fst d) -> NoDup (map fst (dict_set d k v)).
Proof.
  induction d as [|[k' v'] d IH]; cbn; intros H.
  - constructor; [intros []|constructor].
  - destruct (pystr_eqb k' k) eqn:E; cbn; [exact H|].
    inversion H as [|? ? Hn Hd]. subst. constructor; [|now apply IH].
    rewrite dict_set_keys. intros [->|Hin]; [|contradiction].
    now rewrite pystr_eqb_refl in E.
Qed.

Lemma dict_set_entries {V} (d : dict V) k v k0 v0 :
  In (k0, v0) (dict_set d k v) -> (k0 = k /\ v0 = v) \/ In (k0, v0) d.
Proof.
  induction d as [|[k' v'] d IH]; cbn.
  - intros [[= <- <-]|[]]. now left.
  - destruct (pystr_eqb k' k) eqn:E; cbn.
    + apply pystr_eqb_eq in E. subst k'.
      intros [[= <- <-]|H]; [now left|right; now right].
    + intros [H|H]; [right; now left|].
      destruct (IH H); [now left|right; now right].
Qed.

Lemma initialize_schema_keyed now schema tnames srcs :
  keyed schema (initialize_schema now schema tnames srcs).
Proof.
  unfold initialize_schema.
  assert (H0 : keyed schema []) by (split; [constructor|intros ? ? []]).
  revert H0. generalize (@nil (pystr * TableInfo)).
  induction tnames as [|t tnames IH]; intros acc [Hd Hk]; cbn; [now split|].
  apply IH. split; [now apply dict_set_NoDup|].
  intros k ti Hin. apply dict_set_entries in Hin as [[-> ->]|Hin];
    [reflexivity|now apply Hk].
Qed.

Lemma initialize_tables_keyed now databases listing :
  NoDup (map fst (initialize_tables_from_target now databases listing)) /\
  forall s d,
    In (s, d) (initialize_tables_from_target now databases listing) ->
    keyed s d.
Proof.
  unfold initialize_tables_from_target.
  assert (H0 : NoDup (map fst (@nil (pystr * dict TableInfo))) /\
               forall s d, In (s, d) (@nil (pystr * dict TableInfo)) ->
                           keyed s d)
    by (split; [constructor|intros ? ? []]).
  revert H0. generalize (@nil (pystr * dict TableInfo)).
  induction databases as [|db0 dbs IH]; intros acc [Hd Hk]; cbn;
    [now split|].
  apply IH. destruct (is_empty (strip db0)); [now split|].
  destruct (fst (listing (strip db0))) as [tnames|]; [|now split].
  destruct (initialize_schema now (strip db0) tnames
              (snd (listing (strip db0)))) as [|e d] eqn:E; [now split|].
  split; [now apply dict_set_NoDup|].
  intros s d' Hin. apply dict_set_entries in Hin as [[-> ->]|Hin];
    [|now apply Hk].
  rewrite <- E. apply initialize_schema_keyed.
Qed.

Lemma keyed_table_keys schema d :
  keyed schema d ->
  map table_key (values d) = map (fun k => (schema, k)) (map fst d).
Proof.
  intros [_ Hk]. unfold values. rewrite !map_map.
  apply map_ext_in. intros [k t] Hin. now apply Hk.
Qed.

Lemma NoDup_pair {A B} (a : A) (l : list B) :
  NoDup l -> NoDup (map (fun b => (a, b)) l).
Proof.
  induction 1 as [|b l Hn Hd IH]; cbn; constructor; [|exact IH].
  intros Hin. apply in_map_iff in Hin as (b' & [= ->] & Hb). contradiction.
Qed.

Lemma keyed_records_unique (tt : dict (dict TableInfo)) :
  NoDup (map fst tt) -> (forall s d, In (s, d) tt -> keyed s d) ->
  unique_keys (records tt) /\
  forall x, In x (records tt) -> In (schema_name x) (map fst tt).
Proof.
  unfold unique_keys.
  induction tt as [|[s d] tt IH]; intros Hd Hk.
  - split; [constructor|intros ? []].
  - inversion Hd as [|? ? Hn Hd']. subst.
    destruct IH as [IHu IHs]; [assumption|intros; apply Hk; now right|].
    assert (Hkd : keyed s d) by (apply Hk; now left).
    assert (Hsch : forall x, In x (values d) -> schema_name x = s).
    { intros x Hx. apply in_map_iff in Hx as ([k t] & <- & Hin).
      destruct Hkd as [_ Hkd]. specialize (Hkd _ _ Hin).
      unfold table_key in Hkd. cbn. congruence. }
    split.
    + change (records ((s, d) :: tt)) with (values d ++ records tt).
      rewrite map_app. apply NoDup_app; [|exact IHu|].
      * rewrite (keyed_table_keys Hkd).
        apply NoDup_pair, Hkd.
      * intros key Hin1 Hin2.
        apply in_map_iff in Hin1 as (x & <- & Hx).
        apply in_map_iff in Hin2 as (y & Hy & Hyin).
        apply Hn. rewrite <- (Hsch x Hx).
        unfold table_key in Hy. injection Hy as <- _. now apply IHs.
    + intros x Hx.
      change (records ((s, d) :: tt)) with (values d ++ records tt) in Hx.
      apply in_app_or in Hx as [Hx|Hx]; cbn.
      * left. symmetry. now apply Hsch.
      * right. now apply IHs.
Qed.

(** The table list that [start_monitoring] builds identifies its records
    by schema and table name. *)
Lemma initial_tables_unique_keys now databases listing :
  unique_keys (initial_tables now databases listing).
Proof.
  unfold initial_tables.
  destruct (initialize_tables_keyed now databases listing) as [Hd Hk].
  now apply keyed_records_unique.
Qed.

(** ** The scheduler *)

Lemma records_In (tt : dict (dict TableInfo)) (x : TableInfo) :
  In x (records tt) <-> exists s d, In (s, d) tt /\ In x (values d).
Proof.
  unfold records. rewrite in_concat. split.
  - intros (l & Hl & Hx). apply in_map_iff in Hl as ([s d] & <- & Hin).
    now exists s, d.
  - intros (s & d & Hin & Hx). exists (values d). split; [|assumption].
    apply in_map_iff. now exists (s, d).
Qed.

Lemma dict_set_In_pair {V} (d : dict V) (k : pystr) (v : V) (kv : pystr * V) :
  In kv (dict_set d k v) -> snd kv = v \/ In kv d.
Proof.
  induction d as [|[k' v'] d IH]; cbn.
  - intros [<-|[]]. now left.
  - destruct (pystr_eqb k' k); cbn.
    + intros [<-|H]; [now left | right; now right].
    + intros [H|H]; [right; now left|].
      destruct (IH H); [now left | right; now right].
Qed.

Lemma records_dict_set (tt : dict (dict TableInfo)) s d x :
  In x (records (dict_set tt s d)) -> In x (values d) \/ In x (records tt).
Proof.
  rewrite !records_In. intros (s' & d' & Hin & Hx).
  apply dict_set_In_pair in Hin as [Heq|Hin]; [cbn in Heq|].
  - left. now subst.
  - right. now exists s', d'.
Qed.

Lemma lookup2_In (tt : dict (dict TableInfo)) s n r :
  lookup2 tt s n = Some r -> In r (records tt).
Proof.
  unfold lookup2. destruct (dict_get tt s) as [d|] eqn:E; [|discriminate].
  intros H. apply records_In. exists s, d. split.
  - now apply dict_get_In_pair.
  - now apply dict_get_In with n.
Qed.

Lemma build_target_tables_cons table_info rest tt :
  build_target_tables (table_info :: rest) tt =
  if is_consistent table_info && pause_auto_refresh table_info
  then build_target_tables rest tt
  else build_target_tables rest (enter table_info tt).
Proof. reflexivity. Qed.

Lemma enter_records r tt x :
  In x (records (enter r tt)) -> x = r \/ In x (records tt).
Proof.
  unfold enter. intros H.
  apply records_dict_set in H as [H|H].
  - apply values_dict_set_In in H as [H|H]; [now left|right].
    destruct (dict_mem tt (schema_name r)) eqn:M; cbn in H.
    + destruct (dict_get tt (schema_name r)) as [d|] eqn:G; [|destruct H].
      apply records_In. exists (schema_name r), d. split; [|assumption].
      now apply dict_get_In_pair.
    + rewrite dict_get_set_same in H. destruct H.
  - destruct (dict_mem tt (schema_name r)); cbn in H; [now right|].
    apply records_dict_set in H as [[]|H]. now right.
Qed.

Lemma enter_lookup_same r tt :
  lookup2 (enter r tt) (schema_name r) (target_table_name r) = Some r.
Proof.
  unfold enter, lookup2. rewrite dict_get_set_same.
  apply dict_get_set_same.
Qed.

Lemma enter_lookup_other r tt s n :
  (s, n) <> table_key r -> lookup2 (enter r tt) s n = lookup2 tt s n.
Proof.
  unfold table_key, enter, lookup2. intros Hne.
  destruct (list_eq_dec ascii_dec (schema_name r) s) as [<-|Hs].
  - rewrite dict_get_set_same.
    rewrite dict_get_set_other by congruence.
    destruct (dict_mem tt (schema_name r)) eqn:M; cbn.
    + destruct (dict_get tt (schema_name r)); reflexivity.
    + rewrite dict_get_set_same. unfold dict_mem in M.
      destruct (dict_get tt (schema_name r)); [discriminate|reflexivity].
  - rewrite dict_get_set_other by assumption.
    destruct (dict_mem tt (schema_name r)); cbn; [reflexivity|].
    now rewrite dict_get_set_other.
Qed.

Lemma build_records tables : forall tt x,
  In x (records (build_target_tables tables tt)) ->
  In x (records tt) \/
  (In x tables /\ is_consistent x && pause_auto_refresh x = false).
Proof.
  induction tables as [|r rest IH]; intros tt x H.
  - now left.
  - rewrite build_target_tables_cons in H.
    destruct (is_consistent r && pause_auto_refresh r) eqn:E.
    + destruct (IH _ _ H) as [H'|[H' H'']]; [now left|right].
      split; [now right|assumption].
    + destruct (IH _ _ H) as [H'|[H' H'']].
      * apply enter_records in H' as [->|H']; [right|now left].
        split; [now left|assumption].
      * right. split; [now right|assumption].
Qed.

Lemma build_lookup_other tables : forall tt s n,
  ~ In (s, n) (map table_key tables) ->
  lookup2 (build_target_tables tables tt) s n = lookup2 tt s n.
Proof.
  induction tables as [|r rest IH]; intros tt s n Hnin; [reflexivity|].
  rewrite build_target_tables_cons. cbn in Hnin.
  destruct (is_consistent r && pause_auto_refresh r).
  - apply IH. tauto.
  - rewrite IH by tauto. apply enter_lookup_other. intros E. apply Hnin.
    left. now symmetry.
Qed.

Lemma build_lookup tables : forall tt r,
  unique_keys tables -> In r tables ->
  is_consistent r && pause_auto_refresh r = false ->
  lookup2 (build_target_tables tables tt)
          (schema_name r) (target_table_name r) = Some r.
Proof.
  unfold unique_keys.
  induction tables as [|r0 rest IH]; intros tt r Hu Hin Hsel; [destruct Hin|].
  rewrite build_target_tables_cons. cbn in Hu. inversion Hu as [|? ? Hn Hu'].
  subst. destruct Hin as [->|Hin].
  - rewrite Hsel. rewrite build_lookup_other by exact Hn.
    apply enter_lookup_same.
  - destruct (is_consistent r0 && pause_auto_refresh r0); now apply IH.
Qed.

Lemma filter_records (f : task -> bool) (tt : dict (dict TableInfo)) x :
  In x (task_records (filter f tt)) -> In x (records tt).
Proof.
  unfold task_records. rewrite !records_In. intros (s & d & Hin & Hx).
  apply filter_In in Hin as [Hin _]. now exists s, d.
Qed.

(** The two ways a run of [refresh_data] ends: cut short, or after the
    selection, the target tasks and, on the interval, the source tasks. *)
Lemma refresh_data_cases (app : MonitorApp) :
  (refresh_data app = mkTick app [] [] [] false /\
   (stop_event app || is_paused app = true \/
    build_target_tables (tables app) [] = [])) \/
  (stop_event app = false /\ is_paused app = false /\
   build_target_tables (tables app) [] <> [] /\
   selected (refresh_data app) = build_target_tables (tables app) [] /\
   target_tasks (refresh_data app) =
     update_target_counts_async (build_target_tables (tables app) []) /\
   tables (app_after (refresh_data app)) = tables app /\
   target_iteration (app_after (refresh_data app)) =
     target_iteration app + 1 /\
   ((source_tasks (refresh_data app) = [] /\
     source_iteration (app_after (refresh_data app)) = source_iteration app /\
     (source_update_interval app = 0 \/
      (target_iteration app + 1) mod source_update_interval app <> 0)) \/
    (source_tasks (refresh_data app) =
       update_source_counts_async (build_target_tables (tables app) []) /\
     source_iteration (app_after (refresh_data app)) =
       source_iteration app + 1 /\
     source_update_interval app <> 0 /\
     (target_iteration app + 1) mod source_update_interval app = 0))).
Proof.
  unfold refresh_data.
  destruct (stop_event app) eqn:Hs; [left; split; [reflexivity|now left]|].
  destruct (is_paused app) eqn:Hp; [left; split; [reflexivity|now left]|].
  cbn [orb].
  destruct (build_target_tables (tables app) []) as [|p tt] eqn:B;
    [left; split; [reflexivity|now right]|].
  right. repeat (split; [reflexivity || discriminate|]).
  destruct (Z.eqb_spec (source_update_interval app) 0) as [E0|E0].
  - cbn [selected target_tasks source_tasks app_after tables target_iteration
         source_iteration with_iterations].
    repeat (split; [reflexivity|]). left. repeat (split; [reflexivity|]).
    now left.
  - destruct (Z.eqb_spec ((target_iteration app + 1)
                            mod source_update_interval app) 0) as [E1|E1];
      cbn [selected target_tasks source_tasks app_after tables target_iteration
           source_iteration with_iterations];
      repeat (split; [reflexivity|]).
    + right. repeat (split; [reflexivity || assumption|]). assumption.
    + left. repeat (split; [reflexivity|]). now right.
Qed.

Lemma refresh_data_selected_sub (app : MonitorApp) (x : TableInfo) :
  In x (selected_records (refresh_data app)) ->
  In x (tables app) /\ is_consistent x && pause_auto_refresh x = false.
Proof.
  unfold selected_records.
  destruct (refresh_data_cases app) as [[-> _]|(_ & _ & _ & -> & _)].
  - intros [].
  - intros H. apply build_records in H as [[]|H]. exact H.
Qed.

Lemma refresh_data_tasks_sub (app : MonitorApp) (x : TableInfo) :
  In x (task_records (target_tasks (refresh_data app))) \/
  In x (task_records (source_tasks (refresh_data app))) ->
  In x (selected_records (refresh_data app)).
Proof.
  unfold selected_records.
  destruct (refresh_data_cases app)
    as [[-> _]|(_ & _ & _ & -> & -> & _ & _ & [(-> & _)|(-> & _)])].
  - cbn. tauto.
  - intros [H|[]]. eapply filter_records, H.
  - intros [H|H]; eapply filter_records, H.
Qed.

Lemma refresh_data_selected_running (app : MonitorApp) :
  stop_event app = false -> is_paused app = false ->
  selected (refresh_data app) = build_target_tables (tables app) [].
Proof.
  intros Hs Hp.
  destruct (refresh_data_cases app) as [[-> [H|H]]|(_ & _ & _ & -> & _)].
  - rewrite Hs, Hp in H. discriminate.
  - now rewrite H.
  - reflexivity.
Qed.

(** C3: a record that is consistent and has [pause_auto_refresh] set is
    never among the records a run of [refresh_data] selects, nor among those
    it hands to a polling task of either side; a record of the table list
    that is not consistent is selected whatever its [pause_auto_refresh]
    flag, whenever the run is not cut short by the stop event or the global
    pause (records being identified by schema and table name). *)
Theorem refresh_data_selection (app : MonitorApp) (r : TableInfo) :
  (is_consistent r = true -> pause_auto_refresh r = true ->
     ~ In r (selected_records (refresh_data app)) /\
     ~ In r (task_records (target_tasks (refresh_data app))) /\
     ~ In r (task_records (source_tasks (refresh_data app)))) /\
  (stop_event app = false -> is_paused app = false ->
   unique_keys (tables app) ->
   In r (tables app) -> is_consistent r = false ->
     In r (selected_records (refresh_data app))).
Proof.
  split.
  - intros Hc Hp.
    assert (Hs : ~ In r (selected_records (refresh_data app))).
    { intros H. apply refresh_data_selected_sub in H as [_ H].
      rewrite Hc, Hp in H. discriminate. }
    repeat split; [exact Hs| |]; intros H; apply Hs;
      apply refresh_data_tasks_sub; tauto.
  - intros Hstop Hpause Hu Hin Hc.
    unfold selected_records.
    rewrite refresh_data_selected_running by assumption.
    apply lookup2_In with (schema_name r) (target_table_name r).
    apply build_lookup; try assumption. now rewrite Hc.
Qed.

Lemma sample_app_unique_keys : unique_keys (tables sample_app).
Proof.
  unfold unique_keys. cbn. repeat constructor; cbn; intuition discriminate.
Qed.

Lemma refresh_data_selection_witness :
  ~ In sample_orders (selected_records (refresh_data sample_app)) /\
  In sample_users (selected_records (refresh_data sample_app)).
Proof.
  split.
  - apply (refresh_data_selection sample_app sample_orders); reflexivity.
  - apply (refresh_data_selection sample_app sample_users);
      try reflexivity.
    + exact sample_app_unique_keys.
    + cbn. auto.
Defined.

Lemma dict_set_not_nil {V} (d : dict V) k v : dict_set d k v <> [].
Proof.
  destruct d as [|[k' v'] d]; cbn; [discriminate|].
  destruct (pystr_eqb k' k); discriminate.
Qed.

Lemma build_target_tables_not_nil tables : forall tt,
  tt <> [] -> build_target_tables tables tt <> [].
Proof.
  induction tables as [|r rest IH]; intros tt H; [exact H|].
  rewrite build_target_tables_cons.
  destruct (is_consistent r && pause_auto_refresh r); apply IH;
    [exact H | apply dict_set_not_nil].
Qed.

Lemma table_key_set_pause b r :
  table_key (set_pause_auto_refresh b r) = table_key r.
Proof. reflexivity. Qed.

Lemma unique_keys_cleared ts :
  unique_keys ts -> unique_keys (map (set_pause_auto_refresh false) ts).
Proof.
  unfold unique_keys. rewrite map_map. intros H.
  erewrite map_ext; [exact H|]. intros r. apply table_key_set_pause.
Qed.

(** C7, as amended: the manual refresh resets [pause_auto_refresh] on every
    record and runs one ordinary [refresh_data].  When the application is
    neither stopped nor paused and has tables, that run selects every
    record, advances the target iteration, creates the target tasks (one per
    schema with no target update in flight) and creates source tasks only
    when the new target iteration is a multiple of the source interval;
    when it is stopped or paused, no task is created. *)
Theorem action_refresh_is_one_tick (app : MonitorApp) :
  tables (app_after (action_refresh app)) =
    map (set_pause_auto_refresh false) (tables app) /\
  Forall (fun r => pause_auto_refresh r = false)
         (tables (app_after (action_refresh app))) /\
  (stop_event app = false -> is_paused app = false -> tables app <> [] ->
     (unique_keys (tables app) ->
      forall r, In r (tables app) ->
        In (set_pause_auto_refresh false r)
           (selected_records (action_refresh app))) /\
     target_iteration (app_after (action_refresh app)) =
       target_iteration app + 1 /\
     target_tasks (action_refresh app) =
       update_target_counts_async (selected (action_refresh app)) /\
     (source_update_interval app <> 0 ->
      (target_iteration app + 1) mod source_update_interval app = 0 ->
      source_tasks (action_refresh app) =
        update_source_counts_async (selected (action_refresh app))) /\
     (source_update_interval app = 0 \/
      (target_iteration app + 1) mod source_update_interval app <> 0 ->
      source_tasks (action_refresh app) = [])) /\
  (stop_event app = true \/ is_paused app = true ->
     target_tasks (action_refresh app) = [] /\
     source_tasks (action_refresh app) = []).
Proof.
  unfold action_refresh.
  set (cleared := map (set_pause_auto_refresh false) (tables app)).
  set (app' := with_tables cleared app).
  assert (Htab : tables (app_after (refresh_data app')) = cleared).
  { destruct (refresh_data_cases app')
      as [[-> _]|(_ & _ & _ & _ & _ & -> & _)]; reflexivity. }
  split; [exact Htab|]. split.
  { rewrite Htab. apply Forall_forall. intros r Hr.
    apply in_map_iff in Hr as (r0 & <- & _). reflexivity. }
  split.
  - intros Hs Hp Hne.
    destruct (refresh_data_cases app')
      as [[_ [H|H]]|(_ & _ & _ & Hsel & Htt & _ & Hit & Hsrc)].
    + cbn in H. rewrite Hs, Hp in H. discriminate.
    + exfalso. cbn [tables app' with_tables] in H.
      destruct (tables app) as [|r0 rest] eqn:Et; [now apply Hne|].
      subst cleared. cbn [map] in H. rewrite build_target_tables_cons in H.
      replace (pause_auto_refresh (set_pause_auto_refresh false r0))
        with false in H by reflexivity.
      rewrite andb_false_r in H. revert H.
      apply build_target_tables_not_nil, dict_set_not_nil.
    + split; [|split; [exact Hit|split; [now rewrite Hsel|split]]].
      * intros Hu r Hr. unfold selected_records. rewrite Hsel.
        apply lookup2_In with (schema_name r) (target_table_name r).
        change (schema_name r)
          with (schema_name (set_pause_auto_refresh false r)).
        change (target_table_name r)
          with (target_table_name (set_pause_auto_refresh false r)).
        apply build_lookup.
        -- now apply unique_keys_cleared.
        -- apply in_map_iff. now exists r.
        -- apply andb_false_r.
      * intros Hi Hm. rewrite Hsel.
        destruct Hsrc as [(_ & _ & [H|H])|(-> & _)];
          [now apply Hi in H | now apply H in Hm | reflexivity].
      * intros Hor. destruct Hsrc as [(-> & _)|(_ & _ & Hi & Hm)];
          [reflexivity|]. cbn in Hi, Hm. tauto.
  - intros Hor. unfold refresh_data.
    replace (stop_event app' || is_paused app') with true; [now split|].
    cbn. destruct Hor as [-> | ->]; [reflexivity|].
    now rewrite orb_true_r.
Qed.

Lemma action_refresh_is_one_tick_witness :
  target_iteration (app_after (action_refresh sample_app)) = 1 /\
  source_tasks (action_refresh sample_app) = [] /\
  source_tasks (action_refresh sample_app_fifth) =
    update_source_counts_async (selected (action_refresh sample_app_fifth)) /\
  In (set_pause_auto_refresh false sample_orders)
     (selected_records (action_refresh sample_app)) /\
  target_tasks (action_refresh sample_app_paused) = [].
Proof.
  destruct (action_refresh_is_one_tick sample_app) as (_ & _ & H & _).
  destruct H as (Hsel & Hit & _ & _ & Hsrc);
    [reflexivity | reflexivity | discriminate |].
  destruct (action_refresh_is_one_tick sample_app_fifth) as (_ & _ & H5 & _).
  destruct H5 as (_ & _ & _ & Hsrc5 & _);
    [reflexivity | reflexivity | discriminate |].
  destruct (action_refresh_is_one_tick sample_app_paused) as (_ & _ & _ & Hp).
  split; [exact Hit|]. split; [apply Hsrc; right; cbn; discriminate|].
  split; [apply Hsrc5; [discriminate|reflexivity]|].
  split.
  - apply Hsel; [exact sample_app_unique_keys|now left].
  - apply Hp. right. reflexivity.
Defined.

(** C7, as stated, fails: on the first iteration with a source interval of
    five, the manual refresh creates the target task and no source task. *)
Lemma action_refresh_skips_source :
  target_tasks (action_refresh sample_app) <> [] /\
  source_tasks (action_refresh sample_app) = [].
Proof. split; [discriminate|reflexivity]. Qed.

(** ** The polling passes: closed forms of the loops *)

Lemma map_values_app {V} (f : V -> V) (a b : dict V) :
  map_values f (a ++ b) = map_values f a ++ map_values f b.
Proof. apply map_app. Qed.

Lemma map_values_keys {V} (f : V -> V) (d : dict V) :
  map fst (map_values f d) = map fst d.
Proof. unfold map_values. rewrite map_map. reflexivity. Qed.

(** The exact target loop either visits every record, or stops before the
    record of some index [n] and resets the flag of all of them. *)
Lemma target_exact_loop_closed (env : Env) (schema : pystr) :
  forall todo k done,
    target_exact_loop env schema k done todo =
      (true, done ++ map (target_exact_step env schema) todo) \/
    exists n, (n < length todo)%nat /\
      target_exact_loop env schema k done todo =
        (false,
         map_values (set_target_updating false)
           (done ++ map (target_exact_step env schema) (firstn n todo)
                 ++ skipn n todo)).
Proof.
  induction todo as [|[name ti] rest IH]; intros k done.
  - left. cbn. now rewrite app_nil_r.
  - cbn [target_exact_loop].
    destruct (stop_event_is_set env k).
    + right. exists 0%nat. split; [cbn; lia|reflexivity].
    + change (done ++ [(name,
               match target_count env schema name with
               | QRow n => apply_target_exact (now env) (Z.of_N n) ti
               | QNone => apply_target_exact (now env) 0 ti
               | QRaise => apply_target_exact_failed (now env) ti
               end)])
        with (done ++ [target_exact_step env schema (name, ti)]).
      destruct (IH (S k) (done ++ [target_exact_step env schema (name, ti)]))
        as [E|(n & Hn & E)]; rewrite E.
      * left. cbn [map]. now rewrite <- app_assoc.
      * right. exists (S n). split; [cbn; lia|].
        cbn [firstn skipn map]. now rewrite <- !app_assoc.
Qed.

Lemma target_exact_loop_complete (env : Env) (schema : pystr) :
  (forall k, stop_event_is_set env k = false) ->
  forall todo k done,
    target_exact_loop env schema k done todo =
      (true, done ++ map (target_exact_step env schema) todo).
Proof.
  intros Hstop. induction todo as [|[name ti] rest IH]; intros k done.
  - cbn. now rewrite app_nil_r.
  - cbn [target_exact_loop]. rewrite Hstop.
    change (done ++ [(name,
               match target_count env schema name with
               | QRow n => apply_target_exact (now env) (Z.of_N n) ti
               | QNone => apply_target_exact (now env) 0 ti
               | QRaise => apply_target_exact_failed (now env) ti
               end)])
        with (done ++ [target_exact_step env schema (name, ti)]).
    rewrite IH. cbn [map]. now rewrite <- app_assoc.
Qed.

(** Sums of counts. *)

Lemma sum_rows_from (rows : list Z) (a : Z) :
  fold_left Z.add rows a = a + sum_rows rows.
Proof.
  unfold sum_rows. revert a.
  induction rows as [|x rows IH]; intros a; cbn; [lia|].
  rewrite (IH (a + x)), (IH x). lia.
Qed.

Lemma union_all_rows_sum (env : Env) (schema : pystr) :
  forall srcs rows,
    union_all_rows env schema srcs = Some rows ->
    sum_rows rows = sum_of_counts env schema srcs.
Proof.
  induction srcs as [|s srcs IH]; intros rows; cbn.
  - intros [= <-]. reflexivity.
  - unfold contribution.
    destruct (source_count env schema s);
      destruct (union_all_rows env schema srcs) as [rows'|];
      try discriminate; intros [= <-].
    + rewrite (IH rows' eq_refl). lia.
    + unfold sum_rows. cbn. rewrite sum_rows_from.
      rewrite (IH rows' eq_refl). lia.
Qed.

Lemma count_sources_batched_sum (env : Env) (schema : pystr) srcs v :
  count_sources_batched env schema srcs = Some v ->
  v = sum_of_counts env schema srcs.
Proof.
  assert (Hgen : (if source_union_rejected env schema srcs then None
                  else match union_all_rows env schema srcs with
                       | Some rows => Some (sum_rows rows)
                       | None => None
                       end) = Some v ->
                 v = sum_of_counts env schema srcs).
  { destruct (source_union_rejected env schema srcs); [discriminate|].
    destruct (union_all_rows env schema srcs) as [rows|] eqn:E;
      [|discriminate].
    intros [= <-]. now apply union_all_rows_sum. }
  destruct srcs as [|s [|s' srcs]]; try exact Hgen.
  cbn. unfold contribution.
  destruct (source_count env schema s); try discriminate;
    intros [= <-]; lia.
Qed.

Lemma count_sources_one_by_one_sum (env : Env) (schema : pystr) :
  forall srcs k temp v k',
    count_sources_one_by_one env schema srcs k temp = (Some v, k') ->
    v = temp + sum_of_counts env schema srcs.
Proof.
  induction srcs as [|s srcs IH]; intros k temp v k'; cbn.
  - intros [= <- _]. lia.
  - destruct (stop_event_is_set env k); [discriminate|].
    unfold contribution.
    destruct (source_count env schema s); intros H;
      apply IH in H; lia.
Qed.

Lemma count_sources_one_by_one_complete (env : Env) (schema : pystr) :
  (forall k, stop_event_is_set env k = false) ->
  forall srcs k temp, exists k',
    count_sources_one_by_one env schema srcs k temp =
      (Some (temp + sum_of_counts env schema srcs), k').
Proof.
  intros Hstop. induction srcs as [|s srcs IH]; intros k temp; cbn.
  - exists k. now rewrite Z.add_0_r.
  - rewrite Hstop. unfold contribution.
    destruct (source_count env schema s).
    + destruct (IH (S k) temp) as (k' & ->). exists k'. reflexivity.
    + destruct (IH (S k) temp) as (k' & ->). exists k'. reflexivity.
    + destruct (IH (S k) (temp + Z.of_N count)) as (k' & ->).
      exists k'. now rewrite Z.add_assoc.
Qed.

(** The exact source loop, one record further: either the record is
    completed with the sum of the counts of its source tables, or the stop
    event cuts the pass short. *)
Lemma source_exact_loop_cons (env : Env) (schema : pystr) k done name ti rest :
  (exists k',
     source_exact_loop env schema k done ((name, ti) :: rest) =
     source_exact_loop env schema k'
       (done ++ [source_exact_step env schema (name, ti)]) rest) \/
  source_exact_loop env schema k done ((name, ti) :: rest) =
    (false,
     map_values (set_source_updating false) (done ++ (name, ti) :: rest)).
Proof.
  cbn [source_exact_loop]. unfold source_exact_step. cbn [fst snd].
  destruct (stop_event_is_set env k); [now right|].
  destruct (source_tables ti) as [|s srcs] eqn:Esrc.
  - left. exists (S k). reflexivity.
  - destruct (count_sources_batched env schema (s :: srcs)) as [v|] eqn:Eb.
    + left. exists (S k). apply count_sources_batched_sum in Eb.
      now rewrite Eb.
    + destruct (count_sources_one_by_one env schema (s :: srcs) (S k) 0)
        as [[v|] k'] eqn:E1; [|now right].
      left. exists k'. apply count_sources_one_by_one_sum in E1.
      rewrite E1. reflexivity.
Qed.

Lemma source_exact_loop_closed (env : Env) (schema : pystr) :
  forall todo k done,
    source_exact_loop env schema k done todo =
      (true, done ++ map (source_exact_step env schema) todo) \/
    exists n, (n < length todo)%nat /\
      source_exact_loop env schema k done todo =
        (false,
         map_values (set_source_updating false)
           (done ++ map (source_exact_step env schema) (firstn n todo)
                 ++ skipn n todo)).
Proof.
  induction todo as [|[name ti] rest IH]; intros k done.
  - left. cbn. now rewrite app_nil_r.
  - destruct (source_exact_loop_cons env schema k done name ti rest)
      as [(k' & ->)| ->].
    + destruct (IH k' (done ++ [source_exact_step env schema (name, ti)]))
        as [E|(n & Hn & E)]; rewrite E.
      * left. cbn [map]. now rewrite <- app_assoc.
      * right. exists (S n). split; [cbn; lia|].
        cbn [firstn skipn map]. now rewrite <- !app_assoc.
    + right. exists 0%nat. split; [cbn; lia|reflexivity].
Qed.

Lemma source_exact_loop_complete (env : Env) (schema : pystr) :
  (forall k, stop_event_is_set env k = false) ->
  forall todo k done,
    source_exact_loop env schema k done todo =
      (true, done ++ map (source_exact_step env schema) todo).
Proof.
  intros Hstop. induction todo as [|[name ti] rest IH]; intros k done.
  - cbn. now rewrite app_nil_r.
  - assert (E : exists k',
               source_exact_loop env schema k done ((name, ti) :: rest) =
               source_exact_loop env schema k'
                 (done ++ [source_exact_step env schema (name, ti)]) rest).
    { cbn [source_exact_loop]. unfold source_exact_step. cbn [fst snd].
      rewrite Hstop.
      destruct (source_tables ti) as [|s srcs] eqn:Esrc.
      - exists (S k). reflexivity.
      - destruct (count_sources_batched env schema (s :: srcs))
          as [v|] eqn:Eb.
        + exists (S k). apply count_sources_batched_sum in Eb.
          now rewrite Eb.
        + destruct (count_sources_one_by_one_complete env schema Hstop
                      (s :: srcs) (S k) 0) as (k' & ->).
          exists k'. reflexivity. }
    destruct E as (k' & ->). rewrite IH. cbn [map].
    now rewrite <- app_assoc.
Qed.

Lemma Forall2_two_parts {A B} (R : A -> B -> Prop) (f g : A -> B) :
  (forall x, R x (f x)) -> (forall x, R x (g x)) ->
  forall n l, Forall2 R l (map f (firstn n l) ++ map g (skipn n l)).
Proof.
  intros Hf Hg n l. revert n.
  induction l as [|x l IH]; intros [|n]; cbn; try constructor; auto.
  apply (IH 0%nat).
Qed.

Lemma Forall2_map_right {A B} (R : A -> B -> Prop) (f : A -> B) l :
  (forall x, R x (f x)) -> Forall2 R l (map f l).
Proof. intros Hf. induction l; cbn; constructor; auto. Qed.

Lemma Forall2_same {A} (R : A -> A -> Prop) l :
  (forall x, R x x) -> Forall2 R l l.
Proof. intros H. induction l; constructor; auto. Qed.

(** Every record after an exact source pass is the record before it, left
    as it is, or marked, or marked and completed, and then possibly with
    its flag reset by a cancellation. *)
Lemma source_exact_pass_Forall2 (env : Env) (schema : pystr)
    (R : pystr * TableInfo -> pystr * TableInfo -> Prop) :
  (forall x, R x x) ->
  (forall x, R x (on_value (set_source_updating false)
                    (on_value mark_source_updating x))) ->
  (forall x, R x (source_exact_step env schema
                    (on_value mark_source_updating x))) ->
  (forall x, R x (on_value (set_source_updating false)
                    (source_exact_step env schema
                       (on_value mark_source_updating x)))) ->
  forall d,
    Forall2 R d (snd (_update_single_schema_source env schema d false)).
Proof.
  intros Hid Hclear Hstep Hboth d. unfold _update_single_schema_source.
  destruct (stop_event_is_set env 0); [now apply Forall2_same|].
  destruct (connect_source env schema); cbn [negb];
    [|now apply Forall2_same].
  destruct (source_exact_loop_closed env schema
              (map_values mark_source_updating d) 1 [])
    as [E|(n & _ & E)]; rewrite E; cbn [snd app].
  - unfold map_values. rewrite map_map. now apply Forall2_map_right.
  - unfold map_values. rewrite map_app, firstn_map, skipn_map, !map_map.
    now apply Forall2_two_parts.
Qed.

Lemma source_exact_pass_complete (env : Env) (schema : pystr) d :
  connect_source env schema = true ->
  (forall k, stop_event_is_set env k = false) ->
  _update_single_schema_source env schema d false =
    (true,
     map (fun x => source_exact_step env schema
                     (on_value mark_source_updating x)) d).
Proof.
  intros Hc Hstop. unfold _update_single_schema_source.
  rewrite Hstop, Hc. cbn [negb].
  rewrite source_exact_loop_complete by assumption.
  unfold map_values. now rewrite map_map.
Qed.

Lemma sum_of_counts_nonneg (env : Env) (schema : pystr) srcs :
  0 <= sum_of_counts env schema srcs.
Proof.
  induction srcs as [|s srcs IH]; cbn; [lia|].
  unfold contribution. destruct (source_count env schema s); lia.
Qed.

Lemma mark_source_updating_fields t :
  source_tables (mark_source_updating t) = source_tables t /\
  source_rows (mark_source_updating t) = source_rows t /\
  target_rows (mark_source_updating t) = target_rows t /\
  pause_auto_refresh (mark_source_updating t) = pause_auto_refresh t.
Proof.
  unfold mark_source_updating. destruct (source_updating t); cbn; auto.
Qed.

Lemma apply_source_exact_fields now v t :
  source_tables (apply_source_exact now v t) = source_tables t /\
  source_rows (apply_source_exact now v t) = v /\
  target_rows (apply_source_exact now v t) = target_rows t /\
  source_updating (apply_source_exact now v t) = false /\
  source_is_estimated (apply_source_exact now v t) = false /\
  source_last_updated (apply_source_exact now v t) = now /\
  pause_auto_refresh (apply_source_exact now v t) =
    pause_auto_refresh t || (target_rows t =? v).
Proof.
  unfold apply_source_exact, is_consistent. cbn.
  destruct (target_rows t =? v); cbn; repeat split; auto.
  - symmetry. apply orb_true_r.
  - now rewrite orb_false_r.
Qed.

(** ** The source side *)

(** C4: in an exact source pass, every record the pass completes gets as
    [source_rows] the sum of the counts of its [source_tables], a table
    whose query fails counting for 0, so that the record never carries the
    error mark; a record the pass does not reach keeps its count.  With a
    connection and no stop request the pass completes every record. *)
Theorem source_exact_pass_sums (env : Env) (schema : pystr)
    (tables_dict : dict TableInfo) :
  Forall2
    (fun before after =>
       fst after = fst before /\
       source_tables (snd after) = source_tables (snd before) /\
       (source_rows (snd after) = source_rows (snd before) \/
        source_rows (snd after) =
          sum_of_counts env schema (source_tables (snd before)) /\
        source_rows (snd after) <> -1))
    tables_dict
    (snd (_update_single_schema_source env schema tables_dict false)) /\
  (connect_source env schema = true ->
   (forall k, stop_event_is_set env k = false) ->
   fst (_update_single_schema_source env schema tables_dict false) = true /\
   Forall2
     (fun before after =>
        fst after = fst before /\
        source_rows (snd after) =
          sum_of_counts env schema (source_tables (snd before)) /\
        source_rows (snd after) <> -1 /\
        source_is_estimated (snd after) = false /\
        source_updating (snd after) = false)
     tables_dict
     (snd (_update_single_schema_source env schema tables_dict false))).
Proof.
  split.
  - apply source_exact_pass_Forall2; intros [name t];
      unfold source_exact_step, on_value; cbn [fst snd];
      destruct (mark_source_updating_fields t) as (Hst & Hsr & _);
      try (destruct (apply_source_exact_fields (now env)
             (sum_of_counts env schema
                (source_tables (mark_source_updating t)))
             (mark_source_updating t)) as (Ast & Asr & _));
      cbn [source_tables source_rows set_source_updating];
      repeat split; try congruence; auto.
    + right. rewrite Asr, Hst. split; [reflexivity|].
      pose proof (sum_of_counts_nonneg env schema (source_tables t)). lia.
    + right. rewrite Asr, Hst. split; [reflexivity|].
      pose proof (sum_of_counts_nonneg env schema (source_tables t)). lia.
  - intros Hc Hstop. rewrite source_exact_pass_complete by assumption.
    split; [reflexivity|]. cbn [snd]. apply Forall2_map_right.
    intros [name t]. unfold source_exact_step, on_value. cbn [fst snd].
    destruct (mark_source_updating_fields t) as (Hst & _).
    destruct (apply_source_exact_fields (now env)
                (sum_of_counts env schema
                   (source_tables (mark_source_updating t)))
                (mark_source_updating t)) as (_ & Asr & _ & Au & Ae & _).
    rewrite Asr, Au, Ae, Hst. repeat split.
    pose proof (sum_of_counts_nonneg env schema (source_tables t)). lia.
Qed.

Lemma source_exact_pass_sums_witness :
  fst (_update_single_schema_source scenario_env db scenario_tables false)
    = true /\
  Forall2
    (fun before after =>
       fst after = fst before /\
       source_rows (snd after) =
         sum_of_counts scenario_env db (source_tables (snd before)) /\
       source_rows (snd after) <> -1 /\
       source_is_estimated (snd after) = false /\
       source_updating (snd after) = false)
    scenario_tables
    (snd (_update_single_schema_source scenario_env db scenario_tables
            false)).
Proof.
  apply (source_exact_pass_sums scenario_env db scenario_tables).
  - reflexivity.
  - intros k. reflexivity.
Defined.

Example scenario_source_rows :
  map (fun kv => source_rows (snd kv))
      (snd (_update_single_schema_source scenario_env db scenario_tables
              false)) = [10].
Proof. reflexivity. Qed.

(** The ways an exact source pass ends. *)
Lemma source_exact_pass_cases (env : Env) (schema : pystr) d :
  _update_single_schema_source env schema d false = (false, d) \/
  _update_single_schema_source env schema d false =
    (true,
     map (fun x => source_exact_step env schema
                     (on_value mark_source_updating x)) d) \/
  exists n,
    _update_single_schema_source env schema d false =
      (false,
       map (fun x => on_value (set_source_updating false)
                       (source_exact_step env schema
                          (on_value mark_source_updating x)))
           (firstn n d) ++
       map (fun x => on_value (set_source_updating false)
                       (on_value mark_source_updating x))
           (skipn n d)).
Proof.
  unfold _update_single_schema_source.
  destruct (stop_event_is_set env 0); [now left|].
  destruct (connect_source env schema); cbn [negb]; [|now left].
  right.
  destruct (source_exact_loop_closed env schema
              (map_values mark_source_updating d) 1 [])
    as [E|(n & _ & E)]; rewrite E; cbn [app].
  - left. unfold map_values. now rewrite map_map.
  - right. exists n. unfold map_values.
    now rewrite map_app, firstn_map, skipn_map, !map_map.
Qed.

(** The ways an exact target pass ends. *)
Lemma target_exact_pass_cases (env : Env) (schema : pystr) d :
  _update_single_schema_target env schema d false = (false, d) \/
  _update_single_schema_target env schema d false =
    (true,
     map (fun x => target_exact_step env schema
                     (on_value mark_target_updating x)) d) \/
  exists n,
    _update_single_schema_target env schema d false =
      (false,
       map (fun x => on_value (set_target_updating false)
                       (target_exact_step env schema
                          (on_value mark_target_updating x)))
           (firstn n d) ++
       map (fun x => on_value (set_target_updating false)
                       (on_value mark_target_updating x))
           (skipn n d)).
Proof.
  unfold _update_single_schema_target.
  destruct (stop_event_is_set env 0); [now left|].
  destruct (connect_target env schema); cbn [negb]; [|now left].
  right.
  destruct (target_exact_loop_closed env schema
              (map_values mark_target_updating d) 1 [])
    as [E|(n & _ & E)]; rewrite E; cbn [app].
  - left. unfold map_values. now rewrite map_map.
  - right. exists n. unfold map_values.
    now rewrite map_app, firstn_map, skipn_map, !map_map.
Qed.

(** A relation that holds between a record and each of the forms it can
    take holds between the batch before and after the pass. *)
Lemma target_exact_pass_Forall2 (env : Env) (schema : pystr)
    (R : pystr * TableInfo -> pystr * TableInfo -> Prop) :
  (forall x, R x x) ->
  (forall x, R x (on_value (set_target_updating false)
                    (on_value mark_target_updating x))) ->
  (forall x, R x (target_exact_step env schema
                    (on_value mark_target_updating x))) ->
  (forall x, R x (on_value (set_target_updating false)
                    (target_exact_step env schema
                       (on_value mark_target_updating x)))) ->
  forall d,
    Forall2 R d (snd (_update_single_schema_target env schema d false)).
Proof.
  intros Hid Hclear Hstep Hboth d.
  destruct (target_exact_pass_cases env schema d) as [E|[E|(n & E)]];
    rewrite E; cbn [snd].
  - now apply Forall2_same.
  - now apply Forall2_map_right.
  - now apply Forall2_two_parts.
Qed.

(** ** The in-flight flags *)

(** C2 is not met by the exact target pass: when the count of a table
    raises, the [except] block of that table stores -1 and does not reset
    [target_updating]; the pass returns [True] with the flag still set, and
    the scheduler then finds the schema in flight and creates no task for
    it.  The specification asks for the flag to be cleared on every exit
    path, per-table query failure included. *)
Theorem target_exact_pass_keeps_flag_after_failure :
  fst (_update_single_schema_target failing_target_env db users_tables false)
    = true /\
  map (fun kv => (target_rows (snd kv), target_updating (snd kv)))
      (snd (_update_single_schema_target failing_target_env db users_tables
              false)) = [(-1, true)] /\
  update_target_counts_async
    [(db, snd (_update_single_schema_target failing_target_env db
                 users_tables false))] = [].
Proof. repeat split. Qed.

Lemma mark_target_updating_fields t :
  source_rows (mark_target_updating t) = source_rows t /\
  pause_auto_refresh (mark_target_updating t) = pause_auto_refresh t.
Proof.
  unfold mark_target_updating. destruct (target_updating t); cbn; auto.
Qed.

Lemma apply_target_exact_fields now v t :
  target_rows (apply_target_exact now v t) = v /\
  source_rows (apply_target_exact now v t) = source_rows t /\
  target_updating (apply_target_exact now v t) = false /\
  target_is_estimated (apply_target_exact now v t) = false /\
  target_last_updated (apply_target_exact now v t) = now /\
  pause_auto_refresh (apply_target_exact now v t) =
    pause_auto_refresh t || (v =? source_rows t).
Proof.
  unfold apply_target_exact, roll_previous_target, is_consistent.
  destruct (is_first_query t); cbn;
    destruct (v =? source_rows t); cbn; repeat split; auto;
    try (symmetry; apply orb_true_r); now rewrite orb_false_r.
Qed.

Lemma apply_target_exact_failed_fields now t :
  target_updating (apply_target_exact_failed now t) = target_updating t /\
  pause_auto_refresh (apply_target_exact_failed now t) =
    pause_auto_refresh t.
Proof.
  unfold apply_target_exact_failed, roll_previous_target.
  destruct (is_first_query t); cbn; auto.
Qed.

(** Apart from that path the exact target pass resets what it set: a flag
    found set afterwards was set before the pass, or belongs to a table
    whose count raised. *)
Lemma target_exact_pass_flag_origin (env : Env) (schema : pystr) d :
  Forall2
    (fun before after =>
       target_updating (snd after) = true ->
       target_updating (snd before) = true \/
       target_count env schema (fst before) = QRaise)
    d (snd (_update_single_schema_target env schema d false)).
Proof.
  apply target_exact_pass_Forall2; intros [name t];
    unfold target_exact_step, on_value; cbn [fst snd]; auto;
    try discriminate.
  destruct (target_count env schema name) as [| |n]; auto;
    destruct (apply_target_exact_fields (now env) 0 (mark_target_updating t))
      as (_ & _ & H0 & _);
    try destruct (apply_target_exact_fields (now env) (Z.of_N n)
                    (mark_target_updating t)) as (_ & _ & Hn & _);
    congruence.
Qed.

(** The exact source pass leaves no flag set that it found unset. *)
Lemma source_exact_pass_flag_origin (env : Env) (schema : pystr) d :
  Forall2
    (fun before after =>
       source_updating (snd after) = true ->
       source_updating (snd before) = true)
    d (snd (_update_single_schema_source env schema d false)).
Proof.
  apply source_exact_pass_Forall2; intros [name t];
    unfold source_exact_step, on_value; cbn [fst snd]; auto;
    try discriminate.
  destruct (apply_source_exact_fields (now env)
              (sum_of_counts env schema
                 (source_tables (mark_source_updating t)))
              (mark_source_updating t)) as (_ & _ & _ & H & _).
  congruence.
Qed.

(** The estimate mode, which the scheduler does not use, resets on a
    cancellation the flag of the record at hand only: the records after it
    keep the flag the pass set. *)
Example target_estimate_pass_cancelled :
  _update_single_schema_target stopping_env db two_tables true =
    (false,
     [(py "orders",
       set_target_rows 0 (sample_table "db" "orders" 5 5 [py "orders"] false));
      (py "users",
       set_target_updating true
         (set_target_rows 0
            (sample_table "db" "users" 5 3 [py "users"] false)))]).
Proof. reflexivity. Qed.

(** In [cdc_monitor.py] the handler of the outermost [except] tests
    [source_updating] and resets [target_updating]: the flag it tested
    stays as it was. *)
Lemma cdc_handler_keeps_source_updating (t : TableInfo) :
  source_updating (cdc_unmark_source_updating t) = source_updating t.
Proof.
  unfold cdc_unmark_source_updating.
  destruct (source_updating t) eqn:E; exact E.
Qed.

(** ** The pause flag *)

Lemma paused_app_one (done rest : dict TableInfo) x y :
  paused y = paused x ->
  map paused (done ++ [y] ++ rest) = map paused (done ++ x :: rest).
Proof. intros H. rewrite !map_app. cbn. now rewrite H. Qed.

Lemma target_estimate_loop_paused (env : Env) (schema : pystr) stats :
  forall todo k done,
    map paused (snd (target_estimate_loop env schema stats k done todo)) =
    map paused (done ++ todo).
Proof.
  induction todo as [|[name ti] rest IH]; intros k done.
  - cbn. now rewrite app_nil_r.
  - cbn [target_estimate_loop]. destruct (stop_event_is_set env k).
    + cbn [snd]. now apply (paused_app_one done rest (name, ti)).
    + rewrite IH, <- app_assoc. apply paused_app_one.
      unfold paused, apply_target_estimate, roll_previous_target.
      cbn [snd]. destruct (is_first_query ti); reflexivity.
Qed.

Lemma target_estimate_failed_loop_paused (env : Env) :
  forall todo k done,
    map paused (snd (target_estimate_failed_loop env k done todo)) =
    map paused (done ++ todo).
Proof.
  induction todo as [|[name ti] rest IH]; intros k done.
  - cbn. now rewrite app_nil_r.
  - cbn [target_estimate_failed_loop]. destruct (stop_event_is_set env k).
    + cbn [snd]. now apply (paused_app_one done rest (name, ti)).
    + rewrite IH, <- app_assoc. apply paused_app_one.
      unfold paused, apply_target_estimate_failed, roll_previous_target.
      cbn [snd]. destruct (is_first_query ti); reflexivity.
Qed.

Lemma source_estimate_loop_paused (env : Env) total :
  forall todo k done,
    map paused (snd (source_estimate_loop env total k done todo)) =
    map paused (done ++ todo).
Proof.
  induction todo as [|[name ti] rest IH]; intros k done.
  - cbn. now rewrite app_nil_r.
  - cbn [source_estimate_loop]. destruct (stop_event_is_set env k).
    + cbn [snd]. now apply (paused_app_one done rest (name, ti)).
    + rewrite IH, <- app_assoc. now apply paused_app_one.
Qed.

Lemma map_values_paused (f : TableInfo -> TableInfo) d :
  (forall t, pause_auto_refresh (f t) = pause_auto_refresh t) ->
  map paused (map_values f d) = map paused d.
Proof.
  intros H. unfold map_values. rewrite map_map. apply map_ext.
  intros [name t]. apply H.
Qed.

Lemma target_estimate_pass_paused (env : Env) (schema : pystr) d :
  map paused (snd (_update_single_schema_target env schema d true)) =
  map paused d.
Proof.
  assert (Hmark : map paused (map_values mark_target_updating_estimate d) =
                  map paused d).
  { apply map_values_paused. intros t. unfold mark_target_updating_estimate.
    destruct (target_updating t); reflexivity. }
  unfold _update_single_schema_target.
  destruct (stop_event_is_set env 0); [reflexivity|].
  destruct (connect_target env schema); cbn [negb]; [|reflexivity].
  destruct (stop_event_is_set env 1); [reflexivity|].
  destruct (call_from_thread_raises env).
  { cbn [snd]. rewrite map_values_paused; [exact Hmark|].
    intros t. unfold unmark_target_updating.
    destruct (target_updating t); reflexivity. }
  destruct d as [|x d]; [reflexivity|].
  destruct (target_stats env schema).
  - now rewrite target_estimate_loop_paused.
  - now rewrite target_estimate_failed_loop_paused.
Qed.

Lemma source_estimate_pass_paused (env : Env) (schema : pystr) d :
  map paused (snd (_update_single_schema_source env schema d true)) =
  map paused d.
Proof.
  assert (Hmark : map paused (map_values mark_source_updating_estimate d) =
                  map paused d).
  { apply map_values_paused. intros t. unfold mark_source_updating_estimate.
    destruct (source_updating t); reflexivity. }
  unfold _update_single_schema_source.
  destruct (stop_event_is_set env 0); [reflexivity|].
  destruct (connect_source env schema); cbn [negb]; [|reflexivity].
  destruct (stop_event_is_set env 1); [reflexivity|].
  destruct (call_from_thread_raises env).
  { cbn [snd]. rewrite map_values_paused; [exact Hmark|].
    intros t. unfold unmark_source_updating.
    destruct (source_updating t); reflexivity. }
  destruct d as [|x d]; [reflexivity|].
  destruct (unique_names _); [exact Hmark|].
  destruct (source_stats_in env schema _);
    now rewrite source_estimate_loop_paused.
Qed.

Lemma target_exact_step_paused (env : Env) (schema name : pystr) t :
  let a := snd (target_exact_step env schema
                  (name, mark_target_updating t)) in
  (pause_auto_refresh t = true -> pause_auto_refresh a = true) /\
  (pause_auto_refresh t = false -> pause_auto_refresh a = true ->
     is_consistent a = true /\ target_is_estimated a = false /\
     target_last_updated a = now env /\
     target_count env schema name <> QRaise) /\
  (target_count env schema name <> QRaise ->
     is_consistent a = true -> pause_auto_refresh a = true).
Proof.
  unfold target_exact_step. cbn [fst snd].
  destruct (mark_target_updating_fields t) as (Hs & Hp).
  assert (Hok : forall v,
    let a := apply_target_exact (now env) v (mark_target_updating t) in
    (pause_auto_refresh t = true -> pause_auto_refresh a = true) /\
    (pause_auto_refresh t = false -> pause_auto_refresh a = true ->
       is_consistent a = true /\ target_is_estimated a = false /\
       target_last_updated a = now env) /\
    (is_consistent a = true -> pause_auto_refresh a = true)).
  { intros v a.
    destruct (apply_target_exact_fields (now env) v (mark_target_updating t))
      as (Ht & Hsr & _ & He & Hl & Hpa).
    fold a in Ht, Hsr, He, Hl, Hpa. unfold is_consistent.
    rewrite Hpa, Ht, Hsr, Hp.
    split; [intros ->; reflexivity|]. split.
    - intros -> H. cbn in H. auto.
    - intros ->. apply orb_true_r. }
  destruct (target_count env schema name) as [| |n].
  - destruct (apply_target_exact_failed_fields (now env)
                (mark_target_updating t)) as (_ & Hpa).
    rewrite Hpa, Hp. repeat split; try congruence.
  - destruct (Hok 0) as (H1 & H2 & H3). repeat split; auto;
      try apply H2; auto; discriminate.
  - destruct (Hok (Z.of_N n)) as (H1 & H2 & H3). repeat split; auto;
      try apply H2; auto; discriminate.
Qed.

Lemma source_exact_step_paused (env : Env) (schema name : pystr) t :
  let a := snd (source_exact_step env schema
                  (name, mark_source_updating t)) in
  (pause_auto_refresh t = true -> pause_auto_refresh a = true) /\
  (pause_auto_refresh t = false -> pause_auto_refresh a = true ->
     is_consistent a = true /\ source_is_estimated a = false /\
     source_last_updated a = now env) /\
  (is_consistent a = true -> pause_auto_refresh a = true).
Proof.
  unfold source_exact_step. cbn [fst snd].
  destruct (mark_source_updating_fields t) as (_ & _ & Htr & Hp).
  set (v := sum_of_counts env schema (source_tables (mark_source_updating t))).
  destruct (apply_source_exact_fields (now env) v (mark_source_updating t))
    as (_ & Hsr & Ht & _ & He & Hl & Hpa).
  unfold is_consistent. rewrite Hpa, Ht, Hsr, Hp.
  split; [intros ->; reflexivity|]. split.
  - intros -> H. cbn in H. auto.
  - intros ->. apply orb_true_r.
Qed.

(** C8, as amended: in the two per-schema passes [pause_auto_refresh] is
    never reset, and it is set exactly where an exact count has just been
    stored and the record is then consistent, on the target side and on
    the source side alike; the estimate mode of either pass leaves the flag
    of every record as it was, and so does the target block for a failed
    count. *)
Theorem pause_set_by_exact_updates (env : Env) (schema : pystr)
    (d : dict TableInfo) :
  map paused (snd (_update_single_schema_target env schema d true)) =
    map paused d /\
  map paused (snd (_update_single_schema_source env schema d true)) =
    map paused d /\
  Forall2
    (fun before after =>
       (paused before = true -> paused after = true) /\
       (paused before = false -> paused after = true ->
          is_consistent (snd after) = true /\
          target_is_estimated (snd after) = false /\
          target_last_updated (snd after) = now env /\
          target_count env schema (fst before) <> QRaise))
    d (snd (_update_single_schema_target env schema d false)) /\
  Forall2
    (fun before after =>
       (paused before = true -> paused after = true) /\
       (paused before = false -> paused after = true ->
          is_consistent (snd after) = true /\
          source_is_estimated (snd after) = false /\
          source_last_updated (snd after) = now env))
    d (snd (_update_single_schema_source env schema d false)) /\
  (fst (_update_single_schema_target env schema d false) = true ->
   Forall2
     (fun before after =>
        target_count env schema (fst before) <> QRaise ->
        is_consistent (snd after) = true -> paused after = true)
     d (snd (_update_single_schema_target env schema d false))) /\
  (fst (_update_single_schema_source env schema d false) = true ->
   Forall2
     (fun before after =>
        is_consistent (snd after) = true -> paused after = true)
     d (snd (_update_single_schema_source env schema d false))).
Proof.
  split; [apply target_estimate_pass_paused|].
  split; [apply source_estimate_pass_paused|].
  split; [|split; [|split]].
  - apply target_exact_pass_Forall2; intros [name t]; unfold paused;
      try (split; [auto | intros; congruence]);
      destruct (target_exact_step_paused env schema name t)
        as (H1 & H2 & _);
      unfold on_value; cbn [fst snd] in *;
      cbn [pause_auto_refresh is_consistent target_is_estimated
           target_last_updated target_rows source_rows set_target_updating];
      split; auto.
    + unfold mark_target_updating. destruct (target_updating t); auto.
    + unfold mark_target_updating.
      destruct (target_updating t); cbn; intros; congruence.
  - apply source_exact_pass_Forall2; intros [name t]; unfold paused;
      try (split; [auto | intros; congruence]);
      destruct (source_exact_step_paused env schema name t)
        as (H1 & H2 & _);
      unfold on_value; cbn [fst snd] in *;
      cbn [pause_auto_refresh is_consistent source_is_estimated
           source_last_updated target_rows source_rows set_source_updating];
      split; auto.
    + unfold mark_source_updating. destruct (source_updating t); auto.
    + unfold mark_source_updating.
      destruct (source_updating t); cbn; intros; congruence.
  - destruct (target_exact_pass_cases env schema d) as [E|[E|(n & E)]];
      rewrite E; cbn [fst snd]; try discriminate.
    intros _. apply Forall2_map_right. intros [name t]. unfold paused.
    destruct (target_exact_step_paused env schema name t) as (_ & _ & H3).
    exact H3.
  - destruct (source_exact_pass_cases env schema d) as [E|[E|(n & E)]];
      rewrite E; cbn [fst snd]; try discriminate.
    intros _. apply Forall2_map_right. intros [name t]. unfold paused.
    destruct (source_exact_step_paused env schema name t) as (_ & _ & H3).
    exact H3.
Qed.

Lemma pause_set_by_exact_updates_witness :
  Forall2
    (fun before after =>
       target_count agreeing_env db (fst before) <> QRaise ->
       is_consistent (snd after) = true -> paused after = true)
    users_tables
    (snd (_update_single_schema_target agreeing_env db users_tables false))
  /\
  Forall2
    (fun before after =>
       is_consistent (snd after) = true -> paused after = true)
    users_tables
    (snd (_update_single_schema_source agreeing_env db users_tables false)).
Proof.
  destruct (pause_set_by_exact_updates agreeing_env db users_tables)
    as (_ & _ & _ & _ & Ht & Hs).
  split; [apply Ht|apply Hs]; reflexivity.
Defined.

(** C8, as stated, fails: an exact source pass that finds the source at the
    count of the target sets [pause_auto_refresh]. *)
Lemma source_exact_pass_sets_pause :
  map paused users_tables = [false] /\
  map paused
      (snd (_update_single_schema_source agreeing_env db users_tables false))
    = [true].
Proof. split; reflexivity. Qed.

(** ** The reverse mapping *)

Lemma mem_In (x : pystr) (l : list pystr) : mem x l = true <-> In x l.
Proof.
  unfold mem. rewrite existsb_exists. split.
  - intros (y & Hy & E). apply pystr_eqb_eq in E. now subst.
  - intros H. exists x. split; [assumption|apply pystr_eqb_refl].
Qed.

Lemma collect_mapped_acc (t : pystr) srcs : forall acc x,
  In x acc -> In x (collect_mapped t srcs acc).
Proof.
  induction srcs as [|s srcs IH]; intros acc x Hx; cbn; [assumption|].
  destruct (pystr_eqb (get_target_table_name s) t); [|now apply IH].
  destruct (mem s acc); cbn; apply IH; [assumption|].
  apply in_or_app. now left.
Qed.

Lemma collect_mapped_In (t : pystr) srcs : forall acc s,
  In s srcs -> get_target_table_name s = t ->
  In s (collect_mapped t srcs acc).
Proof.
  induction srcs as [|s0 srcs IH]; intros acc s Hin Hmap; [destruct Hin|].
  cbn. destruct Hin as [->|Hin].
  - rewrite Hmap, pystr_eqb_refl.
    destruct (mem s acc) eqn:M; cbn; apply collect_mapped_acc.
    + now apply mem_In.
    + apply in_or_app. right. now left.
  - destruct (pystr_eqb (get_target_table_name s0) t); [|now apply IH].
    destruct (mem s0 acc); cbn; now apply IH.
Qed.

Lemma collect_mapped_none (t : pystr) srcs : forall acc,
  (forall s, In s srcs -> get_target_table_name s <> t) ->
  collect_mapped t srcs acc = acc.
Proof.
  induction srcs as [|s srcs IH]; intros acc H; [reflexivity|].
  cbn. replace (pystr_eqb (get_target_table_name s) t) with false.
  - apply IH. intros s' Hs'. apply H. now right.
  - symmetry. apply pystr_eqb_neq, H. now left.
Qed.

Lemma reverse_mapping_of_collected (t : pystr) srcs x :
  In x (collect_mapped t srcs
          (if mem t srcs then [t] else [])) ->
  In x (reverse_mapping t srcs).
Proof.
  unfold reverse_mapping.
  destruct (collect_mapped t srcs (if mem t srcs then [t] else []));
    [intros []|auto].
Qed.

Lemma initialize_schema_values now schema srcs : forall tnames acc ti,
  (forall x, In x (values acc) ->
     source_tables x = reverse_mapping (target_table_name x) srcs) ->
  In ti (values
           (fold_left
              (fun target_tables target_table =>
                 dict_set target_tables target_table
                   (set_source_tables (reverse_mapping target_table srcs)
                      (new_table_info now schema target_table)))
              tnames acc)) ->
  source_tables ti = reverse_mapping (target_table_name ti) srcs.
Proof.
  induction tnames as [|t tnames IH]; intros acc ti Hacc; cbn.
  - apply Hacc.
  - apply IH. intros x Hx.
    apply values_dict_set_In in Hx as [->|Hx]; [reflexivity|now apply Hacc].
Qed.

(** C5: the reverse mapping of a target table [t] holds every listed source
    name [s] with [s = t] or [get_target_table_name s = t]; it is [[t]]
    when no listed source name is [t] or maps to [t]; it is never empty;
    a name alone always maps back to itself; and these are the
    [source_tables] of every record the initialization creates. *)
Theorem reverse_mapping_complete (t : pystr) (source_table_names : list pystr) :
  (forall s, In s source_table_names ->
     s = t \/ get_target_table_name s = t ->
     In s (reverse_mapping t source_table_names)) /\
  ((forall s, In s source_table_names ->
      s <> t /\ get_target_table_name s <> t) ->
   reverse_mapping t source_table_names = [t]) /\
  reverse_mapping t source_table_names <> [] /\
  (forall s, In s (reverse_mapping (get_target_table_name s) [s])) /\
  (forall now schema target_table_names ti,
     In ti (values (initialize_schema now schema target_table_names
                      source_table_names)) ->
     source_tables ti =
       reverse_mapping (target_table_name ti) source_table_names /\
     source_tables ti <> []).
Proof.
  assert (Hne : forall t' srcs, reverse_mapping t' srcs <> []).
  { intros t' srcs. unfold reverse_mapping.
    destruct (collect_mapped t' srcs _); discriminate. }
  assert (Hin : forall t' srcs s, In s srcs ->
            s = t' \/ get_target_table_name s = t' ->
            In s (reverse_mapping t' srcs)).
  { intros t' srcs s Hs [->|Hmap]; apply reverse_mapping_of_collected.
    - apply collect_mapped_acc.
      replace (mem t' srcs) with true; [now left|].
      symmetry. now apply mem_In.
    - now apply collect_mapped_In. }
  split; [apply Hin|]. split; [|split; [apply Hne|split]].
  - intros H. unfold reverse_mapping.
    rewrite collect_mapped_none by (intros s Hs; now apply H).
    destruct (mem t source_table_names) eqn:M; [|reflexivity].
    apply mem_In in M. now destruct (H t M).
  - intros s. apply Hin; [now left|now right].
  - intros now schema tnames ti Hti.
    assert (E : source_tables ti =
                reverse_mapping (target_table_name ti) source_table_names).
    { revert Hti. unfold initialize_schema.
      apply initialize_schema_values. intros x []. }
    split; [exact E|]. rewrite E. apply Hne.
Qed.

Lemma reverse_mapping_complete_witness :
  In (py "orders_123456789") (reverse_mapping orders scenario_sources) /\
  reverse_mapping payments scenario_sources = [payments] /\
  (forall ti,
     In ti (values (initialize_schema 0 db [orders; payments]
                      scenario_sources)) ->
     source_tables ti =
       reverse_mapping (target_table_name ti) scenario_sources /\
     source_tables ti <> []).
Proof.
  split; [|split].
  - apply (reverse_mapping_complete orders scenario_sources).
    + cbn. auto.
    + right. vm_compute. reflexivity.
  - apply (reverse_mapping_complete payments scenario_sources).
    intros s [<-|[<-|[<-|[]]]]; split; intros E; vm_compute in E;
      discriminate.
  - intros ti Hti.
    now apply (reverse_mapping_complete orders scenario_sources)
      with 0 db [orders; payments].
Defined.

Example scenario_reverse_mapping :
  reverse_mapping orders scenario_sources =
    [py "orders_123456789";
     py "orders_05355967-c503-4a2d-9dd1-2dd7a9ffa15e"].
Proof. vm_compute. reflexivity. Qed.

(** ** The name mapping: strings *)

Lemma firstn_is_prefix (n : nat) (s : pystr) : is_prefix (firstn n s) s.
Proof. exists (skipn n s). symmetry. apply firstn_skipn. Qed.

Lemma no_newline_app (a b : pystr) :
  no_newline (a ++ b) <-> no_newline a /\ no_newline b.
Proof.
  unfold no_newline. rewrite in_app_iff. tauto.
Qed.

Lemma no_newline_skipn (n : nat) (s : pystr) :
  no_newline s -> no_newline (skipn n s).
Proof.
  intros H. rewrite <- (firstn_skipn n s) in H.
  now apply no_newline_app in H.
Qed.

Lemma dollar_splits_no_newline (s : pystr) :
  no_newline s -> dollar_splits s = [(s, [])].
Proof.
  intros H. unfold dollar_splits.
  destruct (rev s) as [|c r] eqn:E; [reflexivity|].
  destruct (Ascii.eqb c newline) eqn:Ec; [|reflexivity].
  apply Ascii.eqb_eq in Ec. subst c. exfalso. apply H.
  apply in_rev. rewrite E. now left.
Qed.

Lemma fullmatch_length (p : pattern) : forall s,
  fullmatch p s = true -> length s = length p.
Proof.
  induction p as [|c p IH]; intros [|x s]; cbn; try discriminate; auto.
  intros H. apply andb_true_iff in H as [_ H]. f_equal. now apply IH.
Qed.

Lemma fullmatch_repeat (c : charclass) (n : nat) : forall s,
  fullmatch (repeat c n) s = true -> forallb c s = true.
Proof.
  induction n as [|n IH]; intros [|x s]; cbn; try discriminate; auto.
  intros H. apply andb_true_iff in H as [Hx H]. rewrite Hx. now apply IH.
Qed.

(** On a name without line feed, [$] is the end of the name. *)
Lemma re_sub_end_no_newline (p : pattern) (s : pystr) :
  no_newline s ->
  re_found (re_search_end p s) = ends_fullmatch p s /\
  (ends_fullmatch p s = true ->
   re_sub_end p s = firstn (length s - length p) s /\
   fullmatch p (skipn (length s - length p) s) = true).
Proof.
  intros H. unfold re_sub_end, re_search_end.
  rewrite dollar_splits_no_newline by assumption. cbn [find fst].
  destruct (ends_fullmatch p s) eqn:E; cbn; split; auto; try discriminate.
  intros _. rewrite app_nil_r. split; [reflexivity|].
  unfold ends_fullmatch in E. now apply andb_true_iff in E.
Qed.

Lemma re_match_dotstar_end_no_newline (p : pattern) (s : pystr) :
  no_newline s -> re_match_dotstar_end p s = true ->
  ends_fullmatch p s = true.
Proof.
  intros H. unfold re_match_dotstar_end.
  rewrite dollar_splits_no_newline by assumption. cbn.
  rewrite orb_false_r. intros E. now apply andb_true_iff in E.
Qed.

Lemma re_match_whole_no_newline (p : pattern) (s : pystr) :
  no_newline s -> re_match_whole p s = fullmatch p s.
Proof.
  intros H. unfold re_match_whole.
  rewrite dollar_splits_no_newline by assumption. cbn. apply orb_false_r.
Qed.

(** A string as long as the pattern matches it whole or not at all: the
    place before a final line feed is one character short. *)
Lemma re_match_whole_same_length (p : pattern) (s : pystr) :
  length s = length p -> re_match_whole p s = true -> fullmatch p s = true.
Proof.
  intros Hlen. unfold re_match_whole, dollar_splits.
  destruct (rev s) as [|c r] eqn:E;
    [cbn [existsb fst]; now rewrite orb_false_r|].
  destruct (Ascii.eqb c newline); cbn [existsb fst];
    rewrite ?orb_false_r; auto.
  intros H. apply orb_true_iff in H as [H|H]; [|assumption].
  apply fullmatch_length in H. rewrite length_rev in H.
  assert (length s = S (length r))
    by (rewrite <- (rev_involutive s), E, length_rev; reflexivity).
  lia.
Qed.

Lemma rfind_from_spec (c : ascii) : forall s i last,
  rfind_from c s i last = last \/
  exists j, rfind_from c s i last = (i + Z.of_nat j)%Z /\
            nth_error s j = Some c.
Proof.
  induction s as [|x s IH]; intros i last; cbn; [now left|].
  destruct (Ascii.eqb x c) eqn:E.
  - apply Ascii.eqb_eq in E. subst x.
    destruct (IH (i + 1)%Z i) as [->|(j & -> & Hj)].
    + right. exists 0%nat. split; [lia|reflexivity].
    + right. exists (S j). split; [lia|assumption].
  - destruct (IH (i + 1)%Z last) as [->|(j & -> & Hj)]; [now left|].
    right. exists (S j). split; [lia|assumption].
Qed.

Lemma rfind_positive (c : ascii) (s : pystr) :
  (0 < rfind c s)%Z -> nth_error s (Z.to_nat (rfind c s)) = Some c.
Proof.
  unfold rfind. intros H.
  destruct (rfind_from_spec c s 0 (-1)) as [E|(j & E & Hj)].
  - rewrite E in H. lia.
  - rewrite E. cbn. now rewrite Nat2Z.id.
Qed.

Lemma skipn_nth_error {A} (l : list A) : forall n x,
  nth_error l n = Some x -> skipn n l = x :: skipn (S n) l.
Proof.
  induction l as [|y l IH]; intros [|n] x; cbn; try discriminate.
  - now intros [= ->].
  - intros H. now apply IH.
Qed.

Lemma split_not_nil (sep : ascii) (s : pystr) : split sep s <> [].
Proof.
  destruct s as [|c r]; cbn; [discriminate|].
  destruct (Ascii.eqb c sep); [discriminate|].
  destruct (split sep r); discriminate.
Qed.

Lemma join_cons (sep p : pystr) (rest : list pystr) :
  rest <> [] -> join sep (p :: rest) = p ++ sep ++ join sep rest.
Proof. destruct rest; [congruence|reflexivity]. Qed.

Lemma join_split (sep : ascii) : forall s, join [sep] (split sep s) = s.
Proof.
  induction s as [|c r IH]; [reflexivity|].
  cbn [split]. destruct (Ascii.eqb c sep) eqn:E.
  - apply Ascii.eqb_eq in E. subst c.
    rewrite join_cons by apply split_not_nil. cbn. now rewrite IH.
  - pose proof (split_not_nil sep r) as Hne.
    destruct (split sep r) as [|h t]; [congruence|].
    destruct t as [|h' t].
    + cbn in *. now rewrite IH.
    + rewrite <- IH. reflexivity.
Qed.

Lemma join_firstn_skipn (sep : pystr) : forall parts j,
  (0 < j < length parts)%nat ->
  join sep parts =
    join sep (firstn j parts) ++ sep ++ join sep (skipn j parts).
Proof.
  induction parts as [|p rest IH]; intros j Hj; cbn in Hj; [lia|].
  destruct j as [|j]; [lia|].
  assert (Hrest : rest <> []) by (destruct rest; cbn in Hj; [lia|discriminate]).
  rewrite join_cons by assumption.
  destruct j as [|j].
  - reflexivity.
  - cbn [firstn skipn].
    assert (Hf : firstn (S j) rest <> [])
      by (destruct rest; [congruence|discriminate]).
    rewrite join_cons by assumption.
    rewrite (IH (S j)) by lia. now rewrite <- !app_assoc.
Qed.

(** ** The name mapping: one suffix per call *)

Lemma scan_uuid_parts_spec (s : pystr) (parts : list pystr) : forall i,
  scan_uuid_parts s parts i = s \/
  exists j, (1 <= j <= i)%nat /\
    scan_uuid_parts s parts i = join [underscore] (firstn j parts) /\
    length (remove_separators (join [underscore] (skipn j parts))) = 32%nat /\
    re_match_whole (hexes 32)
      (remove_separators (join [underscore] (skipn j parts))) = true.
Proof.
  induction i as [|i IH]; [now left|].
  cbn [scan_uuid_parts].
  destruct ((length (remove_separators
                       (join [underscore] (skipn (S i) parts))) =? 32)%nat
            && re_match_whole (hexes 32)
                 (remove_separators
                    (join [underscore] (skipn (S i) parts)))) eqn:E.
  - right. exists (S i). apply andb_true_iff in E as [El Em].
    apply Nat.eqb_eq in El. repeat split; auto; lia.
  - destruct (32 <? length (remove_separators
                              (join [underscore] (skipn (S i) parts))))%nat;
      [now left|].
    destruct IH as [->|(j & Hj & -> & Hl & Hm)]; [now left|].
    right. exists j. repeat split; auto; lia.
Qed.

Lemma extract_uuid_spec (s : pystr) :
  no_newline s ->
  _extract_table_name_from_uuid s = s \/
  exists suf, s = _extract_table_name_from_uuid s ++ suf /\
              uuid_suffix suf = true.
Proof.
  intros Hnl. unfold _extract_table_name_from_uuid.
  destruct (is_empty s || negb (contains underscore s)); [now left|].
  destruct (@re_sub_end_no_newline pattern1 s Hnl) as [-> H1].
  destruct (ends_fullmatch pattern1 s).
  { right. destruct (H1 eq_refl) as [-> Hm].
    exists (skipn (length s - length pattern1) s).
    split; [symmetry; apply firstn_skipn|].
    unfold uuid_suffix. now rewrite Hm. }
  destruct (@re_sub_end_no_newline pattern2 s Hnl) as [-> H2].
  destruct (ends_fullmatch pattern2 s).
  { right. destruct (H2 eq_refl) as [-> Hm].
    exists (skipn (length s - length pattern2) s).
    split; [symmetry; apply firstn_skipn|].
    unfold uuid_suffix. rewrite Hm. now rewrite orb_true_r. }
  destruct (@re_sub_end_no_newline pattern3 s Hnl) as [-> H3].
  destruct (ends_fullmatch pattern3 s).
  { right. destruct (H3 eq_refl) as [-> Hm].
    exists (skipn (length s - length pattern3) s).
    split; [symmetry; apply firstn_skipn|].
    unfold uuid_suffix. rewrite Hm. now rewrite !orb_true_r. }
  cbn zeta.
  destruct (2 <=? length (split underscore s))%nat eqn:E2; [|now left].
  apply Nat.leb_le in E2.
  destruct (scan_uuid_parts_spec s (split underscore s)
              (length (split underscore s) - 1))
    as [->|(j & Hj & -> & Hl & Hm)]; [now left|].
  right.
  exists ([underscore] ++ join [underscore] (skipn j (split underscore s))).
  split.
  - rewrite <- join_firstn_skipn by lia. symmetry. apply join_split.
  - unfold uuid_suffix, mixed_uuid_suffix. cbn [app].
    rewrite Hl. cbn [Ascii.eqb Nat.eqb andb].
    apply re_match_whole_same_length in Hm;
      [|rewrite Hl; unfold hexes; now rewrite repeat_length].
    apply fullmatch_repeat in Hm. rewrite Hm.
    replace (Ascii.eqb underscore underscore) with true by reflexivity.
    now rewrite !orb_true_r.
Qed.

Lemma runtime_case (s : pystr) :
  endswith s (py "_runtime") = true ->
  s = slice_to s (-8) ++ py "_runtime".
Proof.
  unfold endswith, slice_to, slice_bound. intros H.
  apply andb_true_iff in H as [_ H]. apply pystr_eqb_eq in H.
  change (length (py "_runtime")) with 8%nat in H.
  change (-8 <? 0)%Z with true. cbn iota.
  transitivity (firstn (length s - 8) s ++ skipn (length s - 8) s);
    [symmetry; apply firstn_skipn|].
  f_equal; [f_equal; lia|exact H].
Qed.

Lemma numeric_case (s : pystr) :
  no_newline s ->
  (0 <? rfind underscore s)%Z &&
  _is_numeric_suffix (slice_from s (rfind underscore s + 1)) = true ->
  s = slice_to s (rfind underscore s) ++
      skipn (Z.to_nat (rfind underscore s)) s /\
  numeric_suffix (skipn (Z.to_nat (rfind underscore s)) s) = true.
Proof.
  intros Hnl H. apply andb_true_iff in H as [Hpos Hnum].
  apply Z.ltb_lt in Hpos.
  unfold slice_to, slice_from, slice_bound in *.
  replace (rfind underscore s <? 0)%Z with false
    by (symmetry; apply Z.ltb_ge; lia).
  replace (rfind underscore s + 1 <? 0)%Z with false in Hnum
    by (symmetry; apply Z.ltb_ge; lia).
  split; [symmetry; apply firstn_skipn|].
  rewrite (skipn_nth_error _ _ (rfind_positive _ _ Hpos)).
  unfold numeric_suffix. cbn [fullmatch].
  replace (lit underscore underscore) with true by reflexivity.
  cbn [andb]. unfold _is_numeric_suffix in Hnum.
  replace (Z.to_nat (rfind underscore s + 1))
    with (S (Z.to_nat (rfind underscore s))) in Hnum by lia.
  destruct (is_empty _ || is_empty _); [discriminate|].
  rewrite re_match_whole_no_newline in Hnum; [exact Hnum|].
  now apply no_newline_skipn.
Qed.

(** On a name without line feed, a call leaves the name or removes one
    rule suffix from its end. *)
Lemma strips_rule_suffix (s : pystr) :
  no_newline s ->
  get_target_table_name s = s \/
  exists suf, s = get_target_table_name s ++ suf /\ rule_suffix suf = true.
Proof.
  intros Hnl. unfold get_target_table_name.
  destruct (is_empty s || is_empty (strip s)); [now left|].
  destruct (negb (contains underscore s)); [now left|].
  destruct (endswith s (py "_runtime")) eqn:Er.
  { right. exists (py "_runtime"). split; [now apply runtime_case|].
    reflexivity. }
  cbn zeta.
  destruct ((0 <? rfind underscore s)%Z &&
            _is_numeric_suffix (slice_from s (rfind underscore s + 1)))
    eqn:En.
  { right. destruct (@numeric_case s Hnl En) as [Hs Hm].
    exists (skipn (Z.to_nat (rfind underscore s)) s). split; [exact Hs|].
    unfold rule_suffix. rewrite Hm. now rewrite orb_true_r. }
  destruct (re_match_dotstar_end pattern_shard_year s) eqn:Es.
  { right. apply re_match_dotstar_end_no_newline in Es; [|assumption].
    destruct (@re_sub_end_no_newline pattern_shard_year s Hnl) as [_ H].
    destruct (H Es) as [-> Hm].
    exists (skipn (length s - length pattern_shard_year) s).
    split; [symmetry; apply firstn_skipn|].
    unfold rule_suffix, shard_year_suffix. rewrite Hm.
    now rewrite !orb_true_r. }
  destruct (negb (pystr_eqb (_extract_table_name_from_uuid s) s)) eqn:Eu;
    [|now left].
  apply negb_true_iff, pystr_eqb_neq in Eu.
  destruct (@extract_uuid_spec s Hnl) as [E|(suf & Hs & Hm)]; [congruence|].
  right. exists suf. split; [exact Hs|].
  unfold rule_suffix. rewrite Hm. now rewrite !orb_true_r.
Qed.

(** On a name without line feed the result is a prefix of the name. *)
Lemma get_target_table_name_prefix (s : pystr) :
  no_newline s -> is_prefix (get_target_table_name s) s.
Proof.
  intros Hnl. destruct (@strips_rule_suffix s Hnl) as [->|(suf & Hs & _)].
  - exists []. now rewrite app_nil_r.
  - now exists suf.
Qed.

(** One suffix per call: where the call changes a name without line feed,
    the name is the result followed by one rule suffix, and a second call
    changes nothing when the result ends with no rule suffix. *)
Lemma one_suffix_per_call (s : pystr) :
  no_newline s ->
  (get_target_table_name s <> s ->
   exists suffix,
     s = get_target_table_name s ++ suffix /\ rule_suffix suffix = true) /\
  ((forall base suffix,
      get_target_table_name s = base ++ suffix -> rule_suffix suffix = false) ->
   get_target_table_name (get_target_table_name s) = get_target_table_name s).
Proof.
  intros Hnl. split.
  - intros Hne. destruct (@strips_rule_suffix s Hnl) as [E|H];
      [contradiction|exact H].
  - intros Hnone.
    assert (Hnl' : no_newline (get_target_table_name s)).
    { destruct (@get_target_table_name_prefix s Hnl) as (suf & Hs).
      rewrite Hs in Hnl. now apply no_newline_app in Hnl. }
    destruct (@strips_rule_suffix _ Hnl') as [E|(suf & Hs & Hm)];
      [exact E|].
    rewrite (Hnone _ _ Hs) in Hm. discriminate.
Qed.

Lemma no_newline_check (s : pystr) :
  forallb (fun c => negb (Ascii.eqb c newline)) s = true -> no_newline s.
Proof.
  intros H Hin. rewrite forallb_forall in H. specialize (H _ Hin).
  now rewrite Ascii.eqb_refl in H.
Qed.

Lemma fullmatch_lit_head (c : ascii) (p : pattern) (s : pystr) :
  fullmatch (lit c :: p) s = true -> exists r, s = c :: r.
Proof.
  destruct s as [|x r]; cbn; [discriminate|].
  intros H. apply andb_true_iff in H as [H _].
  apply Ascii.eqb_eq in H. subst. now exists r.
Qed.

(** Every rule suffix begins with an underscore. *)
Lemma rule_suffix_head (suf : pystr) :
  rule_suffix suf = true -> exists r, suf = underscore :: r.
Proof.
  unfold rule_suffix, uuid_suffix, runtime_suffix, numeric_suffix,
    shard_year_suffix.
  rewrite !orb_true_iff. intros [[[H|H]|H]|[[[H|H]|H]|H]].
  - apply pystr_eqb_eq in H. subst. now eexists.
  - now apply fullmatch_lit_head in H.
  - now apply fullmatch_lit_head in H.
  - now apply fullmatch_lit_head in H.
  - now apply fullmatch_lit_head in H.
  - now apply fullmatch_lit_head in H.
  - destruct suf as [|c r]; [discriminate|]. cbn in H.
    rewrite !andb_true_iff in H. destruct H as [[H _] _].
    apply Ascii.eqb_eq in H. subst. now exists r.
Qed.

Lemma no_underscore_no_rule_suffix (x : pystr) :
  ~ In underscore x ->
  forall base suffix, x = base ++ suffix -> rule_suffix suffix = false.
Proof.
  intros Hx base suffix E.
  destruct (rule_suffix suffix) eqn:R; [|reflexivity].
  apply rule_suffix_head in R as (r & ->). exfalso. apply Hx.
  rewrite E. apply in_or_app. right. now left.
Qed.

Example mapping_scenario_B :
  get_target_table_name (py "events_runtime") = py "events" /\
  get_target_table_name (py "events_2024") = py "events_2024".
Proof. split; reflexivity. Qed.

Example mapping_uuid_forms :
  get_target_table_name
    (py "order_bom_0e9b60a4_d6ed_473d_a326_9e8c8f744ec2") = py "order_bom" /\
  get_target_table_name
    (py "users_a1b2c3d4-e5f6-7890-abcd-ef1234567890") = py "users" /\
  get_target_table_name
    (py "products_a1b2c3d4e5f67890abcdef1234567890") = py "products" /\
  get_target_table_name
    (py "order_bom_item_05355967_c503_4a2d_9dd1_2dd7a9ffa15e_2030")
    = py "order_bom_item" /\
  get_target_table_name (py "order_bom_item_333367878_2018")
    = py "order_bom_item".
Proof. repeat split; reflexivity. Qed.

(** ** The name mapping: names of the rule forms *)

Lemma lstrip_keeps (c : ascii) : forall s,
  In c s -> is_space c = false -> In c (lstrip s).
Proof.
  induction s as [|x s IH]; intros Hin Hc; [destruct Hin|].
  cbn [lstrip]. destruct (is_space x) eqn:Ex; [|assumption].
  destruct Hin as [->|Hin]; [congruence|now apply IH].
Qed.

Lemma strip_keeps (c : ascii) (s : pystr) :
  In c s -> is_space c = false -> In c (strip s).
Proof.
  intros Hin Hc. unfold strip. apply -> in_rev.
  apply lstrip_keeps; [|assumption]. apply -> in_rev.
  now apply lstrip_keeps.
Qed.

Lemma contains_In (c : ascii) (s : pystr) : contains c s = true <-> In c s.
Proof.
  unfold contains. rewrite existsb_exists. split.
  - intros (x & Hx & E). apply Ascii.eqb_eq in E. now subst.
  - intros H. exists c. split; [assumption|apply Ascii.eqb_refl].
Qed.

(** A name with an underscore passes the two entry tests. *)
Lemma entry_tests_pass (s : pystr) :
  In underscore s ->
  is_empty s || is_empty (strip s) = false /\
  negb (contains underscore s) = false.
Proof.
  intros H. split.
  - apply orb_false_iff. split.
    + destruct s; [destruct H|reflexivity].
    + pose proof (strip_keeps _ _ H eq_refl) as Hs.
      destruct (strip s); [destruct Hs|reflexivity].
  - apply negb_false_iff. now apply contains_In.
Qed.

Lemma skipn_length_app {A} (a b : list A) :
  skipn (length a) (a ++ b) = b.
Proof. induction a; cbn; auto. Qed.

Lemma firstn_length_app {A} (a b : list A) :
  firstn (length a) (a ++ b) = a.
Proof. induction a; cbn; [now destruct b|now f_equal]. Qed.

(** The runtime rule: a name that ends with [_runtime] loses it. *)
Lemma runtime_rule (base : pystr) :
  get_target_table_name (base ++ py "_runtime") = base.
Proof.
  unfold get_target_table_name.
  destruct (entry_tests_pass (base ++ py "_runtime")) as [-> ->].
  { apply in_or_app. right. now left. }
  assert (Hlen : (length (base ++ py "_runtime") - 8 = length base)%nat).
  { rewrite length_app. change (length (py "_runtime")) with 8%nat. lia. }
  replace (endswith (base ++ py "_runtime") (py "_runtime")) with true.
  - unfold slice_to, slice_bound. change (-8 <? 0)%Z with true. cbn iota.
    replace (Z.to_nat (Z.of_nat (length (base ++ py "_runtime")) + -8))
      with (length base) by lia.
    apply firstn_length_app.
  - symmetry. unfold endswith. apply andb_true_iff. split.
    + apply Nat.leb_le. rewrite length_app. lia.
    + change (length (py "_runtime")) with 8%nat. rewrite Hlen.
      rewrite skipn_length_app. apply pystr_eqb_refl.
Qed.

Lemma is_digit_not_space (c : ascii) : is_digit c = true -> is_space c = false.
Proof.
  destruct c as [[] [] [] [] [] [] [] []]; cbn; intros H;
    try reflexivity; discriminate H.
Qed.

Lemma digits_no_underscore (d : pystr) :
  forallb is_digit d = true -> ~ In underscore d.
Proof.
  intros H Hin. rewrite forallb_forall in H. now apply H in Hin.
Qed.

Lemma rfind_from_app (c : ascii) : forall a b i last,
  rfind_from c (a ++ b) i last =
  rfind_from c b (i + Z.of_nat (length a))%Z (rfind_from c a i last).
Proof.
  induction a as [|x a IH]; intros b i last; cbn [app rfind_from length].
  - now rewrite Z.add_0_r.
  - rewrite IH. f_equal. lia.
Qed.

Lemma rfind_from_absent (c : ascii) : forall d i last,
  ~ In c d -> rfind_from c d i last = last.
Proof.
  induction d as [|x d IH]; intros i last H; [reflexivity|].
  cbn [rfind_from]. destruct (Ascii.eqb x c) eqn:E.
  - apply Ascii.eqb_eq in E. subst. exfalso. apply H. now left.
  - apply IH. intros Hin. apply H. now right.
Qed.

(** The last underscore of [base ++ "_" ++ d], with no underscore in [d]. *)
Lemma rfind_last_underscore (base d : pystr) :
  ~ In underscore d ->
  rfind underscore (base ++ underscore :: d) = Z.of_nat (length base).
Proof.
  intros H. unfold rfind. rewrite rfind_from_app. cbn [rfind_from].
  rewrite Ascii.eqb_refl. now rewrite rfind_from_absent.
Qed.

Lemma endswith_app_right (a b suf : pystr) :
  (length suf <= length b)%nat ->
  endswith (a ++ b) suf = endswith b suf.
Proof.
  intros H. unfold endswith. rewrite length_app.
  replace (length a + length b - length suf)%nat
    with (length a + (length b - length suf))%nat by lia.
  rewrite skipn_app, skipn_all2 by lia.
  replace (length a + (length b - length suf) - length a)%nat
    with (length b - length suf)%nat by lia.
  cbn [app]. f_equal.
  apply Bool.eq_true_iff_eq. rewrite !Nat.leb_le. lia.
Qed.

Lemma endswith_last (s suf : pystr) (c : ascii) :
  endswith s (suf ++ [c]) = true -> exists s', s = s' ++ [c].
Proof.
  unfold endswith. intros H. apply andb_true_iff in H as [_ H].
  apply pystr_eqb_eq in H.
  set (n := (length s - length (suf ++ [c]))%nat) in *.
  exists (firstn n s ++ suf).
  rewrite <- app_assoc. rewrite <- (firstn_skipn n s) at 1.
  f_equal. exact H.
Qed.

(** A name whose last character is a digit does not end with [_runtime]. *)
Lemma digit_end_not_runtime (s : pystr) (c : ascii) :
  is_digit c = true -> endswith (s ++ [c]) (py "_runtime") = false.
Proof.
  intros Hc. destruct (endswith (s ++ [c]) (py "_runtime")) eqn:E;
    [|reflexivity].
  apply (endswith_last _ (py "_runtim")) in E as (s' & E).
  apply app_inj_tail in E as [_ ->]. discriminate Hc.
Qed.

Lemma fullmatch_re_match_whole (p : pattern) (s : pystr) :
  fullmatch p s = true -> re_match_whole p s = true.
Proof.
  intros H. unfold re_match_whole, dollar_splits.
  destruct (rev s) as [|c r]; [cbn; now rewrite H|].
  destruct (Ascii.eqb c newline); cbn [existsb fst]; rewrite H;
    now rewrite ?orb_true_r.
Qed.

(** Nine digits are a numeric suffix. *)
Lemma nine_digits_numeric (d : pystr) :
  fullmatch (digits 9) d = true -> _is_numeric_suffix d = true.
Proof.
  intros H. unfold _is_numeric_suffix.
  pose proof (fullmatch_repeat _ _ _ H) as Hall.
  pose proof (fullmatch_length _ _ H) as Hlen.
  destruct d as [|c d]; [discriminate|].
  cbn in Hall. apply andb_true_iff in Hall as [Hc _].
  assert (Hin : In c (strip (c :: d))).
  { apply strip_keeps; [now left|now apply is_digit_not_space]. }
  destruct (strip (c :: d)); [destruct Hin|]. cbn [is_empty orb].
  now apply fullmatch_re_match_whole.
Qed.

(** The numeric rule: [_] and nine digits after a base that is not empty
    are removed. *)
Lemma numeric_rule (base d : pystr) :
  base <> [] -> fullmatch (digits 9) d = true ->
  get_target_table_name (base ++ underscore :: d) = base.
Proof.
  intros Hbase Hd.
  pose proof (fullmatch_repeat _ _ _ Hd) as Hall.
  pose proof (fullmatch_length _ _ Hd) as Hlen.
  unfold digits in Hlen. rewrite repeat_length in Hlen.
  unfold get_target_table_name.
  destruct (entry_tests_pass (base ++ underscore :: d)) as [-> ->].
  { apply in_or_app. right. now left. }
  replace (endswith (base ++ underscore :: d) (py "_runtime")) with false.
  2:{ destruct (exists_last (l := d)) as (l' & c & E);
        [intros ->; discriminate Hlen|].
      assert (Hc : is_digit c = true).
      { rewrite forallb_forall in Hall. apply Hall. rewrite E.
        apply in_or_app. right. now left. }
      rewrite E. change (underscore :: l' ++ [c])
        with ((underscore :: l') ++ [c]).
      rewrite app_assoc. symmetry. now apply digit_end_not_runtime. }
  cbn zeta.
  rewrite rfind_last_underscore by now apply digits_no_underscore.
  replace (0 <? Z.of_nat (length base))%Z with true
    by (symmetry; apply Z.ltb_lt; destruct base; [congruence|cbn; lia]).
  unfold slice_from, slice_to, slice_bound.
  replace (Z.of_nat (length base) + 1 <? 0)%Z with false
    by (symmetry; apply Z.ltb_ge; lia).
  replace (Z.of_nat (length base) <? 0)%Z with false
    by (symmetry; apply Z.ltb_ge; lia).
  replace (Z.to_nat (Z.of_nat (length base) + 1)) with (S (length base))
    by lia.
  rewrite Nat2Z.id.
  replace (skipn (S (length base)) (base ++ underscore :: d)) with d.
  2:{ change (underscore :: d) with ([underscore] ++ d).
      rewrite app_assoc.
      replace (S (length base)) with (length (base ++ [underscore]))
        by (rewrite length_app; cbn; lia).
      now rewrite skipn_length_app. }
  rewrite nine_digits_numeric by assumption. cbn [andb].
  apply firstn_length_app.
Qed.

Lemma fullmatch_app (p1 p2 : pattern) : forall s1 s2,
  fullmatch p1 s1 = true -> fullmatch p2 s2 = true ->
  fullmatch (p1 ++ p2) (s1 ++ s2) = true.
Proof.
  induction p1 as [|c p1 IH]; intros [|x s1] s2; cbn; try discriminate; auto.
  intros H1 H2. apply andb_true_iff in H1 as [-> H1]. now apply IH.
Qed.

Lemma ends_fullmatch_app (p : pattern) (base suf : pystr) :
  fullmatch p suf = true ->
  ends_fullmatch p (base ++ suf) = true /\
  firstn (length (base ++ suf) - length p) (base ++ suf) = base.
Proof.
  intros H. pose proof (fullmatch_length _ _ H) as Hlen.
  unfold ends_fullmatch. rewrite length_app, <- Hlen.
  replace (length base + length suf - length suf)%nat with (length base)
    by lia.
  rewrite skipn_length_app, firstn_length_app, H. split; [|reflexivity].
  apply andb_true_iff. split; [apply Nat.leb_le; lia|reflexivity].
Qed.

Lemma re_match_whole_length (p : pattern) (s : pystr) :
  re_match_whole p s = true ->
  length s = length p \/ length s = S (length p).
Proof.
  unfold re_match_whole, dollar_splits.
  destruct (rev s) as [|c r] eqn:E.
  - cbn. rewrite orb_false_r. intros H. left. now apply fullmatch_length.
  - assert (Hs : length s = S (length r))
      by (rewrite <- (rev_involutive s), E, length_rev; reflexivity).
    destruct (Ascii.eqb c newline); cbn [existsb fst];
      rewrite ?orb_false_r; intros H.
    + apply orb_true_iff in H as [H|H]; apply fullmatch_length in H.
      * right. rewrite length_rev in H. lia.
      * now left.
    + left. now apply fullmatch_length.
Qed.

Lemma digits_no_newline (d : pystr) :
  forallb is_digit d = true -> no_newline d.
Proof.
  intros H Hin. rewrite forallb_forall in H. now apply H in Hin.
Qed.

Lemma no_newline_forallb (s : pystr) :
  no_newline s -> forallb (fun c => negb (Ascii.eqb c newline)) s = true.
Proof.
  intros H. apply forallb_forall. intros c Hc. apply negb_true_iff.
  apply Ascii.eqb_neq. intros ->. now apply H.
Qed.

(** The shard-and-year rule: [_], nine digits, [_] and four digits are
    removed from a name without line feed. *)
Lemma shard_year_rule (base d9 d4 : pystr) :
  no_newline base ->
  fullmatch (digits 9) d9 = true -> fullmatch (digits 4) d4 = true ->
  get_target_table_name (base ++ underscore :: d9 ++ underscore :: d4)
    = base.
Proof.
  intros Hbase H9 H4.
  pose proof (fullmatch_repeat _ _ _ H9) as Hall9.
  pose proof (fullmatch_repeat _ _ _ H4) as Hall4.
  pose proof (fullmatch_length _ _ H4) as Hlen4.
  unfold digits in Hlen4. rewrite repeat_length in Hlen4.
  set (suf := underscore :: d9 ++ underscore :: d4).
  assert (Hsuf : fullmatch pattern_shard_year suf = true).
  { unfold pattern_shard_year, suf. cbn [fullmatch].
    replace (lit underscore underscore) with true by reflexivity.
    cbn [andb]. apply fullmatch_app; [assumption|].
    cbn [fullmatch]. now replace (lit underscore underscore) with true
      by reflexivity. }
  assert (Hnl : no_newline (base ++ suf)).
  { apply no_newline_app. split; [assumption|]. unfold suf.
    change (underscore :: d9 ++ underscore :: d4)
      with ([underscore] ++ d9 ++ [underscore] ++ d4).
    rewrite !no_newline_app. repeat split;
      try (now apply digits_no_newline);
      intros [E|[]]; discriminate E. }
  unfold get_target_table_name.
  destruct (entry_tests_pass (base ++ suf)) as [-> ->].
  { apply in_or_app. right. now left. }
  replace (endswith (base ++ suf) (py "_runtime")) with false.
  2:{ destruct (exists_last (l := d4)) as (l' & c & E);
        [intros ->; discriminate Hlen4|].
      assert (Hc : is_digit c = true).
      { rewrite forallb_forall in Hall4. apply Hall4. rewrite E.
        apply in_or_app. right. now left. }
      unfold suf. rewrite E.
      replace (base ++ underscore :: d9 ++ underscore :: l' ++ [c])
        with ((base ++ underscore :: d9 ++ underscore :: l') ++ [c])
        by (rewrite <- !app_assoc; cbn; now rewrite <- !app_assoc).
      symmetry. now apply digit_end_not_runtime. }
  cbn zeta.
  replace ((0 <? rfind underscore (base ++ suf))%Z &&
           _is_numeric_suffix
             (slice_from (base ++ suf)
                (rfind underscore (base ++ suf) + 1))) with false.
  2:{ symmetry. apply andb_false_iff. right.
      replace (base ++ suf)
        with ((base ++ underscore :: d9) ++ underscore :: d4)
        by (unfold suf; now rewrite <- app_assoc).
      rewrite rfind_last_underscore by now apply digits_no_underscore.
      unfold slice_from, slice_bound.
      replace (Z.of_nat (length (base ++ underscore :: d9)) + 1 <? 0)%Z
        with false by (symmetry; apply Z.ltb_ge; lia).
      replace (Z.to_nat (Z.of_nat (length (base ++ underscore :: d9)) + 1))
        with (length ((base ++ underscore :: d9) ++ [underscore]))
        by (rewrite (length_app _ [underscore]); cbn; lia).
      change (underscore :: d4) with ([underscore] ++ d4).
      rewrite app_assoc, skipn_length_app.
      unfold _is_numeric_suffix.
      destruct (is_empty d4 || is_empty (strip d4)); [reflexivity|].
      destruct (re_match_whole (digits 9) d4) eqn:E; [|reflexivity].
      apply re_match_whole_length in E. unfold digits in E.
      rewrite repeat_length in E. lia. }
  destruct (ends_fullmatch_app pattern_shard_year base suf Hsuf)
    as [Hends Hfirst].
  replace (re_match_dotstar_end pattern_shard_year (base ++ suf)) with true.
  2:{ symmetry. unfold re_match_dotstar_end.
      rewrite dollar_splits_no_newline by assumption.
      cbn [existsb fst]. rewrite Hends, Hfirst.
      now rewrite no_newline_forallb. }
  destruct (@re_sub_end_no_newline pattern_shard_year (base ++ suf) Hnl)
    as [_ H].
  destruct (H Hends) as [-> _]. exact Hfirst.
Qed.

(** Positions counted from the end of a name. *)

Lemma fullmatch_nth (p : pattern) : forall s k cls,
  fullmatch p s = true -> nth_error p k = Some cls ->
  exists c, nth_error s k = Some c /\ cls c = true.
Proof.
  induction p as [|c0 p IH]; intros [|x s] [|k] cls; cbn;
    try discriminate.
  - intros H [= <-]. apply andb_true_iff in H as [H _]. now exists x.
  - intros H Hk. apply andb_true_iff in H as [_ H]. now apply IH.
Qed.

Lemma fullmatch_rev (p : pattern) : forall s,
  fullmatch p s = true -> fullmatch (rev p) (rev s) = true.
Proof.
  induction p as [|c p IH]; intros [|x s]; cbn; try discriminate; auto.
  intros H. apply andb_true_iff in H as [Hx H].
  apply fullmatch_app; [now apply IH|]. cbn. now rewrite Hx.
Qed.

Lemma ends_fullmatch_nth (p : pattern) (s : pystr) k cls :
  ends_fullmatch p s = true -> nth_error (rev p) k = Some cls ->
  exists c, nth_error (rev s) k = Some c /\ cls c = true.
Proof.
  unfold ends_fullmatch. intros H Hk. apply andb_true_iff in H as [_ H].
  apply fullmatch_rev in H.
  destruct (fullmatch_nth _ _ _ H Hk) as (c & Hc & Hcls).
  exists c. split; [|assumption].
  rewrite <- (firstn_skipn (length s - length p) s) at 1.
  rewrite rev_app_distr, nth_error_app1; [assumption|].
  apply nth_error_Some. congruence.
Qed.

(** Two patterns that ask for incompatible characters at the same place
    from the end do not both match the end of a name. *)
Lemma ends_fullmatch_conflict (pA pB : pattern) (s : pystr) k clsA clsB :
  ends_fullmatch pB s = true ->
  nth_error (rev pA) k = Some clsA -> nth_error (rev pB) k = Some clsB ->
  (forall c, clsA c = true -> clsB c = true -> False) ->
  ends_fullmatch pA s = false.
Proof.
  intros HB HkA HkB Hno.
  destruct (ends_fullmatch pA s) eqn:HA; [|reflexivity].
  destruct (ends_fullmatch_nth _ _ _ HA HkA) as (c & Hc & HcA).
  destruct (ends_fullmatch_nth _ _ _ HB HkB) as (c' & Hc' & HcB).
  rewrite Hc in Hc'. injection Hc' as <-. exfalso. now apply (Hno c).
Qed.

Lemma fullmatch_lits (x : pystr) : fullmatch (map lit x) x = true.
Proof.
  induction x as [|c x IH]; cbn; [reflexivity|].
  unfold lit at 1. now rewrite Ascii.eqb_refl.
Qed.

Lemma endswith_ends_fullmatch (s x : pystr) :
  endswith s x = true -> ends_fullmatch (map lit x) s = true.
Proof.
  unfold endswith, ends_fullmatch. rewrite length_map. intros H.
  apply andb_true_iff in H as [Hl H]. apply pystr_eqb_eq in H.
  rewrite Hl, H. apply fullmatch_lits.
Qed.

(** [$] is the end of the name unless the name ends with a line feed. *)
Lemma dollar_splits_plain (s : pystr) :
  (forall s', s <> s' ++ [newline]) -> dollar_splits s = [(s, [])].
Proof.
  intros H. unfold dollar_splits.
  destruct (rev s) as [|c r] eqn:E; [reflexivity|].
  destruct (Ascii.eqb c newline) eqn:Ec; [|reflexivity].
  apply Ascii.eqb_eq in Ec. subst c. exfalso. apply (H (rev r)).
  rewrite <- (rev_involutive s), E. reflexivity.
Qed.

Lemma ends_fullmatch_plain (p : pattern) (s : pystr) cls :
  ends_fullmatch p s = true -> nth_error (rev p) 0 = Some cls ->
  cls newline = false -> forall s', s <> s' ++ [newline].
Proof.
  intros H Hk Hcls s' ->.
  destruct (ends_fullmatch_nth _ _ _ H Hk) as (c & Hc & Hc').
  rewrite rev_app_distr in Hc. cbn [rev app nth_error] in Hc.
  injection Hc as <-. congruence.
Qed.

Lemma re_search_plain (p : pattern) (s : pystr) :
  dollar_splits s = [(s, [])] ->
  re_found (re_search_end p s) = ends_fullmatch p s /\
  (ends_fullmatch p s = true ->
   re_sub_end p s = firstn (length s - length p) s) /\
  (ends_fullmatch p s = false -> re_match_dotstar_end p s = false).
Proof.
  intros H. unfold re_sub_end, re_search_end, re_match_dotstar_end.
  rewrite H. cbn [find existsb fst].
  destruct (ends_fullmatch p s); cbn; repeat split; auto; try discriminate.
  intros _. apply app_nil_r.
Qed.

(** When the numeric rule fires on a name that does not end with a line
    feed, the name ends with [_] and nine digits. *)
Lemma numeric_fires_shape (s : pystr) :
  (forall s', s <> s' ++ [newline]) ->
  (0 <? rfind underscore s)%Z &&
  _is_numeric_suffix (slice_from s (rfind underscore s + 1)) = true ->
  ends_fullmatch (lit underscore :: digits 9) s = true.
Proof.
  intros Hplain H. apply andb_true_iff in H as [Hpos Hnum].
  apply Z.ltb_lt in Hpos.
  unfold slice_from, slice_bound in Hnum.
  replace (rfind underscore s + 1 <? 0)%Z with false in Hnum
    by (symmetry; apply Z.ltb_ge; lia).
  replace (Z.to_nat (rfind underscore s + 1))
    with (S (Z.to_nat (rfind underscore s))) in Hnum by lia.
  assert (Hs : s = firstn (Z.to_nat (rfind underscore s)) s ++
                   underscore :: skipn (S (Z.to_nat (rfind underscore s))) s).
  { rewrite <- (@skipn_nth_error _ _ _ _ (@rfind_positive _ _ Hpos)).
    symmetry. apply firstn_skipn. }
  set (i := Z.to_nat (rfind underscore s)) in *.
  set (rest := skipn (S i) s) in *.
  unfold _is_numeric_suffix in Hnum.
  destruct (is_empty rest || is_empty (strip rest)); [discriminate|].
  assert (Hrest : dollar_splits rest = [(rest, [])]).
  { apply dollar_splits_plain. intros r' E. apply (Hplain
      (firstn i s ++ underscore :: r')).
    rewrite Hs at 1. rewrite E, <- app_assoc. reflexivity. }
  unfold re_match_whole in Hnum. rewrite Hrest in Hnum.
  cbn [existsb fst] in Hnum. rewrite orb_false_r in Hnum.
  rewrite Hs. apply ends_fullmatch_app. cbn [fullmatch].
  replace (lit underscore underscore) with true by reflexivity.
  exact Hnum.
Qed.

(** Without the runtime, numeric and shard-and-year rules, the result is
    what the UUID extraction gives. *)
Lemma mapping_falls_to_uuid (s : pystr) :
  In underscore s ->
  endswith s (py "_runtime") = false ->
  (0 <? rfind underscore s)%Z &&
  _is_numeric_suffix (slice_from s (rfind underscore s + 1)) = false ->
  re_match_dotstar_end pattern_shard_year s = false ->
  get_target_table_name s = _extract_table_name_from_uuid s.
Proof.
  intros Hus Hr Hn Hy. unfold get_target_table_name.
  destruct (@entry_tests_pass s Hus) as [-> ->]. rewrite Hr. cbn zeta.
  rewrite Hn, Hy.
  destruct (negb (pystr_eqb (_extract_table_name_from_uuid s) s)) eqn:E;
    [reflexivity|].
  apply negb_false_iff, pystr_eqb_eq in E. now symmetry.
Qed.

Lemma hex_not_underscore (c : ascii) :
  lit underscore c = true -> is_hex c = true -> False.
Proof.
  unfold lit. intros H. apply Ascii.eqb_eq in H. subst c. discriminate.
Qed.

Lemma hex_not_hyphen (c : ascii) :
  lit hyphen c = true -> is_hex c = true -> False.
Proof.
  unfold lit. intros H. apply Ascii.eqb_eq in H. subst c. discriminate.
Qed.

Lemma underscore_not_hyphen (c : ascii) :
  lit underscore c = true -> lit hyphen c = true -> False.
Proof.
  unfold lit. intros H. apply Ascii.eqb_eq in H. subst c. discriminate.
Qed.

(** A name that ends with a UUID of one of the three fixed forms gets past
    the first three rules. *)
Lemma uuid_form_falls_to_uuid (p : pattern) (s : pystr) cls0 :
  ends_fullmatch p s = true ->
  nth_error (rev p) 0 = Some cls0 -> cls0 newline = false ->
  nth_error (rev p) 7 = Some is_hex ->
  nth_error (rev p) 9 = Some is_hex ->
  nth_error (rev p) 14 = Some is_hex ->
  In underscore s ->
  dollar_splits s = [(s, [])] /\
  get_target_table_name s = _extract_table_name_from_uuid s.
Proof.
  intros Hends H0 Hcls0 H7 H9 H14 Hus.
  pose proof (@ends_fullmatch_plain _ _ _ Hends H0 Hcls0) as Hplain.
  pose proof (@dollar_splits_plain _ Hplain) as Hsplits.
  split; [exact Hsplits|].
  apply mapping_falls_to_uuid; [assumption| | |].
  - destruct (endswith s (py "_runtime")) eqn:E; [|reflexivity].
    apply endswith_ends_fullmatch in E. rewrite <- E.
    eapply (@ends_fullmatch_conflict _ _ _ 7 _ _ Hends);
      [reflexivity|exact H7|exact hex_not_underscore].
  - destruct ((0 <? rfind underscore s)%Z && _) eqn:E; [|reflexivity].
    apply numeric_fires_shape in E; [|assumption].
    rewrite <- E.
    eapply (@ends_fullmatch_conflict _ _ _ 9 _ _ Hends);
      [reflexivity|exact H9|exact hex_not_underscore].
  - apply (@re_search_plain pattern_shard_year _ Hsplits).
    eapply (@ends_fullmatch_conflict _ _ _ 14 _ _ Hends);
      [reflexivity|exact H14|exact hex_not_underscore].
Qed.

(** The UUID rules: a suffix of one of the three fixed UUID forms is
    removed, whatever stands before it. *)
Lemma uuid_rules (base suf : pystr) :
  fullmatch pattern1 suf = true \/ fullmatch pattern2 suf = true \/
  fullmatch pattern3 suf = true ->
  get_target_table_name (base ++ suf) = base.
Proof.
  intros H.
  assert (Hus : In underscore (base ++ suf)).
  { apply in_or_app. right.
    destruct H as [H|[H|H]];
      destruct (@fullmatch_lit_head underscore _ suf H) as (r & ->);
      now left. }
  assert (Hguard : is_empty (base ++ suf)
                   || negb (contains underscore (base ++ suf)) = false).
  { apply orb_false_iff. split.
    - destruct (base ++ suf); [destruct Hus|reflexivity].
    - apply negb_false_iff. now apply contains_In. }
  destruct H as [H|[H|H]].
  - destruct (@ends_fullmatch_app pattern1 base suf H) as [Hends Hfirst].
    destruct (@uuid_form_falls_to_uuid pattern1 _ is_hex Hends)
      as [Hsplits ->]; try reflexivity; [assumption|].
    unfold _extract_table_name_from_uuid. rewrite Hguard.
    destruct (@re_search_plain pattern1 _ Hsplits) as (-> & Hsub & _).
    rewrite Hends, (Hsub Hends). exact Hfirst.
  - destruct (@ends_fullmatch_app pattern2 base suf H) as [Hends Hfirst].
    destruct (@uuid_form_falls_to_uuid pattern2 _ is_hex Hends)
      as [Hsplits ->]; try reflexivity; [assumption|].
    unfold _extract_table_name_from_uuid. rewrite Hguard.
    destruct (@re_search_plain pattern1 _ Hsplits) as (-> & _ & _).
    replace (ends_fullmatch pattern1 (base ++ suf)) with false
      by (symmetry;
          eapply (@ends_fullmatch_conflict _ _ _ 12 _ _ Hends);
          [reflexivity|reflexivity|exact underscore_not_hyphen]).
    destruct (@re_search_plain pattern2 _ Hsplits) as (-> & Hsub & _).
    rewrite Hends, (Hsub Hends). exact Hfirst.
  - destruct (@ends_fullmatch_app pattern3 base suf H) as [Hends Hfirst].
    destruct (@uuid_form_falls_to_uuid pattern3 _ is_digit Hends)
      as [Hsplits ->]; try reflexivity; [assumption|].
    unfold _extract_table_name_from_uuid. rewrite Hguard.
    destruct (@re_search_plain pattern1 _ Hsplits) as (-> & _ & _).
    replace (ends_fullmatch pattern1 (base ++ suf)) with false
      by (symmetry;
          eapply (@ends_fullmatch_conflict _ _ _ 4 _ _ Hends);
          [reflexivity|reflexivity|
           intros c Ha Hb; exact (@hex_not_underscore c Hb Ha)]).
    destruct (@re_search_plain pattern2 _ Hsplits) as (-> & _ & _).
    replace (ends_fullmatch pattern2 (base ++ suf)) with false
      by (symmetry;
          eapply (@ends_fullmatch_conflict _ _ _ 4 _ _ Hends);
          [reflexivity|reflexivity|
           intros c Ha Hb; exact (@hex_not_underscore c Hb Ha)]).
    destruct (@re_search_plain pattern3 _ Hsplits) as (-> & Hsub & _).
    rewrite Hends, (Hsub Hends). exact Hfirst.
Qed.

(** ** The name mapping: the suffix rules together *)

(** C6, as amended: a name made of a base and one rule suffix maps to the
    base ([_runtime]; [_] and nine digits after a base that is not empty;
    [_], nine digits, [_] and four digits after a base without line feed; a
    UUID suffix of one of the three fixed forms); on a name without line
    feed on which a rule fires (the call changes the name), the name is the
    result followed by exactly one rule suffix; and since a call strips one
    suffix only, the function is idempotent on such a name when the result
    ends with no rule suffix. *)
Theorem get_target_table_name_strips_one_suffix :
  (forall base, get_target_table_name (base ++ py "_runtime") = base) /\
  (forall base d,
     base <> [] -> fullmatch (digits 9) d = true ->
     get_target_table_name (base ++ underscore :: d) = base) /\
  (forall base d9 d4,
     no_newline base ->
     fullmatch (digits 9) d9 = true -> fullmatch (digits 4) d4 = true ->
     get_target_table_name (base ++ underscore :: d9 ++ underscore :: d4)
       = base) /\
  (forall base suf,
     fullmatch pattern1 suf = true \/ fullmatch pattern2 suf = true \/
     fullmatch pattern3 suf = true ->
     get_target_table_name (base ++ suf) = base) /\
  (forall s,
     no_newline s -> get_target_table_name s <> s ->
     exists suffix,
       s = get_target_table_name s ++ suffix /\ rule_suffix suffix = true) /\
  (forall s,
     no_newline s ->
     (forall base suffix,
        get_target_table_name s = base ++ suffix ->
        rule_suffix suffix = false) ->
     get_target_table_name (get_target_table_name s) =
       get_target_table_name s).
Proof.
  split; [exact runtime_rule|]. split; [exact numeric_rule|].
  split; [exact shard_year_rule|]. split; [exact uuid_rules|].
  split; intros s Hnl; now apply one_suffix_per_call.
Qed.

Lemma get_target_table_name_strips_one_suffix_witness :
  get_target_table_name orders_shard = orders /\
  get_target_table_name (py "order_bom_item_333367878_2018")
    = py "order_bom_item" /\
  get_target_table_name (py "users_a1b2c3d4-e5f6-7890-abcd-ef1234567890")
    = py "users" /\
  (exists suffix,
     orders_shard = get_target_table_name orders_shard ++ suffix /\
     rule_suffix suffix = true) /\
  get_target_table_name (get_target_table_name orders_shard) =
    get_target_table_name orders_shard.
Proof.
  assert (Hnl : no_newline orders_shard)
    by (apply no_newline_check; reflexivity).
  destruct get_target_table_name_strips_one_suffix
    as (_ & Hnum & Hyear & Huuid & H1 & H2).
  split; [|split; [|split; [|split]]].
  - apply (Hnum orders (py "123456789")); [discriminate|reflexivity].
  - apply (Hyear (py "order_bom_item") (py "333367878") (py "2018"));
      [apply no_newline_check| |]; reflexivity.
  - apply (Huuid (py "users")
             (py "_a1b2c3d4-e5f6-7890-abcd-ef1234567890")).
    right. left. reflexivity.
  - apply (H1 orders_shard Hnl). vm_compute. discriminate.
  - apply (H2 orders_shard Hnl). apply no_underscore_no_rule_suffix.
    vm_compute. intuition discriminate.
Defined.

(** C6, as stated, fails: a name that ends with the runtime suffix twice
    loses one suffix at each call, so the second call changes the result
    of the first. *)
Lemma get_target_table_name_not_idempotent :
  endswith twice_runtime (py "_runtime") = true /\
  get_target_table_name twice_runtime = py "a_runtime" /\
  get_target_table_name (get_target_table_name twice_runtime) <>
    get_target_table_name twice_runtime.
Proof.
  split; [reflexivity|]. split; [reflexivity|].
  vm_compute. discriminate.
Qed.

(** ** The name mapping: prefixes *)

Lemma is_prefix_refl (s : pystr) : is_prefix s s.
Proof. exists []. now rewrite app_nil_r. Qed.

Lemma extract_uuid_prefix (s : pystr) :
  dollar_splits s = [(s, [])] ->
  is_prefix (_extract_table_name_from_uuid s) s.
Proof.
  intros Hplain. unfold _extract_table_name_from_uuid.
  destruct (is_empty s || negb (contains underscore s));
    [apply is_prefix_refl|].
  destruct (@re_search_plain pattern1 s Hplain) as (-> & H1 & _).
  destruct (ends_fullmatch pattern1 s);
    [rewrite H1 by reflexivity; apply firstn_is_prefix|].
  destruct (@re_search_plain pattern2 s Hplain) as (-> & H2 & _).
  destruct (ends_fullmatch pattern2 s);
    [rewrite H2 by reflexivity; apply firstn_is_prefix|].
  destruct (@re_search_plain pattern3 s Hplain) as (-> & H3 & _).
  destruct (ends_fullmatch pattern3 s);
    [rewrite H3 by reflexivity; apply firstn_is_prefix|].
  cbn zeta.
  destruct (2 <=? length (split underscore s))%nat eqn:E2;
    [|apply is_prefix_refl].
  apply Nat.leb_le in E2.
  destruct (scan_uuid_parts_spec s (split underscore s)
              (length (split underscore s) - 1))
    as [->|(j & Hj & -> & _)]; [apply is_prefix_refl|].
  exists ([underscore] ++ join [underscore] (skipn j (split underscore s))).
  rewrite <- join_firstn_skipn by lia. symmetry. apply join_split.
Qed.

(** On a name that does not end with a line feed the result is a prefix of
    the name. *)
Lemma prefix_unless_final_line_feed (s : pystr) :
  (forall s', s <> s' ++ [newline]) ->
  is_prefix (get_target_table_name s) s.
Proof.
  intros Hend. pose proof (@dollar_splits_plain _ Hend) as Hplain.
  unfold get_target_table_name.
  destruct (is_empty s || is_empty (strip s)); [apply is_prefix_refl|].
  destruct (negb (contains underscore s)); [apply is_prefix_refl|].
  destruct (endswith s (py "_runtime")) eqn:Er.
  { exists (py "_runtime"). now apply runtime_case. }
  cbn zeta.
  destruct ((0 <? rfind underscore s)%Z && _); [apply firstn_is_prefix|].
  destruct (@re_search_plain pattern_shard_year s Hplain) as (_ & Hs & Hn).
  destruct (ends_fullmatch pattern_shard_year s).
  - rewrite Hs by reflexivity.
    destruct (re_match_dotstar_end pattern_shard_year s);
      [apply firstn_is_prefix|].
    destruct (negb (pystr_eqb (_extract_table_name_from_uuid s) s));
      [now apply extract_uuid_prefix|apply is_prefix_refl].
  - rewrite Hn by reflexivity.
    destruct (negb (pystr_eqb (_extract_table_name_from_uuid s) s));
      [now apply extract_uuid_prefix|apply is_prefix_refl].
Qed.

(** C10 is not met on a name that ends with a line feed: [$] matches before
    the line feed, the substitution removes the shard-and-year suffix in
    front of it and keeps the line feed, and the result is no prefix of the
    name.  The rules are meant to cut a suffix off the end of the name. *)
Theorem get_target_table_name_keeps_line_feed :
  get_target_table_name shard_year_line = py "a" ++ [newline] /\
  ~ is_prefix (get_target_table_name shard_year_line) shard_year_line.
Proof.
  split; [reflexivity|].
  intros (suffix & E). vm_compute in E. discriminate.
Qed.

(** * Properties of the code around the passes *)

(** ** The name mapping on every name *)

Lemma dollar_splits_parts (s : pystr) :
  Forall (fun ba => s = fst ba ++ snd ba /\
                    (snd ba = [] \/ snd ba = [newline]))
         (dollar_splits s).
Proof.
  unfold dollar_splits. destruct (rev s) as [|c r] eqn:E.
  - repeat constructor. cbn. now rewrite app_nil_r.
  - assert (Hs : s = rev r ++ [c])
      by (rewrite <- (rev_involutive s), E; reflexivity).
    destruct (Ascii.eqb c newline) eqn:Ec.
    + apply Ascii.eqb_eq in Ec. subst c.
      constructor; [cbn; auto|]. repeat constructor. cbn.
      now rewrite app_nil_r.
    + repeat constructor. cbn. now rewrite app_nil_r.
Qed.

(** A substitution before [$] removes one block of the length of the
    pattern, at the end of the name or in front of its final line feed. *)
Lemma re_sub_end_block (p : pattern) (s : pystr) :
  re_sub_end p s = s \/
  exists kept removed tail,
    s = kept ++ removed ++ tail /\ length removed = length p /\
    re_sub_end p s = kept ++ tail /\ (tail = [] \/ tail = [newline]).
Proof.
  unfold re_sub_end, re_search_end.
  destruct (find _ (dollar_splits s)) as [[b a]|] eqn:E; [|now left].
  right. apply find_some in E as [Hin Hm]. cbn [fst] in Hm.
  pose proof (dollar_splits_parts s) as Hall.
  rewrite Forall_forall in Hall. destruct (Hall _ Hin) as [Hs Ha].
  cbn [fst snd] in Hs, Ha.
  unfold ends_fullmatch in Hm. apply andb_true_iff in Hm as [Hl Hm].
  apply Nat.leb_le in Hl. apply fullmatch_length in Hm.
  exists (firstn (length b - length p) b),
         (skipn (length b - length p) b), a.
  repeat split; auto.
  rewrite app_assoc, firstn_skipn. exact Hs.
Qed.

Lemma extract_uuid_block (s : pystr) :
  _extract_table_name_from_uuid s = s \/
  exists kept removed tail,
    removed <> [] /\ s = kept ++ removed ++ tail /\
    _extract_table_name_from_uuid s = kept ++ tail /\
    (tail = [] \/ tail = [newline]).
Proof.
  assert (Hsub : forall p, length p <> 0%nat ->
            re_sub_end p s = s \/
            exists kept removed tail,
              removed <> [] /\ s = kept ++ removed ++ tail /\
              re_sub_end p s = kept ++ tail /\
              (tail = [] \/ tail = [newline])).
  { intros p Hp. destruct (re_sub_end_block p s)
      as [E|(k & m & z & Hs & Hl & E & Hz)]; [now left|right].
    exists k, m, z. repeat split; auto. intros ->. cbn in Hl. congruence. }
  unfold _extract_table_name_from_uuid.
  destruct (is_empty s || negb (contains underscore s)); [now left|].
  destruct (re_found (re_search_end pattern1 s));
    [apply Hsub; discriminate|].
  destruct (re_found (re_search_end pattern2 s));
    [apply Hsub; discriminate|].
  destruct (re_found (re_search_end pattern3 s));
    [apply Hsub; discriminate|].
  cbn zeta.
  destruct (2 <=? length (split underscore s))%nat eqn:E2; [|now left].
  apply Nat.leb_le in E2.
  destruct (scan_uuid_parts_spec s (split underscore s)
              (length (split underscore s) - 1))
    as [->|(j & Hj & -> & _)]; [now left|].
  right.
  exists (join [underscore] (firstn j (split underscore s))),
         ([underscore] ++ join [underscore] (skipn j (split underscore s))),
         [].
  repeat split; auto; [discriminate| |now rewrite app_nil_r].
  rewrite app_nil_r, <- join_firstn_skipn by lia. symmetry. apply join_split.
Qed.

Lemma get_target_table_name_block (s : pystr) :
  get_target_table_name s = s \/
  exists kept removed tail,
    removed <> [] /\ s = kept ++ removed ++ tail /\
    get_target_table_name s = kept ++ tail /\
    (tail = [] \/ tail = [newline]).
Proof.
  unfold get_target_table_name.
  destruct (is_empty s || is_empty (strip s)); [now left|].
  destruct (negb (contains underscore s)); [now left|].
  destruct (endswith s (py "_runtime")) eqn:Er.
  { right. exists (slice_to s (-8)), (py "_runtime"), [].
    repeat split; auto; [discriminate| |now rewrite app_nil_r].
    rewrite app_nil_r. now apply runtime_case. }
  cbn zeta.
  destruct ((0 <? rfind underscore s)%Z && _) eqn:En.
  { right. apply andb_true_iff in En as [Hpos _]. apply Z.ltb_lt in Hpos.
    exists (slice_to s (rfind underscore s)),
           (skipn (Z.to_nat (rfind underscore s)) s), [].
    repeat split; auto.
    - rewrite (skipn_nth_error _ _ (rfind_positive _ _ Hpos)).
      discriminate.
    - rewrite app_nil_r. unfold slice_to, slice_bound.
      replace (rfind underscore s <? 0)%Z with false
        by (symmetry; apply Z.ltb_ge; lia).
      symmetry. apply firstn_skipn.
    - now rewrite app_nil_r. }
  destruct (re_match_dotstar_end pattern_shard_year s).
  { destruct (re_sub_end_block pattern_shard_year s)
      as [E|(k & m & z & Hs & Hl & E & Hz)]; [now left|right].
    exists k, m, z. repeat split; auto. intros ->. discriminate Hl. }
  destruct (negb (pystr_eqb (_extract_table_name_from_uuid s) s));
    [apply extract_uuid_block|now left].
Qed.

Lemma get_target_table_name_shrinks (s : pystr) :
  get_target_table_name s = s \/
  (length (get_target_table_name s) < length s)%nat.
Proof.
  destruct (get_target_table_name_block s)
    as [E|(k & m & z & Hm & Hs & E & _)]; [now left|right].
  rewrite E. apply (f_equal (@length _)) in Hs.
  rewrite !length_app in *. destruct m; [congruence|cbn in Hs; lia].
Qed.

(** X1.  On every name, line feeds included, a call of
    [get_target_table_name] returns the name as it is or the name without
    one block of characters that is not empty; the block ends at the end
    of the name or just before a line feed that ends the name.  The result
    is never longer than the name. *)
Theorem get_target_table_name_removes_one_block (s : pystr) :
  (get_target_table_name s = s \/
   exists kept removed tail,
     removed <> [] /\ s = kept ++ removed ++ tail /\
     get_target_table_name s = kept ++ tail /\
     (tail = [] \/ tail = [newline])) /\
  (length (get_target_table_name s) <= length s)%nat.
Proof.
  split; [apply get_target_table_name_block|].
  destruct (get_target_table_name_shrinks s) as [->|H]; lia.
Qed.

Lemma iterate_mapping_fixed (n : nat) (s : pystr) :
  get_target_table_name s = s -> iterate_mapping n s = s.
Proof.
  intros H. unfold iterate_mapping. induction n as [|n IH]; [reflexivity|].
  rewrite Nat.iter_succ, IH. exact H.
Qed.

(** X2.  Calls of [get_target_table_name] in a row reach a name that the
    function leaves as it is: as many calls as the name has characters are
    enough, and so is any larger number. *)
Theorem iterate_mapping_reaches_fixed_point (s : pystr) (k : nat) :
  get_target_table_name (iterate_mapping (length s + k) s) =
  iterate_mapping (length s + k) s.
Proof.
  assert (H : forall n x, (length x <= n)%nat ->
                get_target_table_name (iterate_mapping n x) =
                iterate_mapping n x).
  { induction n as [|n IH]; intros x Hx.
    - destruct x; [reflexivity|cbn in Hx; lia].
    - unfold iterate_mapping. rewrite Nat.iter_succ_r.
      fold (iterate_mapping n (get_target_table_name x)).
      destruct (get_target_table_name_shrinks x) as [E|Hlt].
      + rewrite E. rewrite (iterate_mapping_fixed n E). exact E.
      + apply IH. lia. }
  apply H. lia.
Qed.

(** ** The mixed UUID form *)

Lemma split_app_sep (c : ascii) (a b : pystr) :
  split c (a ++ c :: b) = split c a ++ split c b.
Proof.
  induction a as [|x a IH]; cbn [app split].
  - now rewrite Ascii.eqb_refl.
  - destruct (Ascii.eqb x c); [now rewrite IH|].
    rewrite IH. destruct (split c a) eqn:E;
      [now apply split_not_nil in E|reflexivity].
Qed.

Lemma split_absent (c : ascii) (u : pystr) :
  ~ In c u -> split c u = [u].
Proof.
  induction u as [|x u IH]; intros H; [reflexivity|].
  cbn [split]. destruct (Ascii.eqb x c) eqn:E.
  - apply Ascii.eqb_eq in E. subst. exfalso. apply H. now left.
  - rewrite IH; [reflexivity|]. intros Hin. apply H. now right.
Qed.

Lemma forallb_fullmatch_repeat (c : charclass) : forall s,
  forallb c s = true -> fullmatch (repeat c (length s)) s = true.
Proof.
  induction s as [|x s IH]; cbn; [reflexivity|].
  intros H. apply andb_true_iff in H as [-> H]. now apply IH.
Qed.

Lemma remove_separators_length (u : pystr) :
  (length (remove_separators u) <= length u)%nat.
Proof. apply filter_length_le. Qed.

(** A character of a text that is hexadecimal once its separators are
    removed is a hexadecimal digit or a separator. *)
Lemma clean_hex_chars (u : pystr) (c : ascii) :
  forallb is_hex (remove_separators u) = true -> In c u ->
  is_hex c = true \/ c = hyphen \/ c = underscore.
Proof.
  intros H Hin. rewrite forallb_forall in H.
  destruct (Ascii.eqb c hyphen) eqn:Eh;
    [apply Ascii.eqb_eq in Eh; auto|].
  destruct (Ascii.eqb c underscore) eqn:Eu;
    [apply Ascii.eqb_eq in Eu; auto|].
  left. apply H. unfold remove_separators. apply filter_In.
  split; [assumption|]. now rewrite Eh, Eu.
Qed.

(** The character [k] places before the end of [base ++ "_" ++ u] lies in
    [u] when [u] is long enough. *)
Lemma tail_char (base u : pystr) (k : nat) :
  (k < length u)%nat ->
  exists c, nth_error (rev (base ++ underscore :: u)) k = Some c /\ In c u.
Proof.
  intros Hk. change (underscore :: u) with ([underscore] ++ u).
  rewrite app_assoc, rev_app_distr.
  destruct (nth_error (rev u) k) as [c|] eqn:E.
  - exists c. split.
    + rewrite nth_error_app1; [assumption|]. now rewrite length_rev.
    + apply in_rev. eapply nth_error_In. exact E.
  - apply nth_error_None in E. rewrite length_rev in E. lia.
Qed.

(** A pattern that asks for an underscore [k] places before the end does
    not match the end of [base ++ "_" ++ u] when [u] is longer than [k]
    and holds no underscore. *)
Lemma underscore_place_conflict (p : pattern) (base u : pystr) (k : nat) :
  ~ In underscore u -> (k < length u)%nat ->
  nth_error (rev p) k = Some (lit underscore) ->
  ends_fullmatch p (base ++ underscore :: u) = false.
Proof.
  intros Hu Hk Hp.
  destruct (ends_fullmatch p (base ++ underscore :: u)) eqn:E;
    [|reflexivity].
  destruct (ends_fullmatch_nth _ _ _ E Hp) as (c & Hc & Hcls).
  destruct (tail_char base u Hk) as (c' & Hc' & Hin).
  rewrite Hc in Hc'. injection Hc' as <-.
  unfold lit in Hcls. apply Ascii.eqb_eq in Hcls. subst c.
  contradiction.
Qed.

(** X3.  The mixed UUID form: after any base, an underscore followed by a
    text without underscore that is 32 hexadecimal digits once its hyphens
    are removed is cut off, the underscore included. *)
Theorem mixed_uuid_rule (base u : pystr) :
  ~ In underscore u ->
  length (remove_separators u) = 32%nat ->
  forallb is_hex (remove_separators u) = true ->
  get_target_table_name (base ++ underscore :: u) = base.
Proof.
  intros Hu Hlen Hhex.
  set (s := base ++ underscore :: u).
  pose proof (remove_separators_length u) as Hlu.
  assert (Hus : In underscore s)
    by (apply in_or_app; right; now left).
  assert (Hchar : forall c, In c u -> is_hex c = true \/ c = hyphen).
  { intros c Hin.
    destruct (clean_hex_chars u c Hhex Hin) as [H|[H|H]]; auto.
    subst. contradiction. }
  assert (Hplain : forall s', s <> s' ++ [newline]).
  { intros s' E. destruct (exists_last (l := u)) as (l' & c & Eu).
    { intros ->. cbn in Hlen. discriminate Hlen. }
    unfold s in E. rewrite Eu in E.
    change (base ++ underscore :: l' ++ [c])
      with (base ++ (underscore :: l') ++ [c]) in E.
    rewrite app_assoc in E. apply app_inj_tail in E as [_ ->].
    destruct (Hchar newline) as [H|H]; try discriminate H.
    rewrite Eu. apply in_or_app. right. now left. }
  pose proof (dollar_splits_plain Hplain) as Hsplits.
  assert (Hget : get_target_table_name s = _extract_table_name_from_uuid s).
  { apply mapping_falls_to_uuid; [assumption| | |].
    - destruct (endswith s (py "_runtime")) eqn:E; [|reflexivity].
      apply endswith_ends_fullmatch in E. rewrite <- E.
      apply (@underscore_place_conflict _ base u 7); auto; lia.
    - apply andb_false_iff. right. unfold s.
      rewrite rfind_last_underscore by assumption.
      unfold slice_from, slice_bound.
      replace (Z.of_nat (length base) + 1 <? 0)%Z with false
        by (symmetry; apply Z.ltb_ge; lia).
      replace (Z.to_nat (Z.of_nat (length base) + 1))
        with (length (base ++ [underscore]))
        by (rewrite length_app; cbn; lia).
      change (underscore :: u) with ([underscore] ++ u).
      rewrite app_assoc, skipn_length_app.
      unfold _is_numeric_suffix.
      destruct (is_empty u || is_empty (strip u)); [reflexivity|].
      destruct (re_match_whole (digits 9) u) eqn:E; [|reflexivity].
      apply re_match_whole_length in E. unfold digits in E.
      rewrite repeat_length in E. lia.
    - apply (re_search_plain pattern_shard_year Hsplits).
      apply (@underscore_place_conflict _ base u 4); auto; lia. }
  rewrite Hget. unfold _extract_table_name_from_uuid.
  replace (is_empty s || negb (contains underscore s)) with false.
  2:{ symmetry. apply orb_false_iff. split.
      - unfold s. now destruct base.
      - apply negb_false_iff. now apply contains_In. }
  destruct (re_search_plain pattern1 Hsplits) as (-> & _ & _).
  replace (ends_fullmatch pattern1 s) with false
    by (symmetry;
        apply (@underscore_place_conflict _ base u 12); auto; lia).
  destruct (re_search_plain pattern2 Hsplits) as (-> & Hsub2 & _).
  destruct (ends_fullmatch pattern2 s) eqn:E2.
  { rewrite (Hsub2 eq_refl).
    assert (Hl36 : length u = 36%nat).
    { destruct (Nat.lt_trichotomy (length u) 36) as [Hlt|[He|Hgt]];
        [exfalso|exact He|exfalso].
      - (* the underscore in front of [u] meets a place of the pattern
           that asks for a hexadecimal digit or a hyphen *)
        assert (Hk : exists cls,
                   nth_error (rev pattern2) (length u) = Some cls /\
                   cls underscore = false).
        { assert (Hall : Forall (fun cls : charclass =>
                                   cls underscore = false)
                                (firstn 36 (rev pattern2)))
            by (repeat constructor).
          rewrite Forall_forall in Hall.
          destruct (nth_error (firstn 36 (rev pattern2)) (length u))
            as [cls|] eqn:En.
          - exists cls. split.
            + rewrite nth_error_firstn in En.
              destruct (length u <? 36)%nat eqn:El; [exact En|].
              apply Nat.ltb_ge in El. lia.
            + apply Hall. eapply nth_error_In. exact En.
          - apply nth_error_None in En. rewrite length_firstn in En.
            change (length (rev pattern2)) with 37%nat in En. lia. }
        destruct Hk as (cls & Hcls & Hno).
        destruct (ends_fullmatch_nth _ _ _ E2 Hcls) as (c & Hc & Hc').
        unfold s in Hc.
        change (underscore :: u) with ([underscore] ++ u) in Hc.
        rewrite app_assoc, rev_app_distr in Hc.
        rewrite nth_error_app2 in Hc by (rewrite length_rev; lia).
        rewrite length_rev, Nat.sub_diag, rev_app_distr in Hc.
        cbn in Hc. injection Hc as <-. congruence.
      - assert (Hfalse : ends_fullmatch pattern2 s = false)
          by (apply (@underscore_place_conflict _ base u 36); auto).
        congruence. }
    unfold s. rewrite length_app. cbn [length]. rewrite Hl36.
    change (length pattern2) with 37%nat.
    replace (length base + 37 - 37)%nat with (length base) by lia.
    apply firstn_length_app. }
  destruct (re_search_plain pattern3 Hsplits) as (-> & _ & _).
  replace (ends_fullmatch pattern3 s) with false
    by (symmetry;
        apply (@underscore_place_conflict _ base u 4); auto; lia).
  cbn zeta. subst s.
  rewrite split_app_sep, (@split_absent underscore u Hu).
  rewrite length_app. cbn [length].
  destruct (split underscore base) as [|p0 ps] eqn:Ep;
    [now apply split_not_nil in Ep|].
  replace (2 <=? length (p0 :: ps) + 1)%nat with true
    by (symmetry; apply Nat.leb_le; cbn; lia).
  replace (length (p0 :: ps) + 1 - 1)%nat with (S (length ps))
    by (cbn; lia).
  cbn [scan_uuid_parts].
  replace (skipn (S (length ps)) ((p0 :: ps) ++ [u])) with [u]
    by (symmetry; apply (skipn_length_app (p0 :: ps))).
  cbn [join]. rewrite Hlen. cbn [Nat.eqb andb].
  replace (re_match_whole (hexes 32) (remove_separators u)) with true.
  2:{ symmetry. apply fullmatch_re_match_whole. unfold hexes.
      rewrite <- Hlen. now apply forallb_fullmatch_repeat. }
  replace (firstn (S (length ps)) ((p0 :: ps) ++ [u])) with (p0 :: ps)
    by (symmetry; apply (firstn_length_app (p0 :: ps))).
  rewrite <- Ep. apply join_split.
Qed.

Lemma mixed_uuid_rule_witness :
  get_target_table_name
    (py "products" ++ underscore :: py "a1b2c3d4e5f67890abcdef1234567890")
  = py "products".
Proof.
  apply mixed_uuid_rule;
    [vm_compute; intuition discriminate|reflexivity|reflexivity].
Defined.

(** ** The reverse mapping: exactly the names that belong *)

Lemma collect_mapped_sound (t : pystr) srcs : forall acc x,
  In x (collect_mapped t srcs acc) ->
  In x acc \/ (In x srcs /\ get_target_table_name x = t).
Proof.
  induction srcs as [|s srcs IH]; intros acc x H; cbn in H; [now left|].
  destruct (pystr_eqb (get_target_table_name s) t) eqn:E.
  - apply pystr_eqb_eq in E.
    destruct (negb (mem s acc)).
    + apply IH in H as [H|[H1 H2]].
      * apply in_app_or in H as [H|[->|[]]]; [now left|].
        right. split; [now left|assumption].
      * right. split; [now right|assumption].
    + apply IH in H as [H|[H1 H2]]; [now left|].
      right. split; [now right|assumption].
  - apply IH in H as [H|[H1 H2]]; [now left|].
    right. split; [now right|assumption].
Qed.

Lemma collect_mapped_NoDup (t : pystr) srcs : forall acc,
  NoDup acc -> NoDup (collect_mapped t srcs acc).
Proof.
  induction srcs as [|s srcs IH]; intros acc H; cbn; [assumption|].
  destruct (pystr_eqb (get_target_table_name s) t); [|now apply IH].
  destruct (mem s acc) eqn:Em; cbn [negb]; [now apply IH|].
  apply IH. apply NoDup_app; [assumption|repeat constructor; intros []|].
  intros a Ha [E|[]]. subst a.
  assert (Hm : mem s acc = true) by now apply mem_In.
  congruence.
Qed.

(** X4.  The source tables listed for a target table are exactly the
    names of the source listing that are the target's own name or map to
    it, each once; when there is none the list is the target's own name
    alone. *)
Theorem reverse_mapping_exact (t : pystr) (source_table_names : list pystr) :
  NoDup (reverse_mapping t source_table_names) /\
  forall s,
    In s (reverse_mapping t source_table_names) <->
    (In s source_table_names /\ (s = t \/ get_target_table_name s = t)) \/
    (s = t /\
     forall x, In x source_table_names ->
               x <> t /\ get_target_table_name x <> t).
Proof.
  rename source_table_names into srcs.
  set (direct := if mem t srcs then [t] else []).
  assert (Hdirect : forall x, In x direct -> x = t /\ In t srcs).
  { intros x. unfold direct. destruct (mem t srcs) eqn:E; [|intros []].
    intros [<-|[]]. split; [reflexivity|now apply mem_In]. }
  assert (Hnd : NoDup direct).
  { unfold direct. destruct (mem t srcs); repeat constructor. intros []. }
  split.
  - unfold reverse_mapping. fold direct.
    pose proof (collect_mapped_NoDup t srcs Hnd) as H.
    destruct (collect_mapped t srcs direct);
      [repeat constructor; intros []|exact H].
  - intros s. split.
    + unfold reverse_mapping. fold direct.
      destruct (collect_mapped t srcs direct) as [|c0 cs] eqn:Ec.
      * intros [<-|[]]. right. split; [reflexivity|]. intros x Hx. split.
        -- intros ->.
           assert (Hin : In t direct).
           { unfold direct.
             replace (mem t srcs) with true
               by (symmetry; now apply mem_In).
             now left. }
           apply (collect_mapped_acc t srcs) in Hin.
           rewrite Ec in Hin. destruct Hin.
        -- intros Hm.
           pose proof (@collect_mapped_In t srcs direct x Hx Hm) as Hin.
           rewrite Ec in Hin. destruct Hin.
      * intros H. rewrite <- Ec in H.
        apply collect_mapped_sound in H as [H|[H1 H2]].
        -- apply Hdirect in H as [-> H]. left. auto.
        -- left. auto.
    + intros [[Hin [->|Hm]]|[-> Hnone]].
      * apply reverse_mapping_of_collected. apply collect_mapped_acc.
        replace (mem t srcs) with true
          by (symmetry; now apply mem_In).
        now left.
      * apply reverse_mapping_of_collected.
        now apply collect_mapped_In.
      * unfold reverse_mapping.
        rewrite collect_mapped_none
          by (intros x Hx; now apply Hnone).
        destruct (mem t srcs) eqn:Em; [|now left].
        apply mem_In in Em. now destruct (Hnone _ Em).
Qed.

Lemma reverse_mapping_exact_witness :
  In orders_shard (reverse_mapping orders scenario_sources).
Proof.
  apply (proj2 (reverse_mapping_exact orders scenario_sources)).
  left. split; [now left|right; reflexivity].
Defined.

(** ** The exact target pass: what it stores *)

Lemma target_exact_pass_complete (env : Env) (schema : pystr) d :
  connect_target env schema = true ->
  (forall k, stop_event_is_set env k = false) ->
  _update_single_schema_target env schema d false =
    (true,
     map (fun x => target_exact_step env schema
                     (on_value mark_target_updating x)) d).
Proof.
  intros Hc Hs. unfold _update_single_schema_target.
  rewrite Hs, Hc. cbn [negb].
  rewrite target_exact_loop_complete by assumption.
  cbn [app]. unfold map_values. now rewrite map_map.
Qed.

Lemma target_exact_step_rows (env : Env) (schema name : pystr) t :
  target_rows (snd (target_exact_step env schema (name, t))) =
  target_outcome env schema name.
Proof.
  unfold target_exact_step, target_outcome. cbn [fst snd].
  destruct (target_count env schema name) as [| |n].
  - reflexivity.
  - apply apply_target_exact_fields.
  - apply apply_target_exact_fields.
Qed.

Lemma target_outcome_error (env : Env) (schema name : pystr) :
  target_outcome env schema name = -1 <->
  target_count env schema name = QRaise.
Proof.
  unfold target_outcome.
  destruct (target_count env schema name) as [| |n]; split;
    try reflexivity; try discriminate; lia.
Qed.

(** X5.  The exact target pass stores under each table the outcome of
    the count of that table alone: the count, 0 when no row comes back, -1
    when the query raises, so that -1 marks exactly the tables whose count
    failed.  A pass that is cut short leaves each record with its old
    count or with that outcome. *)
Theorem target_exact_pass_counts (env : Env) (schema : pystr)
    (tables_dict : dict TableInfo) :
  Forall2
    (fun before after =>
       fst after = fst before /\
       (target_rows (snd after) = target_rows (snd before) \/
        target_rows (snd after) = target_outcome env schema (fst before)))
    tables_dict
    (snd (_update_single_schema_target env schema tables_dict false)) /\
  (connect_target env schema = true ->
   (forall k, stop_event_is_set env k = false) ->
   fst (_update_single_schema_target env schema tables_dict false) = true /\
   Forall2
     (fun before after =>
        fst after = fst before /\
        target_rows (snd after) = target_outcome env schema (fst before) /\
        (target_rows (snd after) = -1 <->
         target_count env schema (fst before) = QRaise) /\
        target_is_estimated (snd after) = false /\
        target_last_updated (snd after) = now env)
     tables_dict
     (snd (_update_single_schema_target env schema tables_dict false))).
Proof.
  split.
  - apply target_exact_pass_Forall2; intros [name t];
      unfold on_value; cbn [fst snd].
    + auto.
    + split; [reflexivity|]. left. unfold mark_target_updating.
      destruct (target_updating t); reflexivity.
    + split; [reflexivity|]. right.
      apply (target_exact_step_rows env schema name).
    + split; [reflexivity|]. right.
      apply (target_exact_step_rows env schema name).
  - intros Hc Hs. rewrite target_exact_pass_complete by assumption.
    split; [reflexivity|]. cbn [snd]. apply Forall2_map_right.
    intros [name t]. unfold on_value. cbn [fst snd].
    pose proof (target_exact_step_rows env schema name
                  (mark_target_updating t)) as Hrows.
    split; [reflexivity|]. split; [exact Hrows|].
    split; [rewrite Hrows; apply target_outcome_error|].
    unfold target_exact_step. cbn [fst snd].
    destruct (target_count env schema name) as [| |n].
    + unfold apply_target_exact_failed, roll_previous_target.
      destruct (is_first_query (mark_target_updating t)); cbn; auto.
    + split; apply apply_target_exact_fields.
    + split; apply apply_target_exact_fields.
Qed.

Lemma target_exact_pass_counts_witness :
  fst (_update_single_schema_target failing_target_env db users_tables false)
    = true /\
  Forall2
    (fun before after =>
       fst after = fst before /\
       target_rows (snd after) =
         target_outcome failing_target_env db (fst before) /\
       (target_rows (snd after) = -1 <->
        target_count failing_target_env db (fst before) = QRaise) /\
       target_is_estimated (snd after) = false /\
       target_last_updated (snd after) = now failing_target_env)
    users_tables
    (snd (_update_single_schema_target failing_target_env db users_tables
            false)).
Proof.
  apply (target_exact_pass_counts failing_target_env db users_tables);
    reflexivity.
Defined.

(** X6.  The first target count of a record serves as its own baseline:
    a pass that reaches a record on its first query stores the new count
    as the previous count too; on a later query the previous count is the
    count found in the record.  Either way the record is past its first
    query afterwards. *)
Theorem target_exact_pass_baseline (env : Env) (schema : pystr)
    (tables_dict : dict TableInfo) :
  connect_target env schema = true ->
  (forall k, stop_event_is_set env k = false) ->
  Forall2
    (fun before after =>
       is_first_query (snd after) = false /\
       previous_target_rows (snd after) =
         (if is_first_query (snd before) then target_rows (snd after)
          else target_rows (snd before)))
    tables_dict
    (snd (_update_single_schema_target env schema tables_dict false)).
Proof.
  intros Hc Hs. rewrite target_exact_pass_complete by assumption.
  cbn [snd]. apply Forall2_map_right.
  intros [name t]. unfold target_exact_step, on_value. cbn [fst snd].
  unfold mark_target_updating, apply_target_exact,
    apply_target_exact_failed, roll_previous_target, is_consistent.
  destruct (target_count env schema name) as [| |n],
    (target_updating t), (is_first_query t) eqn:Ef; cbn;
    rewrite ?Ef; cbn;
    repeat match goal with
           | |- context [if ?b then _ else _] => destruct b; cbn
           end; auto.
Qed.

Lemma target_exact_pass_baseline_witness :
  Forall2
    (fun before after =>
       is_first_query (snd after) = false /\
       previous_target_rows (snd after) =
         (if is_first_query (snd before) then target_rows (snd after)
          else target_rows (snd before)))
    users_tables
    (snd (_update_single_schema_target agreeing_env db users_tables false)).
Proof.
  apply (target_exact_pass_baseline agreeing_env db users_tables);
    reflexivity.
Defined.

(** ** The exact passes and the scheduler *)

Lemma existsb_values {V} (f : V -> bool) (d : dict V) :
  existsb f (values d) = existsb (fun kv => f (snd kv)) d.
Proof.
  unfold values. induction d as [|kv d IH]; cbn; [reflexivity|].
  now rewrite IH.
Qed.

Lemma Forall2_existsb_false {A} (R : A -> A -> Prop) (f : A -> bool) :
  forall l l',
    Forall2 R l l' ->
    (forall b a, In b l -> R b a -> f a = true -> f b = true) ->
    existsb f l = false -> existsb f l' = false.
Proof.
  induction 1 as [|b a l l' HR _ IH]; intros Hstep Hl; [reflexivity|].
  cbn in *. apply orb_false_iff in Hl as [Hb Hl].
  apply orb_false_iff. split.
  - destruct (f a) eqn:E; [|reflexivity].
    rewrite <- Hb. symmetry. apply (Hstep b a); auto.
  - apply IH; [|assumption]. intros b0 a0 Hin. apply Hstep. now right.
Qed.

(** X7.  A schema that the scheduler may poll stays pollable after an
    exact pass: when no record of the batch is in flight before the pass,
    none is in flight after an exact source pass, however it ends, and
    none after an exact target pass in which no count raises; the
    scheduler then creates a task for the schema again. *)
Theorem exact_pass_releases_schema (env : Env) (schema : pystr)
    (tables_dict : dict TableInfo) :
  (existsb source_updating (values tables_dict) = false ->
   update_source_counts_async
     [(schema,
       snd (_update_single_schema_source env schema tables_dict false))] =
     [(schema,
       snd (_update_single_schema_source env schema tables_dict false))]) /\
  (existsb target_updating (values tables_dict) = false ->
   (forall name, In name (map fst tables_dict) ->
                 target_count env schema name <> QRaise) ->
   update_target_counts_async
     [(schema,
       snd (_update_single_schema_target env schema tables_dict false))] =
     [(schema,
       snd (_update_single_schema_target env schema tables_dict false))]).
Proof.
  split.
  - intros H. unfold update_source_counts_async. cbn [filter snd].
    replace (existsb source_updating
               (values (snd (_update_single_schema_source env schema
                               tables_dict false)))) with false;
      [reflexivity|].
    symmetry. rewrite existsb_values in *.
    revert H.
    apply (@Forall2_existsb_false _ _
             (fun kv : pystr * TableInfo => source_updating (snd kv)) _ _
             (source_exact_pass_flag_origin env schema tables_dict)).
    intros b a _ Hba Ha. now apply Hba.
  - intros H Hok. unfold update_target_counts_async. cbn [filter snd].
    replace (existsb target_updating
               (values (snd (_update_single_schema_target env schema
                               tables_dict false)))) with false;
      [reflexivity|].
    symmetry. rewrite existsb_values in *.
    revert H.
    apply (@Forall2_existsb_false _ _
             (fun kv : pystr * TableInfo => target_updating (snd kv)) _ _
             (target_exact_pass_flag_origin env schema tables_dict)).
    intros b a Hin Hba Ha. destruct (Hba Ha) as [Hb|Hb]; [exact Hb|].
    exfalso. apply (Hok (fst b)); [|exact Hb]. now apply in_map.
Qed.

Lemma exact_pass_releases_schema_witness :
  update_source_counts_async
    [(db, snd (_update_single_schema_source scenario_env db scenario_tables
                 false))] =
    [(db, snd (_update_single_schema_source scenario_env db scenario_tables
                 false))] /\
  update_target_counts_async
    [(db, snd (_update_single_schema_target scenario_env db scenario_tables
                 false))] =
    [(db, snd (_update_single_schema_target scenario_env db scenario_tables
                 false))].
Proof.
  destruct (exact_pass_releases_schema scenario_env db scenario_tables)
    as [Hs Ht].
  split; [apply Hs; reflexivity|apply Ht; [reflexivity|]].
  intros name _. discriminate.
Defined.

(** ** What a pass leaves alone *)

Lemma Forall2_map_eq {A B} (g : A -> B) : forall l l',
  Forall2 (fun b a => g a = g b) l l' -> map g l' = map g l.
Proof. induction 1; cbn; congruence. Qed.

Lemma view_app_one {A} (g : pystr * TableInfo -> A)
    (done rest : dict TableInfo) x y :
  g y = g x -> map g (done ++ [y] ++ rest) = map g (done ++ x :: rest).
Proof. intros H. rewrite !map_app. cbn. now rewrite H. Qed.

Lemma map_values_view {A} (g : pystr * TableInfo -> A)
    (f : TableInfo -> TableInfo) d :
  (forall name t, g (name, f t) = g (name, t)) ->
  map g (map_values f d) = map g d.
Proof.
  intros H. unfold map_values. rewrite map_map. apply map_ext.
  intros [name t]. apply H.
Qed.

Section TargetFrame.
Context {A : Type} (g : pystr * TableInfo -> A).
Hypothesis g_target_rows :
  forall name t v, g (name, set_target_rows v t) = g (name, t).
Hypothesis g_previous_target_rows :
  forall name t v, g (name, set_previous_target_rows v t) = g (name, t).
Hypothesis g_target_last_updated :
  forall name t v, g (name, set_target_last_updated v t) = g (name, t).
Hypothesis g_target_updating :
  forall name t v, g (name, set_target_updating v t) = g (name, t).
Hypothesis g_target_is_estimated :
  forall name t v, g (name, set_target_is_estimated v t) = g (name, t).
Hypothesis g_is_first_query :
  forall name t v, g (name, set_is_first_query v t) = g (name, t).
Hypothesis g_pause :
  forall name t v, g (name, set_pause_auto_refresh v t) = g (name, t).

Lemma g_roll_previous_target name t v :
  g (name, roll_previous_target v t) = g (name, t).
Proof.
  unfold roll_previous_target. destruct (negb (is_first_query t));
    now rewrite ?g_is_first_query, ?g_previous_target_rows.
Qed.

Lemma g_mark_target_updating name t :
  g (name, mark_target_updating t) = g (name, t).
Proof.
  unfold mark_target_updating. destruct (negb (target_updating t)); auto.
Qed.

Lemma g_mark_target_updating_estimate name t :
  g (name, mark_target_updating_estimate t) = g (name, t).
Proof.
  unfold mark_target_updating_estimate.
  destruct (negb (target_updating t)); auto.
  now rewrite g_target_rows, g_target_updating.
Qed.

Lemma g_unmark_target_updating name t :
  g (name, unmark_target_updating t) = g (name, t).
Proof.
  unfold unmark_target_updating. destruct (target_updating t); auto.
Qed.

Lemma g_apply_target_exact name now v t :
  g (name, apply_target_exact now v t) = g (name, t).
Proof.
  unfold apply_target_exact.
  match goal with |- context [if ?b then _ else _] => destruct b end;
    now rewrite ?g_pause, g_target_is_estimated, g_target_updating,
      g_target_last_updated, g_target_rows, g_roll_previous_target.
Qed.

Lemma g_apply_target_exact_failed name now t :
  g (name, apply_target_exact_failed now t) = g (name, t).
Proof.
  unfold apply_target_exact_failed.
  now rewrite g_target_is_estimated, g_target_last_updated, g_target_rows,
    g_roll_previous_target.
Qed.

Lemma g_apply_target_estimate name now v t :
  g (name, apply_target_estimate now v t) = g (name, t).
Proof.
  unfold apply_target_estimate.
  now rewrite g_target_is_estimated, g_target_updating,
    g_target_last_updated, g_target_rows, g_roll_previous_target.
Qed.

Lemma g_apply_target_estimate_failed name now t :
  g (name, apply_target_estimate_failed now t) = g (name, t).
Proof.
  unfold apply_target_estimate_failed.
  now rewrite g_target_is_estimated, g_target_updating,
    g_target_last_updated, g_target_rows, g_roll_previous_target.
Qed.

Lemma target_estimate_loop_view (env : Env) (schema : pystr) stats :
  forall todo k done,
    map g (snd (target_estimate_loop env schema stats k done todo)) =
    map g (done ++ todo).
Proof.
  induction todo as [|[name ti] rest IH]; intros k done.
  - cbn. now rewrite app_nil_r.
  - cbn [target_estimate_loop]. destruct (stop_event_is_set env k).
    + cbn [snd]. apply (view_app_one g done rest (name, ti)).
      apply g_target_updating.
    + rewrite IH, <- app_assoc. apply view_app_one.
      apply g_apply_target_estimate.
Qed.

Lemma target_estimate_failed_loop_view (env : Env) :
  forall todo k done,
    map g (snd (target_estimate_failed_loop env k done todo)) =
    map g (done ++ todo).
Proof.
  induction todo as [|[name ti] rest IH]; intros k done.
  - cbn. now rewrite app_nil_r.
  - cbn [target_estimate_failed_loop]. destruct (stop_event_is_set env k).
    + cbn [snd]. apply (view_app_one g done rest (name, ti)).
      apply g_target_updating.
    + rewrite IH, <- app_assoc. apply view_app_one.
      apply g_apply_target_estimate_failed.
Qed.

Lemma target_pass_view (env : Env) (schema : pystr) d (b : bool) :
  map g (snd (_update_single_schema_target env schema d b)) = map g d.
Proof.
  destruct b.
  - pose proof (map_values_view g mark_target_updating_estimate d
                  g_mark_target_updating_estimate) as Hmark.
    unfold _update_single_schema_target.
    destruct (stop_event_is_set env 0); [reflexivity|].
    destruct (connect_target env schema); cbn [negb]; [|reflexivity].
    destruct (stop_event_is_set env 1); [reflexivity|].
    destruct (call_from_thread_raises env).
    { cbn [snd]. rewrite map_values_view; [exact Hmark|].
      apply g_unmark_target_updating. }
    destruct d as [|x d]; [reflexivity|].
    destruct (target_stats env schema).
    + now rewrite target_estimate_loop_view.
    + now rewrite target_estimate_failed_loop_view.
  - apply Forall2_map_eq.
    apply target_exact_pass_Forall2; intros [name t];
      unfold target_exact_step, on_value; cbn [fst snd].
    + reflexivity.
    + now rewrite g_target_updating, g_mark_target_updating.
    + destruct (target_count env schema name);
        now rewrite ?g_apply_target_exact, ?g_apply_target_exact_failed,
          g_mark_target_updating.
    + rewrite g_target_updating.
      destruct (target_count env schema name);
        now rewrite ?g_apply_target_exact, ?g_apply_target_exact_failed,
          g_mark_target_updating.
Qed.

End TargetFrame.

Section SourceFrame.
Context {A : Type} (g : pystr * TableInfo -> A).
Hypothesis g_source_rows :
  forall name t v, g (name, set_source_rows v t) = g (name, t).
Hypothesis g_source_last_updated :
  forall name t v, g (name, set_source_last_updated v t) = g (name, t).
Hypothesis g_source_updating :
  forall name t v, g (name, set_source_updating v t) = g (name, t).
Hypothesis g_source_is_estimated :
  forall name t v, g (name, set_source_is_estimated v t) = g (name, t).
Hypothesis g_pause :
  forall name t v, g (name, set_pause_auto_refresh v t) = g (name, t).

Lemma g_mark_source_updating name t :
  g (name, mark_source_updating t) = g (name, t).
Proof.
  unfold mark_source_updating. destruct (negb (source_updating t)); auto.
Qed.

Lemma g_mark_source_updating_estimate name t :
  g (name, mark_source_updating_estimate t) = g (name, t).
Proof.
  unfold mark_source_updating_estimate.
  destruct (negb (source_updating t)); auto.
  now rewrite g_source_rows, g_source_updating.
Qed.

Lemma g_unmark_source_updating name t :
  g (name, unmark_source_updating t) = g (name, t).
Proof.
  unfold unmark_source_updating. destruct (source_updating t); auto.
Qed.

Lemma g_apply_source_exact name now v t :
  g (name, apply_source_exact now v t) = g (name, t).
Proof.
  unfold apply_source_exact.
  match goal with |- context [if ?b then _ else _] => destruct b end;
    now rewrite ?g_pause, g_source_is_estimated, g_source_updating,
      g_source_last_updated, g_source_rows.
Qed.

Lemma g_apply_source_estimate name now v t :
  g (name, apply_source_estimate now v t) = g (name, t).
Proof.
  unfold apply_source_estimate.
  now rewrite g_source_is_estimated, g_source_updating,
    g_source_last_updated, g_source_rows.
Qed.

Lemma source_estimate_loop_view (env : Env) total :
  forall todo k done,
    map g (snd (source_estimate_loop env total k done todo)) =
    map g (done ++ todo).
Proof.
  induction todo as [|[name ti] rest IH]; intros k done.
  - cbn. now rewrite app_nil_r.
  - cbn [source_estimate_loop]. destruct (stop_event_is_set env k).
    + cbn [snd]. apply (view_app_one g done rest (name, ti)).
      apply g_source_updating.
    + rewrite IH, <- app_assoc. apply view_app_one.
      apply g_apply_source_estimate.
Qed.

Lemma source_pass_view (env : Env) (schema : pystr) d (b : bool) :
  map g (snd (_update_single_schema_source env schema d b)) = map g d.
Proof.
  destruct b.
  - pose proof (map_values_view g mark_source_updating_estimate d
                  g_mark_source_updating_estimate) as Hmark.
    unfold _update_single_schema_source.
    destruct (stop_event_is_set env 0); [reflexivity|].
    destruct (connect_source env schema); cbn [negb]; [|reflexivity].
    destruct (stop_event_is_set env 1); [reflexivity|].
    destruct (call_from_thread_raises env).
    { cbn [snd]. rewrite map_values_view; [exact Hmark|].
      apply g_unmark_source_updating. }
    destruct d as [|x d]; [reflexivity|].
    destruct (unique_names _); [exact Hmark|].
    destruct (source_stats_in env schema _);
      now rewrite source_estimate_loop_view.
  - apply Forall2_map_eq.
    apply source_exact_pass_Forall2; intros [name t];
      unfold source_exact_step, on_value; cbn [fst snd].
    + reflexivity.
    + now rewrite g_source_updating, g_mark_source_updating.
    + now rewrite g_apply_source_exact, g_mark_source_updating.
    + now rewrite g_source_updating, g_apply_source_exact,
        g_mark_source_updating.
Qed.

End SourceFrame.

(** X8.  A pass writes the fields of its own side only: in either mode a
    target pass leaves the keys of the batch, the identity and the source
    list of every record and all its source-side fields as they are, and a
    source pass leaves the keys, the identity, the source list and all
    target-side fields, the first-query mark included. *)
Theorem passes_write_their_own_side (env : Env) (schema : pystr)
    (tables_dict : dict TableInfo) (use_information_schema : bool) :
  map (fun kv => (identity_view kv, source_view kv))
      (snd (_update_single_schema_target env schema tables_dict
              use_information_schema)) =
    map (fun kv => (identity_view kv, source_view kv)) tables_dict /\
  map (fun kv => (identity_view kv, target_view kv))
      (snd (_update_single_schema_source env schema tables_dict
              use_information_schema)) =
    map (fun kv => (identity_view kv, target_view kv)) tables_dict.
Proof.
  split.
  - apply target_pass_view; reflexivity.
  - apply source_pass_view; reflexivity.
Qed.

(** ** The scheduler: the two counters *)

Lemma div_succ (t n : Z) :
  0 < n -> 0 <= t ->
  ((t + 1) mod n = 0 -> (t + 1) / n = t / n + 1) /\
  ((t + 1) mod n <> 0 -> (t + 1) / n = t / n).
Proof.
  intros Hn Ht.
  pose proof (Z.div_mod t n ltac:(lia)) as Ht'.
  pose proof (Z.mod_pos_bound t n Hn) as Hr.
  pose proof (Z.div_mod (t + 1) n ltac:(lia)) as Hs'.
  pose proof (Z.mod_pos_bound (t + 1) n Hn) as Hr'.
  split; intros H; nia.
Qed.

(** X9.  The source counter follows the target counter: when the
    interval is positive and [source_iteration] is the quotient of
    [target_iteration] by the interval, as it is at start-up with both at
    zero, this still holds after a tick and after a manual refresh: the
    source side is polled once in every [source_update_interval] ticks
    that poll the target side. *)
Theorem source_iteration_follows_target (app : MonitorApp) :
  0 < source_update_interval app -> 0 <= target_iteration app ->
  source_iteration app = target_iteration app / source_update_interval app ->
  forall t, t = refresh_data app \/ t = action_refresh app ->
    source_update_interval (app_after t) = source_update_interval app /\
    0 <= target_iteration (app_after t) /\
    source_iteration (app_after t) =
      target_iteration (app_after t) / source_update_interval (app_after t).
Proof.
  intros Hn Ht Hinv.
  assert (H : forall a,
            source_update_interval a = source_update_interval app ->
            target_iteration a = target_iteration app ->
            source_iteration a = source_iteration app ->
            source_update_interval (app_after (refresh_data a)) =
              source_update_interval app /\
            0 <= target_iteration (app_after (refresh_data a)) /\
            source_iteration (app_after (refresh_data a)) =
              target_iteration (app_after (refresh_data a)) /
              source_update_interval (app_after (refresh_data a))).
  { intros a Hi Hti Hsi.
    destruct (div_succ Hn Ht) as [Hdiv1 Hdiv0].
    assert (Hint : source_update_interval (app_after (refresh_data a)) =
                   source_update_interval app).
    { unfold refresh_data.
      destruct (stop_event a || is_paused a); [exact Hi|].
      destruct (build_target_tables (tables a) []); [exact Hi|].
      destruct (source_update_interval a =? 0); [exact Hi|].
      destruct (_ mod _ =? 0); exact Hi. }
    split; [exact Hint|]. rewrite Hint.
    destruct (refresh_data_cases a)
      as [[E _]|(_ & _ & _ & _ & _ & _ & Hti' & Hsrc)].
    - rewrite E. cbn [app_after]. rewrite Hti, Hsi. split; assumption.
    - rewrite Hti', Hti. split; [lia|].
      destruct Hsrc as [(_ & Hsi' & Hno)|(_ & Hsi' & _ & Hyes)];
        rewrite Hsi', Hsi, Hinv.
      + destruct Hno as [Hz|Hno]; [lia|].
        rewrite Hi, Hti in Hno. symmetry. now apply Hdiv0.
      + rewrite Hi, Hti in Hyes. symmetry. now apply Hdiv1. }
  intros t [->| ->].
  - now apply H.
  - unfold action_refresh. now apply H.
Qed.

Lemma source_iteration_follows_target_witness :
  source_iteration (app_after (refresh_data sample_app_fifth)) =
  target_iteration (app_after (refresh_data sample_app_fifth)) /
  source_update_interval (app_after (refresh_data sample_app_fifth)).
Proof.
  apply (@source_iteration_follows_target sample_app_fifth);
    [reflexivity|discriminate|reflexivity|now left].
Defined.

(** ** Statistics *)

Lemma sum_rows_cons (x : Z) (l : list Z) :
  sum_rows (x :: l) = x + sum_rows l.
Proof. unfold sum_rows. cbn [fold_left]. now rewrite sum_rows_from. Qed.

Lemma len_cons {A} (x : A) (l : list A) : len (x :: l) = 1 + len l.
Proof. unfold len. cbn [length]. lia. Qed.

Lemma len_nonneg {A} (l : list A) : 0 <= len l.
Proof. unfold len. lia. Qed.

Lemma len_filter_le {A} (f : A -> bool) (l : list A) :
  len (filter f l) <= len l.
Proof. unfold len. pose proof (filter_length_le f l). lia. Qed.

Lemma len_filter_split {A} (f g : A -> bool) (l : list A) :
  (forall x, g x = negb (f x)) ->
  len (filter f l) + len (filter g l) = len l.
Proof.
  intros H. induction l as [|x l IH]; [reflexivity|].
  cbn [filter]. rewrite (H x).
  destruct (f x); cbn [negb]; rewrite !len_cons; lia.
Qed.

Lemma is_error_not_valid (t : TableInfo) :
  is_error_table t = negb (is_valid_table t).
Proof.
  unfold is_error_table, is_valid_table.
  destruct (target_rows t =? -1), (source_rows t =? -1); reflexivity.
Qed.

(** X10.  In the statistics of [get_total_stats] every table is counted
    once as valid or as erroneous and once as consistent or as
    inconsistent: the two pairs of counts each add up to the number of
    tables, and no count is negative. *)
Theorem get_total_stats_partition (tables : list TableInfo) :
  valid_tables (get_total_stats tables) +
    error_count (get_total_stats tables) =
    total_tables (get_total_stats tables) /\
  consistent_count (get_total_stats tables) +
    inconsistent_count (get_total_stats tables) =
    total_tables (get_total_stats tables) /\
  0 <= valid_tables (get_total_stats tables) /\
  0 <= error_count (get_total_stats tables) /\
  0 <= consistent_count (get_total_stats tables) /\
  0 <= inconsistent_count (get_total_stats tables) /\
  0 <= changed_count (get_total_stats tables) <=
    valid_tables (get_total_stats tables).
Proof.
  unfold get_total_stats. cbn.
  pose proof (len_filter_split is_valid_table is_error_table tables
                is_error_not_valid).
  pose proof (len_filter_le
                (fun t => is_consistent_zero_case (target_rows t)
                                                  (source_rows t)) tables).
  pose proof (len_filter_le (fun t => negb (change t =? 0))
                (filter is_valid_table tables)).
  repeat split; try apply len_nonneg; lia.
Qed.

Lemma valid_sum_data_diff (tables : list TableInfo) :
  sum_rows (map target_rows (filter is_valid_table tables)) -
  sum_rows (map source_rows (filter is_valid_table tables)) =
  sum_rows (map data_diff tables).
Proof.
  induction tables as [|t ts IH]; [reflexivity|].
  cbn [filter map]. rewrite sum_rows_cons, <- IH.
  unfold is_valid_table, data_diff.
  destruct (target_rows t =? -1), (source_rows t =? -1); cbn [negb andb orb];
    cbn [map]; rewrite ?sum_rows_cons; lia.
Qed.

(** X11.  The total difference shown in the statistics is the sum of the
    [data_diff] of all tables: a table with an error mark on either side
    is left out of both totals, and its [data_diff] is 0. *)
Theorem total_diff_is_sum_of_data_diff (tables : list TableInfo) :
  stats_total_diff (update_stats tables) = sum_rows (map data_diff tables) /\
  total_diff (get_total_stats tables) = sum_rows (map data_diff tables).
Proof. split; apply valid_sum_data_diff. Qed.

Lemma sum_rows_filter_perm (f : TableInfo -> Z) (p : TableInfo -> bool) :
  forall l l', Permutation l l' ->
    sum_rows (map f (filter p l)) = sum_rows (map f (filter p l')).
Proof.
  induction 1 as [|x l l' _ IH|x y l|l l' l'' _ IH1 _ IH2].
  - reflexivity.
  - cbn [filter]. destruct (p x); cbn [map]; rewrite ?sum_rows_cons; lia.
  - cbn [filter]. destruct (p x), (p y); cbn [map];
      rewrite ?sum_rows_cons; lia.
  - congruence.
Qed.

Lemma len_filter_perm (p : TableInfo -> bool) :
  forall l l', Permutation l l' -> len (filter p l) = len (filter p l').
Proof.
  induction 1 as [|x l l' _ IH|x y l|l l' l'' _ IH1 _ IH2].
  - reflexivity.
  - cbn [filter]. destruct (p x); rewrite ?len_cons; lia.
  - cbn [filter]. destruct (p x), (p y); rewrite ?len_cons; lia.
  - congruence.
Qed.

Lemma filter_filter {A} (f g : A -> bool) (l : list A) :
  filter f (filter g l) = filter (fun x => g x && f x) l.
Proof.
  induction l as [|x l IH]; [reflexivity|].
  cbn [filter]. destruct (g x); cbn [filter andb]; [|assumption].
  destruct (f x); now rewrite IH.
Qed.

(** X12.  The statistics do not depend on the order of the table list:
    two lists with the same records in another order give the same
    numbers. *)
Theorem stats_order_independent (tables tables' : list TableInfo) :
  Permutation tables tables' ->
  update_stats tables = update_stats tables' /\
  get_total_stats tables = get_total_stats tables'.
Proof.
  intros H.
  assert (Hlen : len tables = len tables').
  { unfold len. now rewrite (Permutation_length H). }
  split.
  - unfold update_stats.
    rewrite (sum_rows_filter_perm target_rows is_valid_table H),
      (sum_rows_filter_perm source_rows is_valid_table H),
      (len_filter_perm is_consistent H),
      (len_filter_perm is_error_table H), Hlen.
    reflexivity.
  - unfold get_total_stats.
    rewrite !filter_filter.
    rewrite (sum_rows_filter_perm target_rows is_valid_table H),
      (sum_rows_filter_perm source_rows is_valid_table H),
      (sum_rows_filter_perm change is_valid_table H),
      (len_filter_perm
         (fun x => is_valid_table x && negb (change x =? 0)) H),
      (len_filter_perm
         (fun t => is_consistent_zero_case (target_rows t) (source_rows t))
         H),
      (len_filter_perm is_error_table H),
      (len_filter_perm is_valid_table H), Hlen.
    reflexivity.
Qed.

Lemma stats_order_independent_witness :
  update_stats [sample_orders; sample_users] =
    update_stats [sample_users; sample_orders] /\
  get_total_stats [sample_orders; sample_users] =
    get_total_stats [sample_users; sample_orders].
Proof.
  apply stats_order_independent. apply perm_swap.
Defined.

(** ** The history of totals *)

(** X13.  The history of totals is a bounded queue: a history within the
    bound stays within it after [update_progress_data], the new point is
    its last entry, and the call drops at most the oldest point. *)
Theorem update_progress_data_bounded (current_time : datetime)
    (max_history_points : Z) (history_data : list history_point)
    (tables : list TableInfo) :
  1 <= max_history_points ->
  len history_data <= max_history_points ->
  let after :=
    update_progress_data current_time max_history_points history_data
      tables in
  len after <= max_history_points /\
  (exists earlier total_target total_source,
     after = earlier ++ [(current_time, total_target, total_source, 0)] /\
     total_target - total_source = sum_rows (map data_diff tables)) /\
  (after = history_data ++ [last after (current_time, 0, 0, 0)] \/
   after = tl history_data ++ [last after (current_time, 0, 0, 0)] /\
   len history_data = max_history_points).
Proof.
  intros Hmax Hlen after. unfold update_progress_data in after.
  set (p := (current_time,
             sum_rows (map target_rows (filter is_valid_table tables)),
             sum_rows (map source_rows (filter is_valid_table tables)),
             0)) in *.
  assert (Hl : len (history_data ++ [p]) = len history_data + 1).
  { unfold len. rewrite length_app. cbn [length]. lia. }
  destruct (max_history_points <? len (history_data ++ [p])) eqn:E;
    subst after.
  - apply Z.ltb_lt in E.
    destruct history_data as [|h0 hs].
    { exfalso. cbn in E. lia. }
    cbn [app tl].
    rewrite <- app_comm_cons, !len_cons in Hl. rewrite len_cons in Hlen.
    rewrite <- app_comm_cons, len_cons in E.
    split; [lia|]. split.
    + exists hs, (sum_rows (map target_rows (filter is_valid_table tables))),
             (sum_rows (map source_rows (filter is_valid_table tables))).
      split; [reflexivity|apply valid_sum_data_diff].
    + right. rewrite last_last. split; [reflexivity|].
      rewrite len_cons. lia.
  - apply Z.ltb_ge in E. split; [lia|]. split.
    + exists history_data,
             (sum_rows (map target_rows (filter is_valid_table tables))),
             (sum_rows (map source_rows (filter is_valid_table tables))).
      split; [reflexivity|apply valid_sum_data_diff].
    + left. now rewrite last_last.
Qed.

Lemma update_progress_data_bounded_witness :
  len (update_progress_data 7 1 [(0, 1, 1, 0)] [sample_users]) <= 1.
Proof.
  apply (@update_progress_data_bounded 7 1 [(0, 1, 1, 0)] [sample_users]);
    vm_compute; discriminate.
Defined.

(** ** The views of the table *)

(** X14.  The filter never invents a row and keeps the order of the
    rows; the views "consistent" and "inconsistent" split the tables
    between them, with the sizes the statistics line shows; every row of
    the view "error" has a [data_diff] of 0; any other mode shows all
    tables. *)
Theorem _filter_tables_views (tables : list TableInfo) :
  (forall mode, exists keep, _filter_tables mode tables = filter keep tables)
  /\
  (forall t, In t tables ->
     (In t (_filter_tables (py "consistent") tables) <->
      ~ In t (_filter_tables (py "inconsistent") tables))) /\
  len (_filter_tables (py "consistent") tables) =
    stats_consistent_count (update_stats tables) /\
  len (_filter_tables (py "inconsistent") tables) =
    stats_inconsistent_count (update_stats tables) /\
  len (_filter_tables (py "error") tables) =
    stats_error_count (update_stats tables) /\
  (forall t, In t (_filter_tables (py "error") tables) -> data_diff t = 0) /\
  (forall mode,
     mode <> py "inconsistent" -> mode <> py "consistent" ->
     mode <> py "error" -> _filter_tables mode tables = tables).
Proof.
  split; [|split; [|split; [|split; [|split; [|split]]]]].
  - intros mode. unfold _filter_tables.
    destruct (pystr_eqb mode _); [eexists; reflexivity|].
    destruct (pystr_eqb mode _); [eexists; reflexivity|].
    destruct (pystr_eqb mode _); [eexists; reflexivity|].
    exists (fun _ => true). symmetry. apply forallb_filter_id.
    now apply forallb_forall.
  - intros t Hin.
    change (_filter_tables (py "consistent") tables)
      with (filter is_consistent tables).
    change (_filter_tables (py "inconsistent") tables)
      with (filter (fun t => negb (is_consistent t)) tables).
    rewrite !filter_In. destruct (is_consistent t); cbn; intuition congruence.
  - reflexivity.
  - change (_filter_tables (py "inconsistent") tables)
      with (filter (fun t => negb (is_consistent t)) tables).
    cbn [update_stats stats_inconsistent_count].
    pose proof (len_filter_split is_consistent
                  (fun t => negb (is_consistent t)) tables
                  (fun _ => eq_refl)).
    lia.
  - reflexivity.
  - change (_filter_tables (py "error") tables)
      with (filter is_error_table tables).
    intros t Ht. apply filter_In in Ht as [_ Ht].
    unfold data_diff. unfold is_error_table in Ht. now rewrite Ht.
  - intros mode H1 H2 H3. unfold _filter_tables.
    apply pystr_eqb_neq in H1, H2, H3. now rewrite H1, H2, H3.
Qed.

Lemma _filter_tables_views_witness :
  (In sample_users (_filter_tables (py "consistent")
                      [sample_orders; sample_users]) <->
   ~ In sample_users (_filter_tables (py "inconsistent")
                        [sample_orders; sample_users])) /\
  _filter_tables (py "all") [sample_orders; sample_users] =
    [sample_orders; sample_users].
Proof.
  destruct (_filter_tables_views [sample_orders; sample_users])
    as (_ & Hsplit & _ & _ & _ & _ & Hall).
  split.
  - apply Hsplit. right. now left.
  - apply Hall; discriminate.
Defined.

(** ** Sorting *)

Section SortOrder.
Context {A K : Type} (lt : K -> K -> bool) (key : A -> K) (reverse : bool).

Hypothesis goes_before_asym :
  forall x y,
    goes_before lt key reverse x y = true ->
    goes_before lt key reverse y x = false.
Hypothesis goes_before_negtrans :
  forall x y z,
    goes_before lt key reverse y x = false ->
    goes_before lt key reverse z y = false ->
    goes_before lt key reverse z x = false.

Lemma insert_sorted_perm (x : A) (l : list A) :
  Permutation (x :: l) (insert_sorted lt key reverse x l).
Proof.
  induction l as [|y r IH]; [apply Permutation_refl|].
  cbn [insert_sorted].
  destruct (goes_before lt key reverse y x); [|apply Permutation_refl].
  eapply perm_trans; [apply perm_swap|]. now apply perm_skip.
Qed.

Lemma sorted_perm (l : list A) : Permutation l (sorted lt key reverse l).
Proof.
  induction l as [|x l IH]; [apply perm_nil|].
  cbn [sorted fold_right]. fold (sorted lt key reverse l).
  eapply perm_trans; [|apply insert_sorted_perm]. now apply perm_skip.
Qed.

Lemma insert_sorted_in_order (x : A) (l : list A) :
  StronglySorted (in_order lt key reverse) l ->
  StronglySorted (in_order lt key reverse) (insert_sorted lt key reverse x l).
Proof.
  induction 1 as [|y r Hr IH Hy]; [repeat constructor|].
  cbn [insert_sorted].
  destruct (goes_before lt key reverse y x) eqn:E.
  - constructor; [assumption|].
    rewrite Forall_forall in *. intros z Hz.
    apply (Permutation_in _ (Permutation_sym (insert_sorted_perm x r)))
      in Hz.
    destruct Hz as [<-|Hz]; [|now apply Hy].
    unfold in_order. now apply goes_before_asym.
  - constructor; [now constructor|].
    constructor; [exact E|].
    rewrite Forall_forall in *. intros z Hz.
    unfold in_order. apply (goes_before_negtrans _ y); [exact E|].
    now apply Hy.
Qed.

Lemma sorted_in_order (l : list A) :
  StronglySorted (in_order lt key reverse) (sorted lt key reverse l).
Proof.
  induction l as [|x l IH]; [constructor|].
  cbn [sorted fold_right]. now apply insert_sorted_in_order.
Qed.

(** The sort is stable: the elements picked out by a test that cannot
    tell apart the keys of two of them keep their order. *)
Lemma insert_sorted_filter (p : A -> bool) (x : A) (l : list A) :
  (forall y, In y l -> p x = true -> p y = true -> goes_before lt key reverse y x = false) ->
  filter p (insert_sorted lt key reverse x l) = filter p (x :: l).
Proof.
  induction l as [|y r IH]; intros H; [reflexivity|].
  cbn [insert_sorted].
  destruct (goes_before lt key reverse y x) eqn:E; [|reflexivity].
  cbn [filter]. rewrite IH by (intros z Hz; apply H; now right).
  cbn [filter]. destruct (p x) eqn:Ex, (p y) eqn:Ey; try reflexivity.
  rewrite (H y) in E by (auto; now left). discriminate.
Qed.

Lemma sorted_filter (p : A -> bool) (l : list A) :
  (forall x y, p x = true -> p y = true -> goes_before lt key reverse y x = false) ->
  filter p (sorted lt key reverse l) = filter p l.
Proof.
  intros H. induction l as [|x l IH]; [reflexivity|].
  cbn [sorted fold_right]. fold (sorted lt key reverse l).
  rewrite insert_sorted_filter by (intros y _; apply H).
  cbn [filter]. now rewrite IH.
Qed.

End SortOrder.

Lemma Z_goes_before_asym {A} (key : A -> Z) (x y : A) :
  goes_before Z.ltb key true x y = true ->
  goes_before Z.ltb key true y x = false.
Proof. unfold goes_before. rewrite Z.ltb_lt, Z.ltb_ge. lia. Qed.

Lemma Z_goes_before_negtrans {A} (key : A -> Z) (x y z : A) :
  goes_before Z.ltb key true y x = false ->
  goes_before Z.ltb key true z y = false ->
  goes_before Z.ltb key true z x = false.
Proof. unfold goes_before. rewrite !Z.ltb_ge. lia. Qed.

Lemma StronglySorted_weaken {A} (R R' : A -> A -> Prop) (l : list A) :
  (forall a b, R a b -> R' a b) ->
  StronglySorted R l -> StronglySorted R' l.
Proof.
  intros H. induction 1 as [|x l Hl IH Hx]; constructor; [assumption|].
  eapply Forall_impl; [|exact Hx]. apply H.
Qed.

Lemma StronglySorted_later {A} (R : A -> A -> Prop) :
  forall earlier t later,
    StronglySorted R (earlier ++ t :: later) -> Forall (R t) later.
Proof.
  induction earlier as [|e earlier IH]; intros t later H; cbn in H.
  - now apply StronglySorted_inv in H.
  - apply StronglySorted_inv in H as [H _]. now apply IH.
Qed.

Lemma data_diff_key_cases (t : TableInfo) :
  data_diff_key t = -1 /\ data_diff t = 0 \/
  data_diff_key t = Z.abs (data_diff t) /\ data_diff t <> 0.
Proof.
  unfold data_diff_key.
  destruct (data_diff t =? 0) eqn:E; cbn [negb]; [left|right].
  - apply Z.eqb_eq in E. auto.
  - apply Z.eqb_neq in E. auto.
Qed.

(** X15.  Sorted by difference, the table shows the same rows, largest
    absolute difference first; the rows without a difference to show,
    error rows among them, come after all others, and rows with the same
    absolute difference keep the order they had. *)
Theorem _sort_tables_by_data_diff (tables : list TableInfo) :
  Permutation tables (_sort_tables (py "data_diff") tables) /\
  StronglySorted
    (fun a b => Z.abs (data_diff b) <= Z.abs (data_diff a))
    (_sort_tables (py "data_diff") tables) /\
  (forall earlier t later,
     _sort_tables (py "data_diff") tables = earlier ++ t :: later ->
     data_diff t = 0 -> forall u, In u later -> data_diff u = 0) /\
  (forall n,
     filter (fun t => Z.abs (data_diff t) =? n)
            (_sort_tables (py "data_diff") tables) =
     filter (fun t => Z.abs (data_diff t) =? n) tables).
Proof.
  change (_sort_tables (py "data_diff") tables)
    with (sorted Z.ltb data_diff_key true tables).
  pose proof (@sorted_in_order _ _ Z.ltb data_diff_key true
                (Z_goes_before_asym data_diff_key)
                (Z_goes_before_negtrans data_diff_key) tables) as Hs.
  assert (Hord : forall a b,
            in_order Z.ltb data_diff_key true a b ->
            data_diff_key b <= data_diff_key a).
  { intros a b. unfold in_order, goes_before. now rewrite Z.ltb_ge. }
  split; [apply sorted_perm|]. split; [|split].
  - eapply StronglySorted_weaken; [|exact Hs].
    intros a b Hab. apply Hord in Hab.
    destruct (data_diff_key_cases a) as [[Ha Ha']|[Ha Ha']],
             (data_diff_key_cases b) as [[Hb Hb']|[Hb Hb']]; lia.
  - intros earlier t later E Ht u Hu. rewrite E in Hs.
    apply StronglySorted_later in Hs. rewrite Forall_forall in Hs.
    specialize (Hs u Hu). apply Hord in Hs.
    destruct (data_diff_key_cases t) as [[Ha Ha']|[Ha Ha']],
             (data_diff_key_cases u) as [[Hb Hb']|[Hb Hb']]; lia.
  - intros n. apply sorted_filter. intros x y Hx Hy.
    apply Z.eqb_eq in Hx, Hy. unfold goes_before. apply Z.ltb_ge.
    destruct (data_diff_key_cases x) as [[Ha Ha']|[Ha Ha']],
             (data_diff_key_cases y) as [[Hb Hb']|[Hb Hb']]; lia.
Qed.

Lemma _sort_tables_by_data_diff_witness :
  _sort_tables (py "data_diff") [sample_equal; sample_users; sample_orders] =
    [sample_users; sample_equal; sample_orders] /\
  data_diff sample_orders = 0.
Proof.
  destruct (_sort_tables_by_data_diff
              [sample_equal; sample_users; sample_orders])
    as (_ & _ & Hlast & _).
  split; [reflexivity|].
  apply (Hlast [sample_users] sample_equal [sample_orders]);
    [reflexivity|reflexivity|now left].
Defined.

(** ** Sorting by name *)

Lemma nat_of_ascii_inj (x y : ascii) :
  nat_of_ascii x = nat_of_ascii y -> x = y.
Proof.
  intros H. rewrite <- (ascii_nat_embedding x), <- (ascii_nat_embedding y).
  now rewrite H.
Qed.

Lemma pystr_ltb_irrefl (a : pystr) : pystr_ltb a a = false.
Proof.
  induction a as [|x a IH]; [reflexivity|]. cbn [pystr_ltb].
  rewrite Nat.ltb_irrefl, Nat.eqb_refl. exact IH.
Qed.

Lemma pystr_ltb_trans : forall a b c,
  pystr_ltb a b = true -> pystr_ltb b c = true -> pystr_ltb a c = true.
Proof.
  induction a as [|x a IH]; intros [|y b] [|z c]; cbn [pystr_ltb];
    try discriminate; auto.
  rewrite !orb_true_iff, !andb_true_iff, !Nat.ltb_lt, !Nat.eqb_eq.
  intros [H1|[H1 H1']] [H2|[H2 H2']].
  - left. lia.
  - left. lia.
  - left. lia.
  - right. split; [lia|]. now apply (IH b).
Qed.

Lemma pystr_ltb_total : forall a b,
  pystr_ltb a b = false -> pystr_ltb b a = false -> a = b.
Proof.
  induction a as [|x a IH]; intros [|y b]; cbn [pystr_ltb];
    try discriminate; auto.
  rewrite !orb_false_iff, !andb_false_iff, !Nat.ltb_ge, !Nat.eqb_neq.
  intros [H1 H1'] [H2 H2'].
  assert (E : nat_of_ascii x = nat_of_ascii y) by lia.
  apply nat_of_ascii_inj in E. subst y. f_equal.
  apply IH; [destruct H1'|destruct H2']; congruence.
Qed.

Lemma pair_ltb_irrefl (a : pystr * pystr) : pair_ltb a a = false.
Proof.
  unfold pair_ltb. now rewrite !pystr_ltb_irrefl, andb_false_r.
Qed.

Lemma pair_ltb_trans (a b c : pystr * pystr) :
  pair_ltb a b = true -> pair_ltb b c = true -> pair_ltb a c = true.
Proof.
  unfold pair_ltb.
  rewrite !orb_true_iff, !andb_true_iff, !pystr_eqb_eq.
  intros [H1|[H1 H1']] [H2|[H2 H2']].
  - left. now apply (pystr_ltb_trans _ (fst b)).
  - left. now rewrite <- H2.
  - left. now rewrite H1.
  - right. split; [congruence|]. now apply (pystr_ltb_trans _ (snd b)).
Qed.

Lemma pair_ltb_total (a b : pystr * pystr) :
  pair_ltb a b = false -> pair_ltb b a = false -> a = b.
Proof.
  unfold pair_ltb. destruct a as [a1 a2], b as [b1 b2]. cbn [fst snd].
  rewrite !orb_false_iff, !andb_false_iff, !pystr_eqb_neq.
  intros [H1 H1'] [H2 H2'].
  assert (E : a1 = b1) by now apply pystr_ltb_total.
  subst b1. f_equal.
  apply pystr_ltb_total; [destruct H1'|destruct H2']; congruence.
Qed.

Lemma pair_goes_before_asym {A} (key : A -> pystr * pystr) (x y : A) :
  goes_before pair_ltb key false x y = true ->
  goes_before pair_ltb key false y x = false.
Proof.
  unfold goes_before. intros H.
  destruct (pair_ltb (key y) (key x)) eqn:E; [|reflexivity].
  pose proof (pair_ltb_trans _ _ _ H E) as Hxx.
  now rewrite pair_ltb_irrefl in Hxx.
Qed.

Lemma pair_goes_before_negtrans {A} (key : A -> pystr * pystr) (x y z : A) :
  goes_before pair_ltb key false y x = false ->
  goes_before pair_ltb key false z y = false ->
  goes_before pair_ltb key false z x = false.
Proof.
  unfold goes_before. intros Hyx Hzy.
  destruct (pair_ltb (key z) (key x)) eqn:Hzx; [|reflexivity].
  destruct (pair_ltb (key x) (key y)) eqn:Hxy.
  - pose proof (pair_ltb_trans _ _ _ Hzx Hxy). congruence.
  - pose proof (pair_ltb_total _ _ Hxy Hyx) as E. rewrite E in Hzx.
    congruence.
Qed.

(** X16.  In the default order the table shows the same rows sorted by
    schema name and then by table name, both compared code point by code
    point; when no two tables share schema and name, each row stands
    strictly before the rows after it. *)
Theorem _sort_tables_by_name (sort_by : pystr) (tables : list TableInfo) :
  sort_by <> py "data_diff" -> sort_by <> py "target_rows" ->
  sort_by <> py "source_rows" ->
  Permutation tables (_sort_tables sort_by tables) /\
  StronglySorted
    (fun a b => pair_ltb (table_key b) (table_key a) = false)
    (_sort_tables sort_by tables) /\
  (unique_keys tables ->
   StronglySorted
     (fun a b => pair_ltb (table_key a) (table_key b) = true)
     (_sort_tables sort_by tables)).
Proof.
  intros H1 H2 H3. unfold _sort_tables.
  apply pystr_eqb_neq in H1, H2, H3. rewrite H1, H2, H3.
  pose proof (@sorted_in_order _ _ pair_ltb table_key false
                (pair_goes_before_asym table_key)
                (pair_goes_before_negtrans table_key) tables) as Hs.
  pose proof (sorted_perm pair_ltb table_key false tables) as Hp.
  split; [exact Hp|]. split; [exact Hs|].
  intros Hu.
  assert (Hnd : NoDup (map table_key
                         (sorted pair_ltb table_key false tables))).
  { eapply Permutation_NoDup; [|exact Hu]. now apply Permutation_map. }
  revert Hs Hnd. generalize (sorted pair_ltb table_key false tables).
  induction 1 as [|x l Hl IH Hx]; intros Hnd; constructor.
  - apply IH. now inversion Hnd.
  - rewrite Forall_forall in *. intros y Hy.
    specialize (Hx y Hy). unfold in_order, goes_before in Hx.
    destruct (pair_ltb (table_key x) (table_key y)) eqn:E; [reflexivity|].
    pose proof (pair_ltb_total _ _ E Hx) as Ek.
    inversion Hnd as [|? ? Hnotin _]. exfalso. apply Hnotin.
    rewrite Ek. now apply in_map.
Qed.

Lemma _sort_tables_by_name_witness :
  Permutation [sample_users; sample_orders]
    (_sort_tables (py "schema_table") [sample_users; sample_orders]) /\
  StronglySorted
    (fun a b => pair_ltb (table_key a) (table_key b) = true)
    (_sort_tables (py "schema_table") [sample_users; sample_orders]).
Proof.
  destruct (@_sort_tables_by_name (py "schema_table")
              [sample_users; sample_orders]) as (Hp & _ & Hs);
    try discriminate.
  split; [exact Hp|]. apply Hs.
  repeat constructor; cbn; intuition discriminate.
Defined.

(** ** Relative times *)



(** ** The repository and the table service *)

Lemma dict_set_fresh {V} (d : dict V) (k : pystr) (v : V) :
  ~ In k (map fst d) -> dict_set d k v = d ++ [(k, v)].
Proof.
  induction d as [|[k' v'] d IH]; intros H; [reflexivity|].
  cbn [dict_set]. destruct (pystr_eqb k' k) eqn:E.
  - apply pystr_eqb_eq in E. subst. exfalso. apply H. now left.
  - cbn [app]. f_equal. apply IH. intros Hin. apply H. now right.
Qed.

Lemma dict_of_names_from {V} (value : pystr -> V) : forall names acc,
  NoDup names -> (forall k, In k names -> ~ In k (map fst acc)) ->
  fold_left (fun result name => dict_set result name (value name)) names acc
  = acc ++ map (fun name => (name, value name)) names.
Proof.
  induction names as [|n names IH]; intros acc Hnd Hdis; cbn [fold_left map].
  - now rewrite app_nil_r.
  - inversion Hnd as [|? ? Hn Hnd']; subst.
    rewrite dict_set_fresh by (apply Hdis; now left).
    rewrite IH; [now rewrite <- app_assoc|assumption|].
    intros k Hk. rewrite map_app, in_app_iff. cbn [map fst In].
    intros [H|[H|[]]].
    + apply (Hdis k); [now right|assumption].
    + subst. contradiction.
Qed.

Lemma dict_of_names_closed {V} (value : pystr -> V) (names : list pystr) :
  NoDup names ->
  dict_of_names value names = map (fun name => (name, value name)) names.
Proof.
  intros H. unfold dict_of_names. rewrite dict_of_names_from; auto.
Qed.

(** An assignment to the object stored under [k], when there is one. *)
Lemma update_in_place (f : TableInfo -> TableInfo) (k : pystr) :
  forall d : dict TableInfo,
    NoDup (map fst d) ->
    match dict_get d k with
    | Some t => dict_set d k (f t)
    | None => d
    end =
    map (fun kv => if pystr_eqb (fst kv) k then (fst kv, f (snd kv)) else kv)
        d.
Proof.
  induction d as [|[k' v'] d IH]; intros Hnd; [reflexivity|].
  inversion Hnd as [|? ? Hk Hnd']; subst.
  destruct (pystr_eqb k' k) eqn:E;
    cbn [dict_get dict_set map fst snd]; rewrite ?E;
    cbn [dict_get dict_set map fst snd]; rewrite ?E.
  - f_equal.
    apply pystr_eqb_eq in E. subst k'.
    rewrite <- (map_id d) at 1. apply map_ext_in. intros [k1 v1] Hin.
    cbn [fst snd].
    destruct (pystr_eqb k1 k) eqn:E1; [|reflexivity].
    apply pystr_eqb_eq in E1. subst. exfalso. apply Hk.
    change k with (fst (k, v1)). now apply in_map.
  - specialize (IH Hnd').
    destruct (dict_get d k) as [t|]; cbn [dict_set]; rewrite ?E;
      now rewrite <- IH.
Qed.

Lemma store_counts_from (store : Z -> TableInfo -> TableInfo)
    (value : pystr -> Z) : forall names (d : dict TableInfo),
  NoDup names -> NoDup (map fst d) ->
  store_counts store (map (fun name => (name, value name)) names) d =
  map (fun kv => if mem (fst kv) names
                 then (fst kv, store (value (fst kv)) (snd kv))
                 else kv) d.
Proof.
  induction names as [|n names IH]; intros d Hn Hd.
  - cbn. symmetry. apply map_id.
  - inversion Hn as [|? ? Hnotin Hn']; subst.
    unfold store_counts. cbn [map fold_left fst snd].
    rewrite (@update_in_place (store (value n)) n d Hd).
    fold (store_counts store (map (fun name => (name, value name)) names)
            (map (fun kv => if pystr_eqb (fst kv) n
                            then (fst kv, store (value n) (snd kv))
                            else kv) d)).
    rewrite IH; [|assumption|].
    + rewrite map_map. apply map_ext. intros [k v]. cbn [fst snd mem existsb].
      rewrite (pystr_eqb_sym k n).
      destruct (pystr_eqb n k) eqn:E; cbn [fst snd orb].
      * apply pystr_eqb_eq in E. subst k.
        replace (mem n names) with false; [reflexivity|].
        symmetry. destruct (mem n names) eqn:Em; [|reflexivity].
        apply mem_In in Em. contradiction.
      * reflexivity.
    + rewrite map_map.
      replace (map (fun x => fst (if pystr_eqb (fst x) n
                                  then (fst x, store (value n) (snd x))
                                  else x)) d) with (map fst d);
        [assumption|].
      apply map_ext. intros [k v]. cbn [fst snd].
      now destruct (pystr_eqb k n).
Qed.

Lemma store_counts_closed (store : Z -> TableInfo -> TableInfo)
    (value : pystr -> Z) (d : dict TableInfo) :
  NoDup (map fst d) ->
  store_counts store (dict_of_names value (map fst d)) d =
  map (fun kv => (fst kv, store (value (fst kv)) (snd kv))) d.
Proof.
  intros Hd. rewrite dict_of_names_closed by assumption.
  rewrite store_counts_from by assumption.
  apply map_ext_in. intros [k v] Hin. cbn [fst snd].
  replace (mem k (map fst d)) with true; [reflexivity|].
  symmetry. apply mem_In. change k with (fst (k, v)). now apply in_map.
Qed.

Lemma update_single_schema_table_counts_cases (repo : MySQLRepository)
    (schema : pystr) (names : list pystr) (b : bool) :
  update_single_schema_table_counts repo schema names b =
    (if repo_connect repo schema && repo_close_raises repo then None
     else Some (dict_of_names (repo_outcome repo schema b) names)).
Proof.
  unfold update_single_schema_table_counts, repo_outcome.
  destruct (repo_connect repo schema); cbn [negb andb]; [|reflexivity].
  destruct (repo_close_raises repo); [reflexivity|].
  now destruct b.
Qed.

Lemma match_nonempty {A B} (l : list A) (x y : B) :
  l <> [] -> match l with [] => x | _ :: _ => y end = y.
Proof. destruct l; [congruence|reflexivity]. Qed.

Lemma update_target_schema_tables_closed(repo : MySQLRepository)
    (current_time : datetime) (schema : pystr) (d : dict TableInfo)
    (b : bool) :
  NoDup (map fst d) ->
  update_target_schema_tables repo current_time schema d b =
    if repo_connect repo schema && repo_close_raises repo
    then match d with
         | [] => (true, d)
         | _ => (false,
                 map_values (set_target_updating false)
                   (map_values (set_target_updating true) d))
         end
    else (true,
          map (fun kv =>
                 (fst kv,
                  set_target_updating false
                    (store_target_count current_time b
                       (repo_outcome repo schema b (fst kv))
                       (set_target_updating true (snd kv))))) d).
Proof.
  intros Hd. unfold update_target_schema_tables.
  rewrite update_single_schema_table_counts_cases.
  destruct d as [|kv d'] eqn:Ed.
  { cbn. now destruct (_ && _). }
  rewrite <- Ed in *.
  rewrite match_nonempty by (rewrite Ed; discriminate).
  destruct (repo_connect repo schema && repo_close_raises repo).
  { now rewrite Ed. }
  f_equal.
  rewrite <- (map_values_keys (set_target_updating true) d) at 1.
  rewrite store_counts_closed by (now rewrite map_values_keys).
  unfold map_values. rewrite !map_map. reflexivity.
Qed.

Lemma update_source_schema_tables_closed (repo : MySQLRepository)
    (current_time : datetime) (schema : pystr) (d : dict TableInfo)
    (b : bool) :
  NoDup (map fst d) ->
  update_source_schema_tables repo current_time schema d b =
    if repo_connect repo schema && repo_close_raises repo
    then match d with
         | [] => (true, d)
         | _ => (false,
                 map_values (set_source_updating false)
                   (map_values (set_source_updating true) d))
         end
    else (true,
          map (fun kv =>
                 (fst kv,
                  set_source_updating false
                    (store_source_count current_time b
                       (repo_outcome repo schema b (fst kv))
                       (set_source_updating true (snd kv))))) d).
Proof.
  intros Hd. unfold update_source_schema_tables.
  rewrite update_single_schema_table_counts_cases.
  destruct d as [|kv d'] eqn:Ed.
  { cbn. now destruct (_ && _). }
  rewrite <- Ed in *.
  rewrite match_nonempty by (rewrite Ed; discriminate).
  destruct (repo_connect repo schema && repo_close_raises repo).
  { now rewrite Ed. }
  f_equal.
  rewrite <- (map_values_keys (set_source_updating true) d) at 1.
  rewrite store_counts_closed by (now rewrite map_values_keys).
  unfold map_values. rewrite !map_map. reflexivity.
Qed.

Lemma dict_of_names_get {V} (value : pystr -> V) (k : pystr) :
  forall names acc,
    dict_get
      (fold_left (fun result name => dict_set result name (value name))
                 names acc) k =
    if mem k names then Some (value k) else dict_get acc k.
Proof.
  induction names as [|n names IH]; intros acc; [reflexivity|].
  cbn [fold_left mem existsb]. rewrite IH. fold (mem k names).
  destruct (mem k names); [now rewrite orb_true_r|].
  rewrite orb_false_r. destruct (pystr_eqb k n) eqn:E.
  - apply pystr_eqb_eq in E. subst. apply dict_get_set_same.
  - apply pystr_eqb_neq in E. apply dict_get_set_other. congruence.
Qed.

Lemma stats_map_nonneg (rows : list stats_row) (k : pystr) (c : Z) :
  dict_get (stats_map rows) k = Some c -> 0 <= c.
Proof.
  unfold stats_map.
  assert (H : forall acc : dict Z,
            (forall k0 c0, In (k0, c0) acc -> 0 <= c0) ->
            forall k0 c0,
              In (k0, c0)
                 (fold_left
                    (fun m row =>
                       dict_set m (fst row) (estimated_rows (snd row)))
                    rows acc) -> 0 <= c0).
  { induction rows as [|r rows IH]; intros acc Hacc; [exact Hacc|].
    cbn [fold_left]. apply IH. intros k0 c0 Hin.
    apply dict_set_entries in Hin as [[_ ->]|Hin]; [|now apply (Hacc k0)].
    unfold estimated_rows. lia. }
  intros Hget. apply dict_get_In_pair in Hget.
  apply (H [] ltac:(intros ? ? []) k c Hget).
Qed.

Lemma schema_stats_nonneg (repo : MySQLRepository) (schema k : pystr) c :
  dict_get (get_schema_stats_from_information_schema repo schema) k = Some c
  -> 0 <= c.
Proof.
  unfold get_schema_stats_from_information_schema.
  destruct (repo_stats repo schema) as [rows|]; [|discriminate].
  apply stats_map_nonneg.
Qed.

Lemma repo_outcome_bounds (repo : MySQLRepository) (schema : pystr)
    (b : bool) (name : pystr) :
  -1 <= repo_outcome repo schema b name.
Proof.
  unfold repo_outcome, get_table_rows_count.
  destruct (repo_connect repo schema); cbn [negb]; [|lia].
  destruct b.
  - destruct (dict_get _ name) as [c|] eqn:E; [|lia].
    apply schema_stats_nonneg in E. lia.
  - destruct (repo_count repo schema name); lia.
Qed.

(** X18.  The counts of the repository: the dictionary holds one entry
    for each requested name and no other; a value is the count of the
    table, or its estimate, which is never negative, and -1 stands for a
    table that could not be read: every table when the connection fails,
    in exact mode a table whose count raises, in estimate mode a table
    the statistics do not list. *)
Theorem update_single_schema_table_counts_entries (repo : MySQLRepository)
    (schema_name : pystr) (table_names : list pystr) (use_estimation : bool)
    (result : dict Z) :
  update_single_schema_table_counts repo schema_name table_names
    use_estimation = Some result ->
  (forall name,
     dict_get result name =
       if mem name table_names
       then Some (repo_outcome repo schema_name use_estimation name)
       else None) /\
  (forall name, -1 <= repo_outcome repo schema_name use_estimation name) /\
  (repo_connect repo schema_name = false ->
   forall name, repo_outcome repo schema_name use_estimation name = -1) /\
  (repo_connect repo schema_name = true ->
   forall name,
     repo_outcome repo schema_name use_estimation name = -1 <->
     if use_estimation
     then dict_get (get_schema_stats_from_information_schema repo schema_name)
                   name = None
     else repo_count repo schema_name name = QRaise).
Proof.
  rewrite update_single_schema_table_counts_cases.
  destruct (repo_connect repo schema_name && repo_close_raises repo);
    [discriminate|].
  intros [= <-]. split; [|split; [|split]].
  - intros name. unfold dict_of_names. now rewrite dict_of_names_get.
  - intros name. apply repo_outcome_bounds.
  - intros Hc name. unfold repo_outcome. now rewrite Hc.
  - intros Hc name. unfold repo_outcome, get_table_rows_count.
    rewrite Hc. cbn [negb]. destruct use_estimation.
    + destruct (dict_get _ name) as [c|] eqn:E.
      * apply schema_stats_nonneg in E. split; [lia|discriminate].
      * split; reflexivity.
    + destruct (repo_count repo schema_name name); split;
        try reflexivity; try discriminate; lia.
Qed.

Lemma update_single_schema_table_counts_entries_witness :
  update_single_schema_table_counts (sample_repository [(orders, Some 4)]) db
    [orders; payments] true = Some [(orders, 4); (payments, -1)] /\
  dict_get [(orders, 4); (payments, -1)] payments =
    Some (repo_outcome (sample_repository [(orders, Some 4)]) db true
            payments).
Proof.
  split; [reflexivity|].
  destruct (@update_single_schema_table_counts_entries
              (sample_repository [(orders, Some 4)]) db [orders; payments]
              true [(orders, 4); (payments, -1)] eq_refl) as [H _].
  apply (H payments).
Defined.

Lemma store_target_count_fields (current_time : datetime) (b : bool)
    (count : Z) (t : TableInfo) :
  let a := store_target_count current_time b count t in
  target_rows a = count /\ last_updated a = current_time /\
  target_is_estimated a = b /\ is_first_query a = false /\
  previous_target_rows a =
    (if is_first_query t then count else target_rows t) /\
  target_last_updated a = target_last_updated t /\
  target_updating a = target_updating t /\
  source_view (@pair pystr _ [] a) = source_view ([], t) /\
  schema_name a = schema_name t /\
  target_table_name a = target_table_name t.
Proof.
  unfold store_target_count, roll_previous_target.
  destruct (is_first_query t) eqn:E; cbn; rewrite ?E; repeat split.
Qed.

Lemma store_source_count_fields (current_time : datetime) (b : bool)
    (count : Z) (t : TableInfo) :
  let a := store_source_count current_time b count t in
  source_rows a = count /\ source_last_updated a = current_time /\
  source_is_estimated a = b /\ is_first_query a = false /\
  previous_source_rows a =
    (if is_first_query t then count else source_rows t) /\
  source_updating a = source_updating t /\
  target_rows a = target_rows t /\
  previous_target_rows a = previous_target_rows t /\
  schema_name a = schema_name t /\
  target_table_name a = target_table_name t.
Proof.
  unfold store_source_count, roll_previous_source.
  destruct (is_first_query t) eqn:E; cbn; rewrite ?E; repeat split.
Qed.

Lemma Forall_map_values {V} (P : V -> Prop) (f : V -> V) (d : dict V) :
  (forall v, P (f v)) -> Forall (fun kv => P (snd kv)) (map_values f d).
Proof.
  intros H. unfold map_values. apply Forall_map.
  apply Forall_forall. intros [k v] _. apply H.
Qed.

(** X19.  The table service releases every record on every way out of a
    target update, which [finally] guarantees: no record is in flight
    afterwards, whether the counts were stored or the call ended with an
    exception, in which case it returns [False] and the counts are as
    they were.  The keys of the batch are kept. *)
Theorem update_target_schema_tables_releases (repo : MySQLRepository)
    (current_time : datetime) (schema_name : pystr)
    (tables_dict : dict TableInfo) (use_estimation : bool) :
  Forall (fun kv => target_updating (snd kv) = false)
         (snd (update_target_schema_tables repo current_time schema_name
                 tables_dict use_estimation)) /\
  (NoDup (map fst tables_dict) ->
   map fst (snd (update_target_schema_tables repo current_time schema_name
                   tables_dict use_estimation)) = map fst tables_dict /\
   (fst (update_target_schema_tables repo current_time schema_name
           tables_dict use_estimation) = false ->
    repo_connect repo schema_name = true /\
    repo_close_raises repo = true /\
    map (fun kv => (target_rows (snd kv), is_first_query (snd kv)))
        (snd (update_target_schema_tables repo current_time schema_name
                tables_dict use_estimation)) =
    map (fun kv => (target_rows (snd kv), is_first_query (snd kv)))
        tables_dict)).
Proof.
  split.
  - unfold update_target_schema_tables.
    destruct tables_dict as [|kv d]; [constructor|].
    cbn [map].
    destruct (update_single_schema_table_counts _ _ _ _); cbn [snd];
      now apply (Forall_map_values (fun t => target_updating t = false)).
  - intros Hd. rewrite update_target_schema_tables_closed by assumption.
    destruct (repo_connect repo schema_name) eqn:Hc,
             (repo_close_raises repo) eqn:Hr; cbn [andb snd fst].
    + destruct tables_dict as [|kv d]; [repeat split; discriminate|].
      cbn [snd fst]. split.
      * now rewrite !map_values_keys.
      * intros _. repeat split. unfold map_values. rewrite !map_map.
        apply map_ext. now intros [k t].
    + split; [|discriminate]. rewrite map_map. reflexivity.
    + split; [|discriminate]. rewrite map_map. reflexivity.
    + split; [|discriminate]. rewrite map_map. reflexivity.
Qed.

Lemma update_target_schema_tables_releases_witness :
  map fst (snd (update_target_schema_tables
                  (sample_repository []) 9 db users_tables false)) =
  map fst users_tables.
Proof.
  apply (update_target_schema_tables_releases
           (sample_repository []) 9 db users_tables false).
  repeat constructor. intros [].
Defined.

(** X20.  A target update that returns [True] has stored under each
    table the answer of the repository for that table alone: the count or
    the estimate, -1 for a table that could not be read, and -1 for every
    table when the connection fails, which the service reports as
    success.  [change] is then 0 for a record on its first query and the
    difference to the count found in the record otherwise.  The service
    stamps [last_updated]; [target_last_updated], which the display
    reads, stays as it was. *)
Theorem update_target_schema_tables_stores (repo : MySQLRepository)
    (current_time : datetime) (schema_name : pystr)
    (tables_dict : dict TableInfo) (use_estimation : bool) :
  NoDup (map fst tables_dict) ->
  fst (update_target_schema_tables repo current_time schema_name
         tables_dict use_estimation) = true ->
  Forall2
    (fun before after =>
       fst after = fst before /\
       target_rows (snd after) =
         repo_outcome repo schema_name use_estimation (fst before) /\
       (repo_connect repo schema_name = false ->
        target_rows (snd after) = -1) /\
       target_is_estimated (snd after) = use_estimation /\
       change (snd after) =
         (if is_first_query (snd before) then 0
          else target_rows (snd after) - target_rows (snd before)) /\
       last_updated (snd after) = current_time /\
       target_last_updated (snd after) = target_last_updated (snd before) /\
       source_view after = source_view before)
    tables_dict
    (snd (update_target_schema_tables repo current_time schema_name
            tables_dict use_estimation)).
Proof.
  intros Hd. rewrite update_target_schema_tables_closed by assumption.
  destruct (repo_connect repo schema_name && repo_close_raises repo).
  { destruct tables_dict; [intros _; constructor|discriminate]. }
  intros _. cbn [snd]. apply Forall2_map_right.
  intros [name t]. cbn [fst snd].
  destruct (store_target_count_fields current_time use_estimation
              (repo_outcome repo schema_name use_estimation name)
              (set_target_updating true t))
    as (H1 & H2 & H3 & H4 & H5 & H6 & H7 & H8 & _).
  split; [reflexivity|]. split; [exact H1|].
  split.
  { intros Hc. cbn [target_rows set_target_updating]. rewrite H1.
    unfold repo_outcome. now rewrite Hc. }
  split; [exact H3|]. split.
  { unfold change. cbn [is_first_query set_target_updating target_rows
                        previous_target_rows].
    rewrite H4, H1, H5. cbn [is_first_query set_target_updating target_rows].
    destruct (is_first_query t); lia. }
  split; [exact H2|]. split; [exact H6|].
  unfold source_view in *. cbn [fst snd] in *. exact H8.
Qed.

Lemma update_target_schema_tables_stores_witness :
  Forall2
    (fun before after =>
       fst after = fst before /\
       target_rows (snd after) =
         repo_outcome counting_repository db false (fst before) /\
       (repo_connect counting_repository db = false ->
        target_rows (snd after) = -1) /\
       target_is_estimated (snd after) = false /\
       change (snd after) =
         (if is_first_query (snd before) then 0
          else target_rows (snd after) - target_rows (snd before)) /\
       last_updated (snd after) = 9 /\
       target_last_updated (snd after) = target_last_updated (snd before) /\
       source_view after = source_view before)
    users_tables
    (snd (update_target_schema_tables counting_repository 9 db users_tables
            false)).
Proof.
  apply (@update_target_schema_tables_stores counting_repository 9 db
           users_tables false);
    [repeat constructor; intros []|reflexivity].
Defined.

(** X21.  The source update of the table service: no record is in
    flight afterwards on any way out; a call that returns [True] has
    stored under each table the answer of the source repository for the
    table of the same name, with the time of the update and the mode, and
    has left the target count as it was. *)
Theorem update_source_schema_tables_stores (repo : MySQLRepository)
    (current_time : datetime) (schema_name : pystr)
    (tables_dict : dict TableInfo) (use_estimation : bool) :
  Forall (fun kv => source_updating (snd kv) = false)
         (snd (update_source_schema_tables repo current_time schema_name
                 tables_dict use_estimation)) /\
  (NoDup (map fst tables_dict) ->
   fst (update_source_schema_tables repo current_time schema_name
          tables_dict use_estimation) = true ->
   Forall2
     (fun before after =>
        fst after = fst before /\
        source_rows (snd after) =
          repo_outcome repo schema_name use_estimation (fst before) /\
        source_is_estimated (snd after) = use_estimation /\
        source_last_updated (snd after) = current_time /\
        target_rows (snd after) = target_rows (snd before))
     tables_dict
     (snd (update_source_schema_tables repo current_time schema_name
             tables_dict use_estimation))).
Proof.
  split.
  - unfold update_source_schema_tables.
    destruct tables_dict as [|kv d]; [constructor|].
    cbn [map].
    destruct (update_single_schema_table_counts _ _ _ _); cbn [snd];
      now apply (Forall_map_values (fun t => source_updating t = false)).
  - intros Hd. rewrite update_source_schema_tables_closed by assumption.
    destruct (repo_connect repo schema_name && repo_close_raises repo).
    { destruct tables_dict; [intros _; constructor|discriminate]. }
    intros _. cbn [snd]. apply Forall2_map_right.
    intros [name t]. cbn [fst snd].
    destruct (store_source_count_fields current_time use_estimation
                (repo_outcome repo schema_name use_estimation name)
                (set_source_updating true t))
      as (H1 & H2 & H3 & _ & _ & _ & H7 & _).
    repeat split; assumption.
Qed.

Lemma update_source_schema_tables_stores_witness :
  Forall2
    (fun before after =>
       fst after = fst before /\
       source_rows (snd after) =
         repo_outcome counting_repository db false (fst before) /\
       source_is_estimated (snd after) = false /\
       source_last_updated (snd after) = 9 /\
       target_rows (snd after) = target_rows (snd before))
    users_tables
    (snd (update_source_schema_tables counting_repository 9 db users_tables
            false)).
Proof.
  apply (update_source_schema_tables_stores counting_repository 9 db
           users_tables false);
    [repeat constructor; intros []|reflexivity].
Defined.

(** X22.  The first-query mark is one flag for both sides: when the
    source update of a record runs before its first target update, the
    target update finds the mark cleared, takes the count found in the
    record as the previous one, and [change] reports the difference to
    that count where a first query reports 0. *)
Theorem first_query_mark_is_shared (source target : MySQLRepository)
    (source_time target_time : datetime) (schema_name : pystr)
    (tables_dict : dict TableInfo) (source_estimation target_estimation : bool) :
  NoDup (map fst tables_dict) ->
  repo_close_raises source = false -> repo_close_raises target = false ->
  Forall2
    (fun before after =>
       fst after = fst before /\
       is_first_query (snd after) = false /\
       change (snd after) =
         repo_outcome target schema_name target_estimation (fst before) -
         target_rows (snd before))
    tables_dict
    (snd (update_target_schema_tables target target_time schema_name
            (snd (update_source_schema_tables source source_time schema_name
                    tables_dict source_estimation))
            target_estimation)).
Proof.
  intros Hd Hs Ht.
  rewrite (@update_source_schema_tables_closed source source_time schema_name
             tables_dict source_estimation Hd).
  rewrite Hs, andb_false_r. cbn [snd].
  rewrite update_target_schema_tables_closed
    by (rewrite map_map; exact Hd).
  rewrite Ht, andb_false_r. cbn [snd]. rewrite map_map.
  apply Forall2_map_right. intros [name t]. cbn [fst snd].
  destruct (store_source_count_fields source_time source_estimation
              (repo_outcome source schema_name source_estimation name)
              (set_source_updating true t))
    as (_ & _ & _ & Hfq & _ & _ & Htr & _).
  cbn zeta in Hfq, Htr.
  set (s := store_source_count source_time source_estimation
              (repo_outcome source schema_name source_estimation name)
              (set_source_updating true t)) in *.
  destruct (store_target_count_fields target_time target_estimation
              (repo_outcome target schema_name target_estimation name)
              (set_target_updating true (set_source_updating false s)))
    as (H1 & _ & _ & H4 & H5 & _).
  cbn zeta in H1, H4, H5.
  split; [reflexivity|]. split.
  { cbn [is_first_query set_target_updating]. exact H4. }
  unfold change.
  cbn [is_first_query set_target_updating target_rows previous_target_rows].
  rewrite H4, H1, H5.
  cbn [is_first_query set_target_updating set_source_updating target_rows].
  rewrite Hfq, Htr. reflexivity.
Qed.

Lemma first_query_mark_is_shared_witness :
  Forall2
    (fun before after =>
       fst after = fst before /\
       is_first_query (snd after) = false /\
       change (snd after) =
         repo_outcome counting_repository db false (fst before) -
         target_rows (snd before))
    users_tables
    (snd (update_target_schema_tables counting_repository 9 db
            (snd (update_source_schema_tables counting_repository 8 db
                    users_tables true))
            false)).
Proof.
  apply (@first_query_mark_is_shared counting_repository counting_repository
           8 9 db users_tables true false);
    [repeat constructor; intros []|reflexivity|reflexivity].
Defined.

(** ** The passes of [cdc_monitor.py] *)

Lemma cdc_target_loop_closed (env : Env) (schema : pystr) :
  forall todo k done,
    cdc_target_loop env schema k done todo =
      (true, done ++ map (cdc_target_step env schema) todo) \/
    exists n, (n < length todo)%nat /\
      cdc_target_loop env schema k done todo =
        (false,
         map_values (set_target_updating false)
           (done ++ map (cdc_target_step env schema) (firstn n todo)
                 ++ skipn n todo)).
Proof.
  induction todo as [|[name ti] rest IH]; intros k done.
  - left. cbn. now rewrite app_nil_r.
  - cbn [cdc_target_loop]. destruct (stop_event_is_set env k).
    + right. exists 0%nat. split; [cbn; lia|reflexivity].
    + fold (source_outcome env schema name).
      destruct (IH (S k)
                  (done ++ [(name,
                             cdc_apply_target (now env)
                               (source_outcome env schema name) ti)]))
        as [E|(n & Hn & E)]; rewrite E.
      * left. now rewrite <- app_assoc.
      * right. exists (S n). split; [cbn; lia|].
        now rewrite <- app_assoc.
Qed.

Lemma cdc_target_pass_cases (env : Env) (schema : pystr) d :
  _update_single_schema_target_mysql env schema d = (false, d) /\
    (stop_event_is_set env 0 = true \/ connect_source env schema = false) \/
  _update_single_schema_target_mysql env schema d =
    (true,
     map (fun x => cdc_target_step env schema
                     (on_value mark_target_updating x)) d) \/
  exists n,
    _update_single_schema_target_mysql env schema d =
      (false,
       map (fun x => on_value (set_target_updating false)
                       (cdc_target_step env schema
                          (on_value mark_target_updating x)))
           (firstn n d) ++
       map (fun x => on_value (set_target_updating false)
                       (on_value mark_target_updating x))
           (skipn n d)).
Proof.
  unfold _update_single_schema_target_mysql.
  destruct (stop_event_is_set env 0); [left; auto|].
  destruct (connect_source env schema); cbn [negb]; [|left; auto].
  right.
  destruct (cdc_target_loop_closed env schema
              (map_values mark_target_updating d) 1 [])
    as [E|(n & _ & E)]; rewrite E; cbn [app].
  - left. unfold map_values. now rewrite map_map.
  - right. exists n. unfold map_values.
    now rewrite map_app, firstn_map, skipn_map, !map_map.
Qed.

Lemma cdc_apply_target_fields now v t :
  target_rows (cdc_apply_target now v t) = v /\
  target_updating (cdc_apply_target now v t) = false /\
  target_is_estimated (cdc_apply_target now v t) = false /\
  target_last_updated (cdc_apply_target now v t) = now /\
  source_rows (cdc_apply_target now v t) = source_rows t.
Proof.
  unfold cdc_apply_target, roll_previous_target.
  destruct (is_first_query t); cbn; auto.
Qed.

(** X23.  The target pass of [cdc_monitor.py] releases every record it
    marked, a record whose count raised included: once the pass has got
    its connection no record of the batch is in flight when it ends,
    however it ends.  The connection it gets is one to the source server:
    a pass that runs to its end stores as the target count of each table
    the count read there, -1 when that query raises. *)
Theorem cdc_target_pass_releases (env : Env) (schema : pystr)
    (tables_dict : dict TableInfo) :
  (stop_event_is_set env 0 = false -> connect_source env schema = true ->
   Forall (fun kv => target_updating (snd kv) = false)
          (snd (_update_single_schema_target_mysql env schema tables_dict)))
  /\
  (fst (_update_single_schema_target_mysql env schema tables_dict) = true ->
   Forall2
     (fun before after =>
        fst after = fst before /\
        target_rows (snd after) = source_outcome env schema (fst before) /\
        target_is_estimated (snd after) = false /\
        target_last_updated (snd after) = now env /\
        source_rows (snd after) = source_rows (snd before))
     tables_dict
     (snd (_update_single_schema_target_mysql env schema tables_dict))).
Proof.
  split.
  - intros Hs Hc.
    destruct (cdc_target_pass_cases env schema tables_dict)
      as [[_ [H|H]]|[E|(n & E)]]; try congruence; rewrite E; cbn [snd].
    + apply Forall_map. apply Forall_forall. intros [name t] _.
      apply cdc_apply_target_fields.
    + apply Forall_app. split; apply Forall_map; apply Forall_forall;
        intros [name t] _; reflexivity.
  - destruct (cdc_target_pass_cases env schema tables_dict)
      as [[E _]|[E|(n & E)]]; rewrite E; cbn [fst snd]; try discriminate.
    intros _. apply Forall2_map_right. intros [name t].
    unfold cdc_target_step, on_value. cbn [fst snd].
    destruct (cdc_apply_target_fields (now env)
                (source_outcome env schema name) (mark_target_updating t))
      as (H1 & _ & H3 & H4 & H5).
    repeat split; auto. rewrite H5. apply mark_target_updating_fields.
Qed.

Lemma cdc_target_pass_releases_witness :
  Forall (fun kv => target_updating (snd kv) = false)
         (snd (_update_single_schema_target_mysql failing_target_env db
                 users_tables)) /\
  Forall2
    (fun before after =>
       fst after = fst before /\
       target_rows (snd after) =
         source_outcome failing_target_env db (fst before) /\
       target_is_estimated (snd after) = false /\
       target_last_updated (snd after) = now failing_target_env /\
       source_rows (snd after) = source_rows (snd before))
    users_tables
    (snd (_update_single_schema_target_mysql failing_target_env db
            users_tables)).
Proof.
  destruct (cdc_target_pass_releases failing_target_env db users_tables)
    as [H1 H2].
  split; [apply H1; reflexivity|apply H2; reflexivity].
Defined.

Lemma cdc_source_exact_loop_closed (env : Env) :
  forall todo k done,
    cdc_source_exact_loop env k done todo =
      (true, done ++ map (cdc_source_exact_step env) todo) \/
    exists n, (n < length todo)%nat /\
      cdc_source_exact_loop env k done todo =
        (false,
         map_values (set_source_updating false)
           (done ++ map (cdc_source_exact_step env) (firstn n todo)
                 ++ skipn n todo)).
Proof.
  induction todo as [|[name ti] rest IH]; intros k done.
  - left. cbn. now rewrite app_nil_r.
  - cbn [cdc_source_exact_loop]. destruct (stop_event_is_set env k).
    + right. exists 0%nat. split; [cbn; lia|reflexivity].
    + destruct (stop_event_is_set env (S k)).
      * right. exists 0%nat. split; [cbn; lia|reflexivity].
      * destruct (IH (S (S k))
                    (done ++ [(name,
                               cdc_apply_source_exact (now env) 0 ti)]))
          as [E|(n & Hn & E)]; rewrite E.
        -- left. now rewrite <- app_assoc.
        -- right. exists (S n). split; [cbn; lia|].
           now rewrite <- app_assoc.
Qed.

Lemma cdc_source_exact_pass_cases (env : Env) statistics (schema : pystr) d :
  _update_single_schema_source_mysql env statistics schema d false =
    (false, d) \/
  _update_single_schema_source_mysql env statistics schema d false =
    (true,
     map (fun x => cdc_source_exact_step env
                     (on_value mark_source_updating x)) d) \/
  exists n,
    _update_single_schema_source_mysql env statistics schema d false =
      (false,
       map (fun x => on_value (set_source_updating false)
                       (cdc_source_exact_step env
                          (on_value mark_source_updating x)))
           (firstn n d) ++
       map (fun x => on_value (set_source_updating false)
                       (on_value mark_source_updating x))
           (skipn n d)).
Proof.
  unfold _update_single_schema_source_mysql.
  destruct (stop_event_is_set env 0); [left; auto|].
  destruct (connect_source env schema); cbn [negb]; [|left; auto].
  right.
  destruct (cdc_source_exact_loop_closed env
              (map_values mark_source_updating d) 1 [])
    as [E|(n & _ & E)]; rewrite E; cbn [app].
  - left. unfold map_values. now rewrite map_map.
  - right. exists n. unfold map_values.
    now rewrite map_app, firstn_map, skipn_map, !map_map.
Qed.

(** X24.  The exact source pass of [cdc_monitor.py] counts nothing: it
    leaves the source count of a record as it was or stores 0, and a pass
    that runs to its end has stored 0 as the exact source count of every
    table, whatever the source server holds. *)
Theorem cdc_source_exact_pass_stores_zero (env : Env)
    (statistics : option (list stats_row)) (schema : pystr)
    (tables_dict : dict TableInfo) :
  Forall2
    (fun before after =>
       fst after = fst before /\
       (source_rows (snd after) = source_rows (snd before) \/
        source_rows (snd after) = 0))
    tables_dict
    (snd (_update_single_schema_source_mysql env statistics schema
            tables_dict false)) /\
  (fst (_update_single_schema_source_mysql env statistics schema
          tables_dict false) = true ->
   Forall
     (fun kv =>
        source_rows (snd kv) = 0 /\ source_is_estimated (snd kv) = false /\
        source_updating (snd kv) = false /\
        source_last_updated (snd kv) = now env)
     (snd (_update_single_schema_source_mysql env statistics schema
             tables_dict false))).
Proof.
  split.
  - destruct (cdc_source_exact_pass_cases env statistics schema tables_dict)
      as [E|[E|(n & E)]]; rewrite E; cbn [snd].
    + apply Forall2_same. auto.
    + apply Forall2_map_right. intros [name t]. cbn. auto.
    + apply Forall2_two_parts; intros [name t]; cbn; auto.
      split; [reflexivity|left]. unfold mark_source_updating.
      now destruct (source_updating t).
  - destruct (cdc_source_exact_pass_cases env statistics schema tables_dict)
      as [E|[E|(n & E)]]; rewrite E; cbn [fst snd]; try discriminate.
    intros _. apply Forall_map. apply Forall_forall. intros [name t] _.
    cbn. auto.
Qed.

Lemma cdc_source_exact_pass_stores_zero_witness :
  Forall
    (fun kv =>
       source_rows (snd kv) = 0 /\ source_is_estimated (snd kv) = false /\
       source_updating (snd kv) = false /\
       source_last_updated (snd kv) = now agreeing_env)
    (snd (_update_single_schema_source_mysql agreeing_env None db
            users_tables false)).
Proof.
  apply (cdc_source_exact_pass_stores_zero agreeing_env None db users_tables).
  reflexivity.
Defined.

Lemma cdc_table_rows_map_last (rows : list stats_row) (row : stats_row) :
  dict_get (cdc_table_rows_map (rows ++ [row])) (fst row) =
  Some (cdc_row_estimate (snd row)).
Proof.
  unfold cdc_table_rows_map. rewrite fold_left_app. cbn [fold_left].
  apply dict_get_set_same.
Qed.

Lemma cdc_last_row (rows : list stats_row) :
  rows = [] /\ cdc_last_table_name rows = None \/
  exists name,
    cdc_last_table_name rows = Some name /\
    dict_get (cdc_table_rows_map rows) name = Some (cdc_last_estimate rows).
Proof.
  destruct (rev rows) as [|row r] eqn:E.
  - left. split.
    + rewrite <- (rev_involutive rows), E. reflexivity.
    + unfold cdc_last_table_name. now rewrite E.
  - right. exists (fst row). unfold cdc_last_table_name, cdc_last_estimate.
    rewrite E. split; [reflexivity|].
    assert (Hr : rows = rev r ++ [row])
      by (rewrite <- (rev_involutive rows), E; reflexivity).
    rewrite Hr. apply cdc_table_rows_map_last.
Qed.

Lemma cdc_source_estimate_loop_closed (env : Env) (m : dict Z)
    (table_name : pystr) :
  forall todo k done,
    exists n,
      snd (cdc_source_estimate_loop env m (Some table_name) k done todo) =
      done ++ map (cdc_source_estimate_step env m table_name) (firstn n todo)
           ++ skipn n todo /\
      (fst (cdc_source_estimate_loop env m (Some table_name) k done todo)
         = true -> (length todo <= n)%nat).
Proof.
  induction todo as [|[name ti] rest IH]; intros k done.
  - exists 0%nat. cbn. split; [now rewrite app_nil_r|lia].
  - cbn [cdc_source_estimate_loop]. destruct (stop_event_is_set env k).
    + exists 0%nat. cbn [fst snd firstn skipn map app].
      split; [reflexivity|discriminate].
    + assert (Hstep : forall E : bool,
                (if source_updating ti
                 then cdc_source_estimate_loop env m (Some table_name) (S k)
                        (done ++ [(name, ti)]) rest
                 else cdc_source_estimate_loop env m (Some table_name) (S k)
                        (done ++ [(name,
                                   cdc_apply_source_estimate (now env) m
                                     table_name ti)]) rest) =
                cdc_source_estimate_loop env m (Some table_name) (S k)
                  (done ++ [cdc_source_estimate_step env m table_name
                              (name, ti)]) rest).
      { intros _. unfold cdc_source_estimate_step. cbn [fst snd].
        now destruct (source_updating ti). }
      rewrite (Hstep true).
      destruct (IH (S k)
                  (done ++ [cdc_source_estimate_step env m table_name
                              (name, ti)])) as (n & E & Hn).
      exists (S n). rewrite E. cbn [firstn skipn map length].
      split; [now rewrite <- app_assoc|].
      intros H. apply Hn in H. lia.
Qed.

(** X25.  In estimate mode the source pass of [cdc_monitor.py] reads the
    statistics under the name left over from the loop over their rows:
    a pass that runs to its end gives every record that was not in flight
    the estimate of the last row of the statistics, whatever the name of
    the record, and leaves the records in flight as they were. *)
Theorem cdc_source_estimate_pass_reads_last_row (env : Env)
    (rows : list stats_row) (schema : pystr) (tables_dict : dict TableInfo) :
  rows <> [] ->
  fst (_update_single_schema_source_mysql env (Some rows) schema tables_dict
         true) = true ->
  Forall2
    (fun before after =>
       fst after = fst before /\
       (source_updating (snd before) = true -> after = before) /\
       (source_updating (snd before) = false ->
        source_rows (snd after) = cdc_last_estimate rows /\
        source_is_estimated (snd after) = true /\
        source_updating (snd after) = false))
    tables_dict
    (snd (_update_single_schema_source_mysql env (Some rows) schema
            tables_dict true)).
Proof.
  intros Hrows. unfold _update_single_schema_source_mysql.
  destruct (stop_event_is_set env 0); [discriminate|].
  destruct (connect_source env schema); cbn [negb]; [|discriminate].
  destruct (stop_event_is_set env 1); [discriminate|].
  destruct (cdc_last_row rows) as [[E _]|(name & -> & Hget)];
    [contradiction|].
  intros Hfst.
  destruct (cdc_source_estimate_loop_closed env (cdc_table_rows_map rows)
              name tables_dict 2 []) as (n & E & Hn).
  rewrite E. specialize (Hn Hfst).
  rewrite firstn_all2, skipn_all2 by assumption.
  cbn [app]. rewrite app_nil_r. apply Forall2_map_right.
  intros [k t]. unfold cdc_source_estimate_step. cbn [fst snd].
  destruct (source_updating t) eqn:Eu.
  - repeat split; auto; discriminate.
  - split; [reflexivity|]. split; [discriminate|]. intros _.
    unfold cdc_apply_source_estimate. rewrite Hget. cbn. auto.
Qed.

Lemma cdc_source_estimate_pass_reads_last_row_witness :
  Forall2
    (fun before after =>
       fst after = fst before /\
       (source_updating (snd before) = true -> after = before) /\
       (source_updating (snd before) = false ->
        source_rows (snd after) = cdc_last_estimate sample_statistics /\
        source_is_estimated (snd after) = true /\
        source_updating (snd after) = false))
    two_tables
    (snd (_update_single_schema_source_mysql agreeing_env
            (Some sample_statistics) db two_tables true)).
Proof.
  apply (@cdc_source_estimate_pass_reads_last_row agreeing_env
           sample_statistics db two_tables);
    [discriminate|reflexivity].
Defined.

(** ** The first counts *)

Lemma apply_target_startup_fields now v t :
  let a := apply_target_startup now v t in
  target_rows a = v /\ target_is_estimated a = true /\
  target_updating a = false /\ is_first_query a = false /\
  target_last_updated a = now /\
  previous_target_rows a = (if is_first_query t then v else target_rows t) /\
  kept_view (@pair pystr _ [] a) = kept_view ([], t) /\
  source_view (@pair pystr _ [] a) = source_view ([], t).
Proof.
  unfold apply_target_startup, roll_previous_target.
  destruct (is_first_query t) eqn:E; cbn; rewrite ?E; repeat split.
Qed.

Lemma apply_source_startup_fields now v t :
  let a := apply_source_startup now v t in
  source_rows a = v /\ source_is_estimated a = true /\
  source_last_updated a = now /\
  kept_view (@pair pystr _ [] a) = kept_view ([], t) /\
  target_rows a = target_rows t /\
  source_updating a = source_updating t.
Proof.
  unfold apply_source_startup, roll_previous_source.
  destruct (is_first_query t) eqn:E; cbn; rewrite ?E; repeat split.
Qed.

Lemma kept_view_key (k : pystr) (a t : TableInfo) :
  kept_view (@pair pystr _ [] a) = kept_view ([], t) ->
  kept_view (k, a) = kept_view (k, t).
Proof. unfold kept_view. cbn. congruence. Qed.

Lemma startup_target_tables_view (env : Env) closed (schema : pystr)
    (m : dict Z) : forall todo k done,
  map kept_view (fst (startup_target_tables env closed schema m k done todo))
  = map kept_view (done ++ todo).
Proof.
  induction todo as [|[name ti] rest IH]; intros k done.
  - cbn. now rewrite app_nil_r.
  - cbn [startup_target_tables].
    assert (Hone : forall c,
              map kept_view
                (done ++ [(name, apply_target_startup (now env) c ti)] ++ rest)
              = map kept_view (done ++ (name, ti) :: rest)).
    { intros c. apply view_app_one. apply kept_view_key.
      apply apply_target_startup_fields. }
    destruct (dict_get m name) as [c|].
    + rewrite IH, <- app_assoc. apply Hone.
    + destruct (closed k); rewrite IH, <- app_assoc;
        [reflexivity|apply Hone].
Qed.

Lemma nested_view_app {A} (view : pystr * TableInfo -> A) a b :
  nested_view view (a ++ b) = nested_view view a ++ nested_view view b.
Proof. unfold nested_view. apply map_app. Qed.

Lemma get_target_rows_loop_view (env : Env) closed : forall todo k done,
  nested_view kept_view (get_target_rows_loop env closed k done todo) =
  nested_view kept_view (done ++ todo).
Proof.
  induction todo as [|[schema d] rest IH]; intros k done.
  - cbn. now rewrite app_nil_r.
  - cbn [get_target_rows_loop]. destruct (closed k); [reflexivity|].
    destruct (target_stats env schema) as [rows|].
    + pose proof (startup_target_tables_view env closed schema
                    (stats_map rows) d (S k) []) as Hv.
      destruct (startup_target_tables env closed schema (stats_map rows)
                  (S k) [] d) as [d' k'].
      rewrite IH, <- app_assoc, !nested_view_app. cbn [fst app] in Hv.
      cbn [nested_view map fst snd app]. now rewrite Hv.
    + now rewrite IH, <- app_assoc.
Qed.

Lemma get_source_rows_loop_view (env : Env) closed : forall todo k done,
  nested_view kept_view (get_source_rows_loop env closed k done todo) =
  nested_view kept_view (done ++ todo).
Proof.
  induction todo as [|[schema d] rest IH]; intros k done.
  - cbn. now rewrite app_nil_r.
  - cbn [get_source_rows_loop]. destruct (closed k); [reflexivity|].
    destruct (unique_names _) as [|n0 ns].
    { now rewrite IH, <- app_assoc. }
    destruct (source_stats_in env schema (n0 :: ns)) as [rows|].
    + rewrite IH, <- app_assoc, !nested_view_app.
      cbn [nested_view map fst snd app]. do 3 f_equal.
      apply map_values_view. intros name t. apply kept_view_key.
      apply apply_source_startup_fields.
    + destruct (closed (S k)); [|reflexivity].
      now rewrite IH, <- app_assoc.
Qed.

Lemma first_counts_view (env : Env) tc sc tt :
  nested_view kept_view (first_counts env tc sc tt) =
  nested_view kept_view tt.
Proof.
  unfold first_counts, get_source_rows_from_information_schema,
    get_target_rows_from_information_schema.
  rewrite get_source_rows_loop_view. cbn [app].
  now rewrite get_target_rows_loop_view.
Qed.

(** The records of two nested dictionaries with the same views. *)
Lemma nested_view_records {A B} (view : pystr * TableInfo -> A)
    (f : TableInfo -> B) :
  (forall x y, view x = view y -> f (snd x) = f (snd y)) ->
  forall tt tt',
    nested_view view tt = nested_view view tt' ->
    map f (records tt) = map f (records tt').
Proof.
  intros Hf. induction tt as [|[s d] tt IH]; intros [|[s' d'] tt'] H;
    try discriminate; [reflexivity|].
  cbn in H. injection H as _ Hd Ht.
  unfold records. cbn [map concat fst snd]. rewrite !map_app.
  f_equal; [|now apply IH].
  unfold values. rewrite !map_map.
  revert d' Hd. induction d as [|x d IHd]; intros [|y d'] Hd;
    try discriminate; [reflexivity|].
  cbn in Hd. injection Hd as Hx Hd. cbn [map]. f_equal; [now apply Hf|].
  now apply IHd.
Qed.

Lemma initialize_schema_not_paused now schema srcs : forall tnames acc ti,
  (forall x, In x (values acc) -> pause_auto_refresh x = false) ->
  In ti (values
           (fold_left
              (fun target_tables target_table =>
                 dict_set target_tables target_table
                   (set_source_tables (reverse_mapping target_table srcs)
                      (new_table_info now schema target_table)))
              tnames acc)) ->
  pause_auto_refresh ti = false.
Proof.
  induction tnames as [|t tnames IH]; intros acc ti Hacc Hin;
    [now apply Hacc|].
  cbn [fold_left] in Hin. apply IH in Hin; [assumption|].
  intros x Hx. apply values_dict_set_In in Hx as [->|Hx];
    [reflexivity|now apply Hacc].
Qed.

Lemma initial_tables_not_paused now databases listing ti :
  In ti (initial_tables now databases listing) ->
  pause_auto_refresh ti = false.
Proof.
  unfold initial_tables, initialize_tables_from_target.
  assert (H : forall dbs acc,
            (forall x, In x (records acc) -> pause_auto_refresh x = false) ->
            forall x,
              In x (records
                      (fold_left
                         (fun schema_tables schema_name =>
                            let schema_name := strip schema_name in
                            if is_empty schema_name then schema_tables
                            else
                              match fst (listing schema_name) with
                              | None => schema_tables
                              | Some target_table_names =>
                                  let target_tables :=
                                    initialize_schema now schema_name
                                      target_table_names
                                      (snd (listing schema_name)) in
                                  match target_tables with
                                  | [] => schema_tables
                                  | _ => dict_set schema_tables schema_name
                                           target_tables
                                  end
                              end) dbs acc)) ->
              pause_auto_refresh x = false).
  { induction dbs as [|s dbs IH]; intros acc Hacc x Hx; [now apply Hacc|].
    cbn [fold_left] in Hx. apply IH in Hx; [assumption|]. clear Hx x.
    intros x Hx. cbn zeta in Hx.
    destruct (is_empty (strip s)); [now apply Hacc|].
    destruct (fst (listing (strip s))) as [tnames|]; [|now apply Hacc].
    destruct (initialize_schema now (strip s) tnames
                (snd (listing (strip s)))) as [|e es] eqn:Ei;
      [now apply Hacc|].
    apply records_dict_set in Hx as [Hx|Hx]; [|now apply Hacc].
    rewrite <- Ei in Hx. unfold initialize_schema in Hx.
    apply initialize_schema_not_paused in Hx; [assumption|].
    intros y []. }
  apply H. intros x [].
Qed.

(** X26.  The first counts pause nothing and rename nothing, so the first
    tick polls every table: after [start_monitoring] the table list has
    the keys, the source lists and the unset pause flags of the
    initialization, and the first run of [refresh_data] selects every
    record of it, whatever the first counts found. *)
Theorem first_tick_selects_every_table (env : Env)
    (target_closed source_closed : nat -> bool) (databases : list pystr)
    (listing : pystr -> option (list pystr) * list pystr)
    (source_update_interval : Z) :
  let app :=
    start_monitoring env target_closed source_closed databases listing
      source_update_interval in
  map (fun t => (table_key t, source_tables t, pause_auto_refresh t))
      (tables app) =
    map (fun t => (table_key t, source_tables t, pause_auto_refresh t))
        (initial_tables (now env) databases listing) /\
  unique_keys (tables app) /\
  Forall (fun t => pause_auto_refresh t = false) (tables app) /\
  forall r, In r (tables app) -> In r (selected_records (refresh_data app)).
Proof.
  intros app.
  assert (Hview : map (fun t => (table_key t, source_tables t,
                                 pause_auto_refresh t)) (tables app) =
                  map (fun t => (table_key t, source_tables t,
                                 pause_auto_refresh t))
                      (initial_tables (now env) databases listing)).
  { unfold app, start_monitoring, initial_tables. cbn [tables].
    apply (@nested_view_records _ _ kept_view).
    - intros [k t] [k' t']. unfold kept_view, table_key. cbn [fst snd].
      congruence.
    - apply first_counts_view. }
  assert (Hkeys : map table_key (tables app) =
                  map table_key
                      (initial_tables (now env) databases listing)).
  { apply (f_equal (map (fun x => fst (fst x)))) in Hview.
    now rewrite !map_map in Hview. }
  assert (Hpause : Forall (fun t => pause_auto_refresh t = false)
                          (tables app)).
  { assert (Hp : map pause_auto_refresh (tables app) =
                 map pause_auto_refresh
                     (initial_tables (now env) databases listing)).
    { apply (f_equal (map snd)) in Hview. rewrite !map_map in Hview.
      exact Hview. }
    apply Forall_forall. intros t Ht.
    apply (in_map pause_auto_refresh) in Ht. rewrite Hp in Ht.
    apply in_map_iff in Ht as (t' & E & Ht'). rewrite <- E.
    now apply initial_tables_not_paused in Ht'. }
  assert (Hu : unique_keys (tables app)).
  { unfold unique_keys. rewrite Hkeys. apply initial_tables_unique_keys. }
  split; [exact Hview|]. split; [exact Hu|]. split; [exact Hpause|].
  intros r Hr. unfold selected_records.
  rewrite refresh_data_selected_running by reflexivity.
  apply (@lookup2_In _ (schema_name r) (target_table_name r)).
  apply build_lookup; [assumption|assumption|].
  rewrite Forall_forall in Hpause. rewrite (Hpause r Hr).
  apply andb_false_r.
Qed.

Lemma first_tick_selects_every_table_witness :
  In (nth 0 (tables sample_start) sample_equal)
     (selected_records (refresh_data sample_start)).
Proof.
  apply (first_tick_selects_every_table scenario_env stays_open stays_open
           [db] scenario_listing 5).
  vm_compute. left. reflexivity.
Defined.

Lemma startup_target_tables_open (env : Env) closed (schema : pystr) rows :
  (forall k, closed k = false) ->
  forall todo k done,
    fst (startup_target_tables env closed schema (stats_map rows) k done todo)
    = done ++ map (startup_target_step env schema rows) todo.
Proof.
  intros Hopen. induction todo as [|[name ti] rest IH]; intros k done.
  - cbn. now rewrite app_nil_r.
  - cbn [startup_target_tables map].
    assert (Hstep :
              startup_target_step env schema rows (name, ti) =
              (name,
               apply_target_startup (now env)
                 (match dict_get (stats_map rows) name with
                  | Some c => c
                  | None => target_outcome env schema name
                  end) ti)) by reflexivity.
    rewrite Hstep.
    destruct (dict_get (stats_map rows) name) as [c|].
    + rewrite IH, <- app_assoc. reflexivity.
    + rewrite Hopen, IH, <- app_assoc. reflexivity.
Qed.

Lemma get_target_rows_loop_open (env : Env) closed :
  (forall k, closed k = false) ->
  forall todo k done,
    get_target_rows_loop env closed k done todo =
    done ++ map (startup_target_schema env) todo.
Proof.
  intros Hopen. induction todo as [|[schema d] rest IH]; intros k done.
  - cbn. now rewrite app_nil_r.
  - cbn [get_target_rows_loop map]. rewrite Hopen.
    assert (Hstep :
              startup_target_schema env (schema, d) =
              match target_stats env schema with
              | Some rows =>
                  (schema, map (startup_target_step env schema rows) d)
              | None => (schema, d)
              end) by reflexivity.
    rewrite Hstep.
    destruct (target_stats env schema) as [rows|].
    + pose proof (@startup_target_tables_open env closed schema rows Hopen d
                    (S k) []) as Hd.
      destruct (startup_target_tables env closed schema (stats_map rows)
                  (S k) [] d) as [d' k'].
      cbn [fst app] in Hd. subst d'. now rewrite IH, <- app_assoc.
    + now rewrite IH, <- app_assoc.
Qed.

(** X27.  The first target count, on a connection that stays open: in a
    schema whose statistics can be read, every table gets its estimate,
    which is never negative, or, when the statistics do not list it, its
    exact count, -1 when that count raises; either way the record is
    marked as an estimate, is past its first query and not in flight.  A
    schema whose statistics cannot be read keeps its records as they
    are. *)
Theorem first_target_count (env : Env) (closed : nat -> bool)
    (target_tables : dict (dict TableInfo)) :
  (forall k, closed k = false) ->
  Forall2
    (fun before after =>
       fst after = fst before /\
       match target_stats env (fst before) with
       | None => snd after = snd before
       | Some rows =>
           Forall2
             (fun b a =>
                fst a = fst b /\
                target_rows (snd a) =
                  startup_target_outcome env (fst before) rows (fst b) /\
                -1 <= target_rows (snd a) /\
                (In (fst b) (map fst (stats_map rows)) ->
                 0 <= target_rows (snd a)) /\
                (~ In (fst b) (map fst (stats_map rows)) ->
                 target_rows (snd a) = target_outcome env (fst before) (fst b))
                /\
                target_is_estimated (snd a) = true /\
                target_updating (snd a) = false /\
                is_first_query (snd a) = false /\
                source_view a = source_view b)
             (snd before) (snd after)
       end)
    target_tables
    (get_target_rows_from_information_schema env closed target_tables).
Proof.
  intros Hopen. unfold get_target_rows_from_information_schema.
  rewrite get_target_rows_loop_open by assumption. cbn [app].
  apply Forall2_map_right. intros [schema d].
  unfold startup_target_schema. cbn [fst snd].
  destruct (target_stats env schema) as [rows|]; [|auto].
  cbn [fst snd]. split; [reflexivity|].
  apply Forall2_map_right. intros [name t].
  unfold startup_target_step. cbn [fst snd].
  destruct (apply_target_startup_fields (now env)
              (startup_target_outcome env schema rows name) t)
    as (H1 & H2 & H3 & H4 & _ & _ & _ & H8).
  cbn zeta in *.
  set (x := startup_target_outcome env schema rows name) in *.
  assert (Hcases :
            (0 <= x /\ In name (map fst (stats_map rows))) \/
            (x = target_outcome env schema name /\
             ~ In name (map fst (stats_map rows)))).
  { unfold x, startup_target_outcome.
    destruct (dict_get (stats_map rows) name) as [c|] eqn:E.
    - left. split.
      + now apply stats_map_nonneg in E.
      + apply dict_get_In_pair in E. change name with (fst (name, c)).
        now apply in_map.
    - right. split; [reflexivity|]. intros Hin.
      apply in_map_iff in Hin as ([k c] & Hk & Hin). cbn in Hk. subst k.
      clear - E Hin. induction (stats_map rows) as [|[k' c'] m IH];
        [destruct Hin|].
      cbn in E. destruct (pystr_eqb k' name) eqn:Ek; [discriminate|].
      destruct Hin as [Hin|Hin]; [|now apply IH].
      injection Hin as -> _. now rewrite pystr_eqb_refl in Ek. }
  assert (Hlow : -1 <= target_outcome env schema name).
  { unfold target_outcome. destruct (target_count env schema name); lia. }
  assert (Hsv : source_view (name, apply_target_startup (now env) x t) =
                source_view (name, t)).
  { unfold source_view in *. cbn [fst snd] in *. exact H8. }
  split; [reflexivity|]. split; [exact H1|]. rewrite H1.
  split; [destruct Hcases as [[Hc _]|[-> _]]; lia|].
  split; [intros Hin; destruct Hcases as [[Hc _]|[_ Hn]];
          [exact Hc|contradiction]|].
  split; [intros Hn; destruct Hcases as [[_ Hin]|[Hx _]];
          [contradiction|exact Hx]|].
  repeat split; assumption.
Qed.

Lemma first_target_count_witness :
  Forall2
    (fun before after =>
       fst after = fst before /\
       match target_stats startup_env (fst before) with
       | None => snd after = snd before
       | Some rows =>
           Forall2
             (fun b a =>
                fst a = fst b /\
                target_rows (snd a) =
                  startup_target_outcome startup_env (fst before) rows (fst b)
                /\
                -1 <= target_rows (snd a) /\
                (In (fst b) (map fst (stats_map rows)) ->
                 0 <= target_rows (snd a)) /\
                (~ In (fst b) (map fst (stats_map rows)) ->
                 target_rows (snd a) =
                   target_outcome startup_env (fst before) (fst b))
                /\
                target_is_estimated (snd a) = true /\
                target_updating (snd a) = false /\
                is_first_query (snd a) = false /\
                source_view a = source_view b)
             (snd before) (snd after)
       end)
    [(db, two_tables)]
    (get_target_rows_from_information_schema startup_env stays_open
       [(db, two_tables)]).
Proof.
  apply (@first_target_count startup_env stays_open [(db, two_tables)]).
  reflexivity.
Defined.

Lemma get_source_rows_loop_open (env : Env) closed :
  (forall k, closed k = false) ->
  forall todo k done,
    exists n,
      get_source_rows_loop env closed k done todo =
        done ++ map (startup_source_schema env) (firstn n todo)
             ++ skipn n todo /\
      Forall (fun st => source_statistics_fail env st = false)
             (firstn n todo) /\
      match skipn n todo with
      | [] => True
      | st :: _ => source_statistics_fail env st = true
      end.
Proof.
  intros Hopen. induction todo as [|[schema d] rest IH]; intros k done.
  - exists 0%nat. cbn. rewrite app_nil_r. auto.
  - cbn [get_source_rows_loop]. rewrite Hopen.
    assert (Hstep :
              startup_source_schema env (schema, d) =
              match unique_names (concat (map source_tables (values d))) with
              | [] => (schema, d)
              | names =>
                  match source_stats_in env schema names with
                  | Some rows =>
                      (schema,
                       map_values
                         (fun table_info =>
                            apply_source_startup (now env)
                              (startup_source_total (stats_map rows)
                                 (source_tables table_info)) table_info) d)
                  | None => (schema, d)
                  end
              end) by reflexivity.
    destruct (unique_names (concat (map source_tables (values d))))
      as [|n0 ns] eqn:En.
    + destruct (IH (S k) (done ++ [(schema, d)])) as (n & E & Hf & Hs).
      exists (S n). cbn [firstn skipn map].
      rewrite E, <- app_assoc, Hstep, ?En.
      split; [reflexivity|]. split; [|exact Hs].
      constructor; [|exact Hf]. unfold source_statistics_fail.
      cbn [fst snd]. now rewrite En.
    + destruct (source_stats_in env schema (n0 :: ns)) as [rows|] eqn:Es.
      * destruct (IH (S k)
                    (done ++
                     [(schema,
                       map_values
                         (fun table_info =>
                            apply_source_startup (now env)
                              (startup_source_total (stats_map rows)
                                 (source_tables table_info)) table_info) d)]))
          as (n & E & Hf & Hs).
        exists (S n). cbn [firstn skipn map].
        rewrite E, <- app_assoc, Hstep, ?En, ?Es.
        split; [reflexivity|]. split; [|exact Hs].
        constructor; [|exact Hf]. unfold source_statistics_fail.
        cbn [fst snd]. now rewrite En, Es.
      * rewrite Hopen. exists 0%nat. cbn [firstn skipn map app].
        split; [reflexivity|]. split; [constructor|].
        unfold source_statistics_fail. cbn [fst snd]. now rewrite En, Es.
Qed.

Lemma startup_source_total_nonneg (rows : list stats_row) (srcs : list pystr) :
  0 <= startup_source_total (stats_map rows) srcs.
Proof.
  unfold startup_source_total.
  assert (H : forall l acc, 0 <= acc ->
            0 <= fold_left
                   (fun total s =>
                      match dict_get (stats_map rows) s with
                      | Some c => total + c
                      | None => total
                      end) l acc).
  { induction l as [|s l IH]; intros acc Hacc; [exact Hacc|].
    cbn [fold_left]. apply IH.
    destruct (dict_get (stats_map rows) s) as [c|] eqn:E; [|exact Hacc].
    apply stats_map_nonneg in E. lia. }
  apply H. lia.
Qed.

(** X28.  The first source count, on a connection that stays open: the
    schemas are handled in order up to the first one whose statistics
    query raises; that schema and all schemas after it keep their records,
    since the fall-back in the handler is a call that raises.  In a schema
    that is handled, a record gets the sum of the estimates of those of
    its source tables that the statistics list: a count that is never
    negative, marked as an estimate; its target side is left alone. *)
Theorem first_source_count (env : Env) (closed : nat -> bool)
    (target_tables : dict (dict TableInfo)) :
  (forall k, closed k = false) ->
  exists n,
    get_source_rows_from_information_schema env closed target_tables =
      map (startup_source_schema env) (firstn n target_tables) ++
      skipn n target_tables /\
    Forall (fun st => source_statistics_fail env st = false)
           (firstn n target_tables) /\
    match skipn n target_tables with
    | [] => True
    | st :: _ => source_statistics_fail env st = true
    end /\
    forall st rows,
      source_stats_in env (fst st)
        (unique_names (concat (map source_tables (values (snd st)))))
        = Some rows ->
      unique_names (concat (map source_tables (values (snd st)))) <> [] ->
      Forall2
        (fun b a =>
           fst a = fst b /\
           source_rows (snd a) =
             startup_source_total (stats_map rows) (source_tables (snd b)) /\
           0 <= source_rows (snd a) /\
           source_is_estimated (snd a) = true /\
           target_rows (snd a) = target_rows (snd b))
        (snd st) (snd (startup_source_schema env st)).
Proof.
  intros Hopen. unfold get_source_rows_from_information_schema.
  destruct (@get_source_rows_loop_open env closed Hopen target_tables 0%nat [])
    as (n & E & Hf & Hs).
  exists n. split; [exact E|]. split; [exact Hf|]. split; [exact Hs|].
  intros [schema d] rows Hrows Hne. unfold startup_source_schema.
  cbn [fst snd] in *.
  destruct (unique_names (concat (map source_tables (values d))))
    as [|n0 ns]; [congruence|].
  rewrite Hrows. cbn [snd]. unfold map_values. apply Forall2_map_right.
  intros [name t]. unfold on_value. cbn [fst snd].
  destruct (apply_source_startup_fields (now env)
              (startup_source_total (stats_map rows) (source_tables t)) t)
    as (H1 & H2 & _ & _ & H5 & _).
  cbn zeta in *. rewrite H1. repeat split; auto.
  apply startup_source_total_nonneg.
Qed.

Lemma first_source_count_witness :
  exists n,
    get_source_rows_from_information_schema stopping_env stays_open
      [(db, two_tables)] =
      map (startup_source_schema stopping_env) (firstn n [(db, two_tables)])
      ++ skipn n [(db, two_tables)].
Proof.
  destruct (@first_source_count stopping_env stays_open [(db, two_tables)])
    as (n & E & _); [reflexivity|].
  exists n. exact E.
Defined.
